(** * MemoryPalace: the deck / quiz / reward model of [src/index.tsx]

    A shallow embedding of the application state and of its event handlers,
    followed by the properties of the deck assembly, the quiz session and
    the reward ledger.

    Conventions of the embedding.
    - A JavaScript string is a sequence of UTF-16 code units; the model
      carries the code units below 256 as Rocq characters.
    - A JavaScript number is a double.  The coin balance is modelled as
      the integer it holds, [NaN] or an infinity; an addition and
      [parseInt] round to the nearest double, and [toString] prints the
      shortest digits that identify the double.  The counters (question
      index, score, coins earned since the last start of a review) start
      at 0 and grow by at most 10 per event; they are modelled by their
      mathematical value.
    - An object is a location in a store; arrays of objects are lists of
      locations, so that two references to one object stay aliased.
    - Every handler is a function from the state before to the state after
      together with the list of observations it makes (alerts, requests to
      the external services, timers, console output, calls of
      [awardCoins]).  An [await] splits a handler into the part before it
      and a continuation that is run when the awaited request settles.
      An exception thrown in a [try] block ends the block where it is
      thrown: what the block has done up to there stays done, and an
      image request it has issued stays in flight, with no call waiting
      for it any more. *)

From stdpp Require Import gmap strings list pretty.
From Stdlib Require Import Ascii.

Local Open Scope Z_scope.

(** ** JavaScript primitives used by the program *)

Module Js.

(** White space and line terminators recognised by [String.prototype.trim]
    and by [parseInt], in the range of code units of the model: TAB, LF,
    VT, FF, CR, SPACE and NBSP. *)
Definition is_whitespace (c : ascii) : bool :=
  let n := N_of_ascii c in
  ((9 <=? n) && (n <=? 13) || (n =? 32) || (n =? 160))%N.

Fixpoint trimStart (s : string) : string :=
  match s with
  | String c s' => if is_whitespace c then trimStart s' else s
  | EmptyString => EmptyString
  end.

Definition trimEnd (s : string) : string :=
  String.rev (trimStart (String.rev s)).

(** [s.trim()] *)
Definition trim (s : string) : string := trimEnd (trimStart s).

(** Truthiness of a string: only the empty string is falsy. *)
Definition truthy (s : string) : bool :=
  match s with EmptyString => false | String _ _ => true end.

(** *** Numbers

    A JavaScript number is a double.  The numbers of the program hold an
    integer (a coin amount or a counter), [NaN], which [parseInt] can
    produce, or an infinity, which [parseInt] produces for digits beyond
    the largest double.  [Int z] is the double whose value is the integer
    [z]; not every integer is the value of a double, see [isDouble].
    Negative zero is not told apart from zero: the program prints its
    numbers and adds positive amounts to them, and both treat the two
    zeros alike. *)
Inductive number : Type :=
| Int (z : Z)
| NaN
| Infinity (negative : bool).

(** The double nearest to a non-negative integer: the 53 leading bits are
    kept and the rest is rounded to nearest, ties to the even significand.
    The result 2^1024 stands for a value beyond the largest double. *)
Definition roundNat (n : N) : N :=
  let shift := (N.size n - 53)%N in
  let q := N.shiftr n shift in
  let r := (n - N.shiftl q shift)%N in
  let half := N.shiftl 1 (shift - 1) in
  let q' := if ((half <? r) || ((r =? half) && N.odd q))%N
            then (q + 1)%N else q in
  N.shiftl q' shift.

(** The number an integer of the mathematical kind is turned into. *)
Definition toNumber (z : Z) : number :=
  let m := roundNat (Z.abs_N z) in
  if (2 ^ 1024 <=? m)%N then Infinity (z <? 0)
  else Int (if z <? 0 then - Z.of_N m else Z.of_N m).

(** The integers that are the value of a double. *)
Definition isDouble (z : Z) : Prop := toNumber z = Int z.

(** [x + y] on numbers: the exact sum, rounded to a double. *)
Definition add (x y : number) : number :=
  match x, y with
  | Int a, Int b => toNumber (a + b)
  | Infinity s, Int _ | Int _, Infinity s => Infinity s
  | Infinity s, Infinity s' => if Bool.eqb s s' then Infinity s else NaN
  | NaN, _ | _, NaN => NaN
  end.

Fixpoint dropZeros (s : string) : string :=
  match s with
  | String "0" s' => dropZeros s'
  | _ => s
  end.

(** The search of [Number::toString] for the digits to print: with [k]
    significant digits, the two multiples of the unit [10^(d-k)] around
    [n] are tried; one that the number [n] is the nearest double of is
    taken, the closer one when both are, the one with the even digits
    when they are as close.  [k] grows until a candidate is found, so
    that the digits are as few as possible.  (Among the candidates with
    the fewest digits the language lets an implementation choose; the
    closest one is what it recommends.) *)
Fixpoint shortestFrom (count : nat) (k d n : N) : N :=
  match count with
  | O => n
  | S count' =>
      let unit := (10 ^ (d - k))%N in
      let lo := (n / unit * unit)%N in
      let hi := (lo + unit)%N in
      let okLo := (roundNat lo =? n)%N in
      let okHi := (roundNat hi =? n)%N in
      if okLo && okHi
      then if (n - lo <? hi - n)%N then lo
           else if (hi - n <? n - lo)%N then hi
           else if N.even (n / unit) then lo else hi
      else if okLo then lo
      else if okHi then hi
      else shortestFrom count' (k + 1) d n
  end.

(** The number of decimal digits of [n], counted from [d] on. *)
Fixpoint digitsFrom (count : nat) (d n : N) : N :=
  match count with
  | O => d
  | S count' => if (n <? 10 ^ d)%N then d else digitsFrom count' (d + 1) n
  end.

Definition digits (n : N) : N := digitsFrom (N.to_nat (N.size n)) 1 n.

(** The integer whose decimal expansion [Number::toString] prints for
    the double [n]: the one with the fewest significant digits among
    those that [n] is the nearest double of. *)
Definition shortest (n : N) : N :=
  shortestFrom (N.to_nat (digits n)) 1 (digits n) n.

(** Exponent notation of [Number::toString]: one digit, the remaining
    significant digits after a point when there are any, then [e+]
    and the decimal exponent. *)
Definition exponential (v : N) : string :=
  match pretty v with
  | String d rest =>
      let frac := String.rev (dropZeros (String.rev rest)) in
      String d (if truthy frac then "." +:+ frac else "")
        +:+ "e+" +:+ pretty (String.length rest)
  | EmptyString => EmptyString
  end.

(** [Number::toString] on a non-negative integer-valued double: the
    digits found by [shortest] followed by the zeros that fill up to the
    units, as long as these are at most 21 digits, exponent notation
    beyond. *)
Definition natToString (n : N) : string :=
  let v := shortest n in
  if (v <? 10 ^ 21)%N then pretty v else exponential v.

(** [x.toString()] *)
Definition toString (x : number) : string :=
  match x with
  | NaN => "NaN"
  | Infinity negative => if negative then "-Infinity" else "Infinity"
  | Int (Zneg p) => "-" +:+ natToString (Npos p)
  | Int z => natToString (Z.to_N z)
  end.

(** The digits loop of [parseInt] in radix 10: the value of the longest
    prefix of decimal digits. *)
Fixpoint parseDigits (acc : N) (s : string) : N :=
  match s with
  | String c s' =>
      match Ascii.is_nat c with
      | Some d => parseDigits (10 * acc + N.of_nat d) s'
      | None => acc
      end
  | EmptyString => acc
  end.

Definition startsWithDigit (s : string) : bool :=
  match s with
  | String c _ => bool_decide (is_Some (Ascii.is_nat c))
  | EmptyString => false
  end.

(** [parseInt(s, 10)]: leading white space is skipped, one sign is
    accepted, the longest prefix of digits is read and its value turned
    into a number; [NaN] when there is no digit.  (Beyond 20 significant
    digits the language lets an implementation read the further digits
    as zeros; the model reads them all.) *)
Definition parseInt (s : string) : number :=
  let s1 := trimStart s in
  let '(negative, s2) :=
    match s1 with
    | String "-" r => (true, r)
    | String "+" r => (false, r)
    | _ => (false, s1)
    end in
  if startsWithDigit s2
  then toNumber (if negative then - Z.of_N (parseDigits 0 s2)
                 else Z.of_N (parseDigits 0 s2))
  else NaN.

Global Arguments roundNat : simpl never.
Global Arguments toNumber : simpl never.
Global Arguments add : simpl never.
Global Arguments shortest : simpl never.
Global Arguments natToString : simpl never.
Global Arguments toString : simpl never.
Global Arguments parseInt : simpl never.

(** [Math.floor(Math.random() * k)]: [Math.random()] lies in [0, 1), so
    the result is one of [0 .. k-1], and each of them can occur.  The
    random source is a stream of draws, and a draw selects the result by
    its remainder.  Probabilities are not part of the model. *)
Definition randomBelow (k : nat) (draw : nat) : nat := (draw mod k)%nat.

(** [a[i] = x] on an array without holes: an index inside the array
    replaces the element, the index [a.length] appends.  (A larger index
    would leave holes; the program never does that, see
    [fanOut_spec].) *)
Definition arraySet {A} (a : list A) (i : nat) (x : A) : list A :=
  if decide (i < length a)%nat then <[i := x]> a
  else if decide (i = length a) then a ++ [x]
  else a.

(** [[a[i], a[j]] = [a[j], a[i]]]: both reads happen first, then [a[i]]
    and [a[j]] are written in this order. *)
Definition swap {A} (a : list A) (i j : nat) : list A :=
  match a !! i, a !! j with
  | Some x, Some y => <[j := x]> (<[i := y]> a)
  | _, _ => a
  end.

End Js.

(** ** Data model *)

(** A location of the object store. *)
Definition loc : Type := nat.

(** A reference to a card element of the gallery. *)
Definition cardRef : Type := nat.

(** [interface Character] *)
Record Character : Type := {
  fact : string;
  characterName : string;
  imagePrompt : string;
  imageUrl : option string
}.

Global Instance Character_inhabited : Inhabited Character :=
  populate {| fact := ""; characterName := ""; imagePrompt := "";
              imageUrl := None |}.

(** An element of the [characters] array of the narrative response, as the
    response schema of the request describes it: three strings. *)
Record Descriptor : Type := {
  d_fact : string;
  d_characterName : string;
  d_imagePrompt : string
}.

(** A parsed narrative response that is an object: [story] is the text
    [data.story] puts into the story area (empty when the field is
    missing), [characters] may be missing. *)
Record Narrative : Type := {
  story : string;
  characters : option (list Descriptor)
}.

(** What makes the [try] block of the narrative stage throw, and where.
    Before a field of the response is read: the request is rejected,
    [JSON.parse] throws, or the parsed value is [null], so that
    [data.story] throws.  After the story is shown: [characters] has a
    positive length but is no array (a text, say), so that it has no
    [map]; or [characters] is an array with a [null] element, so that
    [char.characterName] throws inside the callback of [map], after the
    callback has run for the elements [before] it. *)
Inductive NarrativeFailure : Type :=
| TransportError
| ParseError
| NullResponse
| CharactersNotArray (story : string)
| NullCharacter (story : string) (before : list Descriptor).

(** How the narrative request settles.  [NarrativeNotObject] is a response
    outside the schema that parses to a number, a string, a boolean or an
    array: nothing throws, [data.story] and [data.characters] are
    [undefined].  [NarrativeOk] is a response that parses to an object
    whose [characters], when it has a positive length, is an array of
    objects. *)
Inductive NarrativeOutcome : Type :=
| NarrativeFailed (cause : NarrativeFailure)
| NarrativeNotObject
| NarrativeOk (data : Narrative).

(** What the [try] block gets from the request, [JSON.parse] and the
    field reads: the error it throws, or the two fields. *)
Definition parsedData (r : NarrativeOutcome)
  : NarrativeFailure + Narrative :=
  match r with
  | NarrativeFailed cause => inl cause
  | NarrativeNotObject => inr {| story := ""; characters := None |}
  | NarrativeOk data => inr data
  end.

(** Outcome of one [generateImages] request: the image bytes, or a failure
    (a rejected request or a response without an image). *)
Inductive ImageOutcome : Type :=
| ImageOk (imageBytes : string)
| ImageFailed.

Global Instance ImageOutcome_eq_dec : EqDecision ImageOutcome.
Proof. solve_decision. Defined.

(** The variables a suspended [generateImage] call holds on to. *)
Record ImageRequest : Type := {
  characterData : loc;
  index : nat;
  card : cardRef
}.

Global Instance ImageRequest_eq_dec : EqDecision ImageRequest.
Proof. solve_decision. Defined.

(** A card element of the gallery, by the markup last assigned to its
    [innerHTML].  The browser parses this markup: what the card shows is
    the fact as it is written only when the fact holds no markup. *)
Definition Card : Type := string.

(** [storyOutput]: the placeholder paragraph, or plain text. *)
Inductive StoryOutput : Type :=
| StoryPlaceholder
| StoryText (text : string).

(** An answer button of the quiz; [onclick] holds the two arguments the
    click handler passes to [handleAnswer]. *)
Record AnswerButton : Type := {
  textContent : string;
  disabled : bool;
  classList : list string;
  onclick : string * string
}.

(** Callbacks passed to [setTimeout]. *)
Inductive Timer : Type :=
| RemoveAwarded
| AdvanceQuestion.

Global Instance Timer_eq_dec : EqDecision Timer.
Proof. solve_decision. Defined.

(** What a handler lets the outside see.  [ConsoleError] is a message
    written by [console.error], [ConsoleErrorThrown] the error of the
    narrative stage written by it.  [Awarded] records a call of
    [awardCoins] with its argument. *)
Inductive Obs : Type :=
| Alert (message : string)
| ConsoleError (message : string)
| ConsoleErrorThrown (cause : NarrativeFailure)
| GenerateContent (facts : string)
| GenerateImages (prompt : string)
| SetTimeout (callback : Timer) (ms : nat)
| Awarded (amount : Z)
| UncaughtTypeError.

(** The script's global variables. *)
Record Vars : Type := {
  isLoading : bool;
  coins : Js.number;
  currentDeck : list loc;
  currentQuestionIndex : nat;
  score : nat;
  coinsEarnedThisSession : Z
}.

(** The authoring view and the coin display. *)
Record MainView : Type := {
  mainContainer_hidden : bool;
  factsInput_value : string;
  generateButton_disabled : bool;
  buttonText : string;
  spinner_hidden : bool;
  storyOutput : StoryOutput;
  galleryTitle_hidden : bool;
  characterGallery : list cardRef;
  startReviewButton_hidden : bool;
  coinCount : string;
  coinDisplay_awarded : bool
}.

(** The quiz view. *)
Record QuizView : Type := {
  quizContainer_hidden : bool;
  quizProgress : string;
  quizCharacterImage_src : string;
  quizCharacterImage_alt : string;
  quizQuestionText : string;
  quizAnswers : list AnswerButton
}.

(** The summary view. *)
Record SummaryView : Type := {
  quizSummary_hidden : bool;
  summaryScore : string;
  summaryCoins : string
}.

(** What the browser holds for the page: the objects and card elements
    created so far, the durable key-value store, the timers and requests
    in flight, and the random source behind [Math.random].  The image
    requests in flight are those a call of [generateStoryAndImages] is
    waiting for in [Promise.all] ([pendingImages]), and those whose call
    has thrown in the meantime ([orphanImages]): nothing waits for
    these. *)
Record Browser : Type := {
  objects : list Character;
  cards : list Card;
  localStorage : gmap string string;
  timers : list Timer;
  pendingNarrative : bool;
  pendingImages : list ImageRequest;
  orphanImages : list ImageRequest;
  randomSource : nat -> nat;
  randomPos : nat
}.

Record State : Type := {
  vars :> Vars;
  mainView :> MainView;
  quizView :> QuizView;
  summaryView :> SummaryView;
  browser :> Browser
}.

(** Field updates. *)

Definition upd_vars (f : Vars -> Vars) (st : State) : State :=
  {| vars := f (vars st); mainView := mainView st; quizView := quizView st;
     summaryView := summaryView st; browser := browser st |}.
Definition set_isLoading (x : bool) : State -> State :=
  upd_vars (fun r => {| isLoading := x; coins := coins r; currentDeck :=
     currentDeck r; currentQuestionIndex := currentQuestionIndex r; score :=
     score r; coinsEarnedThisSession := coinsEarnedThisSession r |}).
Definition set_coins (x : Js.number) : State -> State :=
  upd_vars (fun r => {| isLoading := isLoading r; coins := x; currentDeck :=
     currentDeck r; currentQuestionIndex := currentQuestionIndex r; score :=
     score r; coinsEarnedThisSession := coinsEarnedThisSession r |}).
Definition set_currentDeck (x : list loc) : State -> State :=
  upd_vars (fun r => {| isLoading := isLoading r; coins := coins r;
     currentDeck := x; currentQuestionIndex := currentQuestionIndex r; score
     := score r; coinsEarnedThisSession := coinsEarnedThisSession r |}).
Definition set_currentQuestionIndex (x : nat) : State -> State :=
  upd_vars (fun r => {| isLoading := isLoading r; coins := coins r;
     currentDeck := currentDeck r; currentQuestionIndex := x; score := score
     r; coinsEarnedThisSession := coinsEarnedThisSession r |}).
Definition set_score (x : nat) : State -> State :=
  upd_vars (fun r => {| isLoading := isLoading r; coins := coins r;
     currentDeck := currentDeck r; currentQuestionIndex :=
     currentQuestionIndex r; score := x; coinsEarnedThisSession :=
     coinsEarnedThisSession r |}).
Definition set_coinsEarnedThisSession (x : Z) : State -> State :=
  upd_vars (fun r => {| isLoading := isLoading r; coins := coins r;
     currentDeck := currentDeck r; currentQuestionIndex :=
     currentQuestionIndex r; score := score r; coinsEarnedThisSession := x
     |}).

Definition upd_mainView (f : MainView -> MainView) (st : State) : State :=
  {| vars := vars st; mainView := f (mainView st); quizView := quizView st;
     summaryView := summaryView st; browser := browser st |}.
Definition set_mainContainer_hidden (x : bool) : State -> State :=
  upd_mainView (fun r => {| mainContainer_hidden := x; factsInput_value :=
     factsInput_value r; generateButton_disabled := generateButton_disabled
     r; buttonText := buttonText r; spinner_hidden := spinner_hidden r;
     storyOutput := storyOutput r; galleryTitle_hidden :=
     galleryTitle_hidden r; characterGallery := characterGallery r;
     startReviewButton_hidden := startReviewButton_hidden r; coinCount :=
     coinCount r; coinDisplay_awarded := coinDisplay_awarded r |}).
Definition set_factsInput_value (x : string) : State -> State :=
  upd_mainView (fun r => {| mainContainer_hidden := mainContainer_hidden r;
     factsInput_value := x; generateButton_disabled :=
     generateButton_disabled r; buttonText := buttonText r; spinner_hidden
     := spinner_hidden r; storyOutput := storyOutput r; galleryTitle_hidden
     := galleryTitle_hidden r; characterGallery := characterGallery r;
     startReviewButton_hidden := startReviewButton_hidden r; coinCount :=
     coinCount r; coinDisplay_awarded := coinDisplay_awarded r |}).
Definition set_generateButton_disabled (x : bool) : State -> State :=
  upd_mainView (fun r => {| mainContainer_hidden := mainContainer_hidden r;
     factsInput_value := factsInput_value r; generateButton_disabled := x;
     buttonText := buttonText r; spinner_hidden := spinner_hidden r;
     storyOutput := storyOutput r; galleryTitle_hidden :=
     galleryTitle_hidden r; characterGallery := characterGallery r;
     startReviewButton_hidden := startReviewButton_hidden r; coinCount :=
     coinCount r; coinDisplay_awarded := coinDisplay_awarded r |}).
Definition set_buttonText (x : string) : State -> State :=
  upd_mainView (fun r => {| mainContainer_hidden := mainContainer_hidden r;
     factsInput_value := factsInput_value r; generateButton_disabled :=
     generateButton_disabled r; buttonText := x; spinner_hidden :=
     spinner_hidden r; storyOutput := storyOutput r; galleryTitle_hidden :=
     galleryTitle_hidden r; characterGallery := characterGallery r;
     startReviewButton_hidden := startReviewButton_hidden r; coinCount :=
     coinCount r; coinDisplay_awarded := coinDisplay_awarded r |}).
Definition set_spinner_hidden (x : bool) : State -> State :=
  upd_mainView (fun r => {| mainContainer_hidden := mainContainer_hidden r;
     factsInput_value := factsInput_value r; generateButton_disabled :=
     generateButton_disabled r; buttonText := buttonText r; spinner_hidden
     := x; storyOutput := storyOutput r; galleryTitle_hidden :=
     galleryTitle_hidden r; characterGallery := characterGallery r;
     startReviewButton_hidden := startReviewButton_hidden r; coinCount :=
     coinCount r; coinDisplay_awarded := coinDisplay_awarded r |}).
Definition set_storyOutput (x : StoryOutput) : State -> State :=
  upd_mainView (fun r => {| mainContainer_hidden := mainContainer_hidden r;
     factsInput_value := factsInput_value r; generateButton_disabled :=
     generateButton_disabled r; buttonText := buttonText r; spinner_hidden
     := spinner_hidden r; storyOutput := x; galleryTitle_hidden :=
     galleryTitle_hidden r; characterGallery := characterGallery r;
     startReviewButton_hidden := startReviewButton_hidden r; coinCount :=
     coinCount r; coinDisplay_awarded := coinDisplay_awarded r |}).
Definition set_galleryTitle_hidden (x : bool) : State -> State :=
  upd_mainView (fun r => {| mainContainer_hidden := mainContainer_hidden r;
     factsInput_value := factsInput_value r; generateButton_disabled :=
     generateButton_disabled r; buttonText := buttonText r; spinner_hidden
     := spinner_hidden r; storyOutput := storyOutput r; galleryTitle_hidden
     := x; characterGallery := characterGallery r; startReviewButton_hidden
     := startReviewButton_hidden r; coinCount := coinCount r;
     coinDisplay_awarded := coinDisplay_awarded r |}).
Definition set_characterGallery (x : list cardRef) : State -> State :=
  upd_mainView (fun r => {| mainContainer_hidden := mainContainer_hidden r;
     factsInput_value := factsInput_value r; generateButton_disabled :=
     generateButton_disabled r; buttonText := buttonText r; spinner_hidden
     := spinner_hidden r; storyOutput := storyOutput r; galleryTitle_hidden
     := galleryTitle_hidden r; characterGallery := x;
     startReviewButton_hidden := startReviewButton_hidden r; coinCount :=
     coinCount r; coinDisplay_awarded := coinDisplay_awarded r |}).
Definition set_startReviewButton_hidden (x : bool) : State -> State :=
  upd_mainView (fun r => {| mainContainer_hidden := mainContainer_hidden r;
     factsInput_value := factsInput_value r; generateButton_disabled :=
     generateButton_disabled r; buttonText := buttonText r; spinner_hidden
     := spinner_hidden r; storyOutput := storyOutput r; galleryTitle_hidden
     := galleryTitle_hidden r; characterGallery := characterGallery r;
     startReviewButton_hidden := x; coinCount := coinCount r;
     coinDisplay_awarded := coinDisplay_awarded r |}).
Definition set_coinCount (x : string) : State -> State :=
  upd_mainView (fun r => {| mainContainer_hidden := mainContainer_hidden r;
     factsInput_value := factsInput_value r; generateButton_disabled :=
     generateButton_disabled r; buttonText := buttonText r; spinner_hidden
     := spinner_hidden r; storyOutput := storyOutput r; galleryTitle_hidden
     := galleryTitle_hidden r; characterGallery := characterGallery r;
     startReviewButton_hidden := startReviewButton_hidden r; coinCount := x;
     coinDisplay_awarded := coinDisplay_awarded r |}).
Definition set_coinDisplay_awarded (x : bool) : State -> State :=
  upd_mainView (fun r => {| mainContainer_hidden := mainContainer_hidden r;
     factsInput_value := factsInput_value r; generateButton_disabled :=
     generateButton_disabled r; buttonText := buttonText r; spinner_hidden
     := spinner_hidden r; storyOutput := storyOutput r; galleryTitle_hidden
     := galleryTitle_hidden r; characterGallery := characterGallery r;
     startReviewButton_hidden := startReviewButton_hidden r; coinCount :=
     coinCount r; coinDisplay_awarded := x |}).

Definition upd_quizView (f : QuizView -> QuizView) (st : State) : State :=
  {| vars := vars st; mainView := mainView st; quizView := f (quizView st);
     summaryView := summaryView st; browser := browser st |}.
Definition set_quizContainer_hidden (x : bool) : State -> State :=
  upd_quizView (fun r => {| quizContainer_hidden := x; quizProgress :=
     quizProgress r; quizCharacterImage_src := quizCharacterImage_src r;
     quizCharacterImage_alt := quizCharacterImage_alt r; quizQuestionText :=
     quizQuestionText r; quizAnswers := quizAnswers r |}).
Definition set_quizProgress (x : string) : State -> State :=
  upd_quizView (fun r => {| quizContainer_hidden := quizContainer_hidden r;
     quizProgress := x; quizCharacterImage_src := quizCharacterImage_src r;
     quizCharacterImage_alt := quizCharacterImage_alt r; quizQuestionText :=
     quizQuestionText r; quizAnswers := quizAnswers r |}).
Definition set_quizCharacterImage_src (x : string) : State -> State :=
  upd_quizView (fun r => {| quizContainer_hidden := quizContainer_hidden r;
     quizProgress := quizProgress r; quizCharacterImage_src := x;
     quizCharacterImage_alt := quizCharacterImage_alt r; quizQuestionText :=
     quizQuestionText r; quizAnswers := quizAnswers r |}).
Definition set_quizCharacterImage_alt (x : string) : State -> State :=
  upd_quizView (fun r => {| quizContainer_hidden := quizContainer_hidden r;
     quizProgress := quizProgress r; quizCharacterImage_src :=
     quizCharacterImage_src r; quizCharacterImage_alt := x; quizQuestionText
     := quizQuestionText r; quizAnswers := quizAnswers r |}).
Definition set_quizQuestionText (x : string) : State -> State :=
  upd_quizView (fun r => {| quizContainer_hidden := quizContainer_hidden r;
     quizProgress := quizProgress r; quizCharacterImage_src :=
     quizCharacterImage_src r; quizCharacterImage_alt :=
     quizCharacterImage_alt r; quizQuestionText := x; quizAnswers :=
     quizAnswers r |}).
Definition set_quizAnswers (x : list AnswerButton) : State -> State :=
  upd_quizView (fun r => {| quizContainer_hidden := quizContainer_hidden r;
     quizProgress := quizProgress r; quizCharacterImage_src :=
     quizCharacterImage_src r; quizCharacterImage_alt :=
     quizCharacterImage_alt r; quizQuestionText := quizQuestionText r;
     quizAnswers := x |}).

Definition upd_summaryView (f : SummaryView -> SummaryView) (st : State)
  : State :=
  {| vars := vars st; mainView := mainView st; quizView := quizView st;
     summaryView := f (summaryView st); browser := browser st |}.
Definition set_quizSummary_hidden (x : bool) : State -> State :=
  upd_summaryView (fun r => {| quizSummary_hidden := x; summaryScore :=
     summaryScore r; summaryCoins := summaryCoins r |}).
Definition set_summaryScore (x : string) : State -> State :=
  upd_summaryView (fun r => {| quizSummary_hidden := quizSummary_hidden r;
     summaryScore := x; summaryCoins := summaryCoins r |}).
Definition set_summaryCoins (x : string) : State -> State :=
  upd_summaryView (fun r => {| quizSummary_hidden := quizSummary_hidden r;
     summaryScore := summaryScore r; summaryCoins := x |}).

Definition upd_browser (f : Browser -> Browser) (st : State) : State :=
  {| vars := vars st; mainView := mainView st; quizView := quizView st;
     summaryView := summaryView st; browser := f (browser st) |}.
Definition set_objects (x : list Character) : State -> State :=
  upd_browser (fun r => {| objects := x; cards := cards r; localStorage :=
     localStorage r; timers := timers r; pendingNarrative :=
     pendingNarrative r; pendingImages := pendingImages r; orphanImages :=
     orphanImages r; randomSource := randomSource r; randomPos := randomPos
     r |}).
Definition set_cards (x : list Card) : State -> State :=
  upd_browser (fun r => {| objects := objects r; cards := x; localStorage :=
     localStorage r; timers := timers r; pendingNarrative :=
     pendingNarrative r; pendingImages := pendingImages r; orphanImages :=
     orphanImages r; randomSource := randomSource r; randomPos := randomPos
     r |}).
Definition set_localStorage (x : gmap string string) : State -> State :=
  upd_browser (fun r => {| objects := objects r; cards := cards r;
     localStorage := x; timers := timers r; pendingNarrative :=
     pendingNarrative r; pendingImages := pendingImages r; orphanImages :=
     orphanImages r; randomSource := randomSource r; randomPos := randomPos
     r |}).
Definition set_timers (x : list Timer) : State -> State :=
  upd_browser (fun r => {| objects := objects r; cards := cards r;
     localStorage := localStorage r; timers := x; pendingNarrative :=
     pendingNarrative r; pendingImages := pendingImages r; orphanImages :=
     orphanImages r; randomSource := randomSource r; randomPos := randomPos
     r |}).
Definition set_pendingNarrative (x : bool) : State -> State :=
  upd_browser (fun r => {| objects := objects r; cards := cards r;
     localStorage := localStorage r; timers := timers r; pendingNarrative :=
     x; pendingImages := pendingImages r; orphanImages := orphanImages r;
     randomSource := randomSource r; randomPos := randomPos r |}).
Definition set_pendingImages (x : list ImageRequest) : State -> State :=
  upd_browser (fun r => {| objects := objects r; cards := cards r;
     localStorage := localStorage r; timers := timers r; pendingNarrative :=
     pendingNarrative r; pendingImages := x; orphanImages := orphanImages r;
     randomSource := randomSource r; randomPos := randomPos r |}).
Definition set_orphanImages (x : list ImageRequest) : State -> State :=
  upd_browser (fun r => {| objects := objects r; cards := cards r;
     localStorage := localStorage r; timers := timers r; pendingNarrative :=
     pendingNarrative r; pendingImages := pendingImages r; orphanImages :=
     x; randomSource := randomSource r; randomPos := randomPos r |}).
Definition set_randomSource (x : nat -> nat) : State -> State :=
  upd_browser (fun r => {| objects := objects r; cards := cards r;
     localStorage := localStorage r; timers := timers r; pendingNarrative :=
     pendingNarrative r; pendingImages := pendingImages r; orphanImages :=
     orphanImages r; randomSource := x; randomPos := randomPos r |}).
Definition set_randomPos (x : nat) : State -> State :=
  upd_browser (fun r => {| objects := objects r; cards := cards r;
     localStorage := localStorage r; timers := timers r; pendingNarrative :=
     pendingNarrative r; pendingImages := pendingImages r; orphanImages :=
     orphanImages r; randomSource := randomSource r; randomPos := x |}).

(** ** Handlers

    A handler reads and updates the state and appends to the
    observations. *)

Definition Handler (A : Type) : Type := State -> A * State * list Obs.

Global Instance Handler_ret : MRet Handler :=
  fun A x st => (x, st, []).

Global Instance Handler_bind : MBind Handler :=
  fun A B f m st =>
    let '(x, st1, o1) := m st in
    let '(y, st2, o2) := f x st1 in
    (y, st2, o1 ++ o2).

Definition get : Handler State := fun st => (st, st, []).

Definition modify (f : State -> State) : Handler () :=
  fun st => ((), f st, []).

Definition emit (o : Obs) : Handler () := fun st => ((), st, [o]).

(** Reading the current state. *)
Notation "'read' st ; k" := (get ≫= (fun st : State => k))
  (at level 20, st name, k at level 200, only parsing).

(** Result, final state and observations of a handler run from [st]. *)
Definition result {A} (m : Handler A) (st : State) : A := (m st).1.1.
Definition state {A} (m : Handler A) (st : State) : State := (m st).1.2.
Definition obs {A} (m : Handler A) (st : State) : list Obs := (m st).2.

Definition exec {A} (m : Handler A) (st : State) : State * list Obs :=
  (state m st, obs m st).

(** [o.field] for an object reference. *)
Definition deref (st : State) (l : loc) : Character := objects st !!! l.

(** *** State constants *)

Definition COINS_PER_STORY : Z := 10.
Definition COINS_PER_CORRECT_ANSWER : Z := 5.
Definition storageKey : string := "memoryPalaceCoins".

(** The coin emoji of the summary line and the warning sign of a failed
    card lie outside the code units of the model; they are kept as named
    pieces of text. *)
Definition coinGlyph : string := "(coin)".
Definition warningGlyph : string := "(warning)".

(** The double quote. *)
Definition quote : string := String "034" EmptyString.

(** *** Gamification logic *)

Definition updateCoinDisplay : Handler () :=
  read st;
  modify (set_coinCount (Js.toString (coins st))).

Definition loadGameData : Handler () :=
  read st;
  let savedCoins := localStorage st !! storageKey in
  modify (set_coins
            match savedCoins with
            | Some s => if Js.truthy s then Js.parseInt s else Js.Int 0
            | None => Js.Int 0
            end) ;;
  updateCoinDisplay.

Definition saveGameData : Handler () :=
  read st;
  modify (set_localStorage
            (<[storageKey := Js.toString (coins st)]> (localStorage st))).

Definition setTimeout (callback : Timer) (ms : nat) : Handler () :=
  read st;
  modify (set_timers (timers st ++ [callback])) ;;
  emit (SetTimeout callback ms).

Definition awardCoins (amount : Z) : Handler () :=
  emit (Awarded amount) ;;
  read st;
  modify (set_coins (Js.add (coins st) (Js.Int amount))) ;;
  modify (set_coinsEarnedThisSession (coinsEarnedThisSession st + amount)) ;;
  saveGameData ;;
  updateCoinDisplay ;;
  modify (set_coinDisplay_awarded true) ;;
  setTimeout RemoveAwarded 600.

(** *** Core logic *)

Definition setLoading (loading : bool) (message : string) : Handler () :=
  modify (set_isLoading loading) ;;
  modify (set_generateButton_disabled loading) ;;
  modify (set_spinner_hidden (negb loading)) ;;
  modify (set_buttonText message).

Definition resetOutput : Handler () :=
  modify (set_storyOutput StoryPlaceholder) ;;
  modify (set_characterGallery []) ;;
  modify (set_galleryTitle_hidden true) ;;
  modify (set_startReviewButton_hidden true) ;;
  modify (set_factsInput_value "").

Definition emptyFactsMessage : string :=
  "Please enter some facts in The Study first!".

Definition storyErrorMessage : string :=
  "An error occurred while creating your palace. "
    +:+ "Please check the console for details.".

(** [generateStoryAndImages], up to the [await] of the narrative request.
    The prompt sent wraps [facts] in a fixed instruction text. *)
Definition generateStoryAndImages : Handler () :=
  read st;
  if isLoading st then mret () else
  let facts := Js.trim (factsInput_value st) in
  if negb (Js.truthy facts) then emit (Alert emptyFactsMessage) else
  setLoading true "Weaving Story..." ;;
  modify (set_storyOutput (StoryText "")) ;;
  modify (set_characterGallery []) ;;
  modify (set_galleryTitle_hidden true) ;;
  modify (set_startReviewButton_hidden true) ;;
  modify (set_currentDeck []) ;;
  emit (GenerateContent facts) ;;
  modify (set_pendingNarrative true).

(** The object [JSON.parse] creates for an element of [characters]. *)
Definition characterOf (d : Descriptor) : Character :=
  {| fact := d_fact d; characterName := d_characterName d;
     imagePrompt := d_imagePrompt d; imageUrl := None |}.

(** [JSON.parse] creates one new object per element of [characters]. *)
Definition newCharacter (d : Descriptor) : Handler loc :=
  read st;
  modify (set_objects (objects st ++ [characterOf d])) ;;
  mret (length (objects st)).

Fixpoint newCharacters (ds : list Descriptor) : Handler (list loc) :=
  match ds with
  | [] => mret []
  | d :: ds' =>
      l ← newCharacter d;
      ls ← newCharacters ds';
      mret (l :: ls)
  end.

Definition imageStyle : string :=
  ", simple cartoon style, vibrant colors, no text".

(** The three templates assigned to a card's [innerHTML]; the fact and
    the image address are put in as they are. *)
Definition loadingMarkup (fact : string) : string :=
  "<div class=" +:+ quote +:+ "img-placeholder" +:+ quote
    +:+ "><div class=" +:+ quote +:+ "spinner" +:+ quote
    +:+ "></div></div><p>" +:+ fact +:+ "</p>".

Definition imageMarkup (imageUrl fact : string) : string :=
  "<img src=" +:+ quote +:+ imageUrl +:+ quote +:+ " alt=" +:+ quote
    +:+ fact +:+ quote +:+ "><p>" +:+ fact +:+ "</p>".

Definition failedMarkup (fact : string) : string :=
  "<div class=" +:+ quote +:+ "img-placeholder" +:+ quote +:+ ">"
    +:+ warningGlyph +:+ "</div><p>" +:+ fact +:+ "</p>".

(** [generateImage], up to the [await] of the image request. *)
Definition generateImage (characterData : loc) (index : nat)
  : Handler () :=
  read st;
  let card := length (cards st) in
  modify (set_cards
            (cards st ++ [loadingMarkup (fact (deref st characterData))])) ;;
  modify (set_characterGallery (characterGallery st ++ [card])) ;;
  modify (set_currentDeck
            (Js.arraySet (currentDeck st) index characterData)) ;;
  emit (GenerateImages
          (imagePrompt (deref st characterData) +:+ imageStyle)) ;;
  modify (set_pendingImages
            (pendingImages st ++
               [{| characterData := characterData; index := index;
                   card := card |}])).

(** The message of the [catch] block of [generateImage]. *)
Definition failedImageMessage (st : State) (characterData : loc)
  : string :=
  "Failed to generate image for " +:+ quote
    +:+ fact (deref st characterData) +:+ quote.

Definition setImageUrl (url : string) (c : Character) : Character :=
  {| fact := fact c; characterName := characterName c;
     imagePrompt := imagePrompt c; imageUrl := Some url |}.

(** [generateImage], from the point where the image request settles. *)
Definition generateImage_resume (req : ImageRequest) (r : ImageOutcome)
  : Handler () :=
  read st;
  let fact := fact (deref st (characterData req)) in
  let failed :=
    emit (ConsoleError (failedImageMessage st (characterData req))) ;;
    modify (set_cards (<[card req := failedMarkup fact]> (cards st))) in
  match r with
  | ImageOk imageBytes =>
      let imageUrl := "data:image/jpeg;base64," +:+ imageBytes in
      match currentDeck st !! index req with
      | Some l =>
          modify (set_objects
                    (alter (setImageUrl imageUrl) l (objects st))) ;;
          modify (set_cards
                    (<[card req := imageMarkup imageUrl fact]> (cards st)))
      | None => failed
      end
  | ImageFailed => failed
  end.

(** The map callback of the fan-out, over the array from [index] on. *)
Fixpoint fanOut (chars : list loc) (index : nat) : Handler () :=
  match chars with
  | [] => mret ()
  | char :: rest =>
      read st;
      setLoading true
        ("Creating " +:+ characterName (deref st char) +:+ "...") ;;
      generateImage char index ;;
      fanOut rest (S index)
  end.

(** The [finally] block. *)
Definition finish : Handler () := setLoading false "Weave a Story".

(** The [catch] block. *)
Definition catchError (cause : NarrativeFailure) : Handler () :=
  emit (ConsoleErrorThrown cause) ;;
  resetOutput ;;
  modify (set_storyOutput (StoryText storyErrorMessage)).

(** [generateStoryAndImages] from the point where all image requests have
    settled ([await Promise.all]). *)
Definition generateStoryAndImages_complete : Handler () :=
  modify (set_startReviewButton_hidden false) ;;
  awardCoins COINS_PER_STORY ;;
  finish.

(** The part of the [try] block that runs before the error [cause] is
    thrown.  When the callback of [map] throws at a [null] element, the
    image requests it has issued for the elements before stay in flight,
    and the call that issued them no longer waits for them. *)
Definition thrown (cause : NarrativeFailure) : Handler () :=
  match cause with
  | TransportError | ParseError | NullResponse => mret ()
  | CharactersNotArray story =>
      modify (set_storyOutput (StoryText story)) ;;
      modify (set_galleryTitle_hidden false)
  | NullCharacter story before =>
      chars ← newCharacters before;
      modify (set_storyOutput (StoryText story)) ;;
      modify (set_galleryTitle_hidden false) ;;
      read st;
      fanOut chars 0 ;;
      read st';
      let waited := length (pendingImages st) in
      modify (set_orphanImages
                (orphanImages st' ++ drop waited (pendingImages st'))) ;;
      modify (set_pendingImages (take waited (pendingImages st')))
  end.

(** [generateStoryAndImages] from the point where the narrative request
    settles, up to the [await] of [Promise.all] when there are characters,
    to the end otherwise. *)
Definition generateStoryAndImages_resume (r : NarrativeOutcome)
  : Handler () :=
  match parsedData r with
  | inl cause => thrown cause ;; catchError cause ;; finish
  | inr data =>
      chars ← newCharacters (default [] (characters data));
      modify (set_storyOutput (StoryText (story data))) ;;
      match chars with
      | _ :: _ =>
          modify (set_galleryTitle_hidden false) ;;
          fanOut chars 0
      | [] => awardCoins COINS_PER_STORY ;; finish
      end
  end.

(** *** Quiz logic *)

(** [Math.floor(Math.random() * k)], drawing from the random source. *)
Definition randomIndex (k : nat) : Handler nat :=
  read st;
  modify (set_randomPos (S (randomPos st))) ;;
  mret (Js.randomBelow k (randomSource st (randomPos st))).

(** The shuffle loop [for (let i = ...; i > 0; i--)], from [i] down. *)
Fixpoint shuffleFrom {A} (i : nat) (a : list A) : Handler (list A) :=
  match i with
  | O => mret a
  | S i' =>
      j ← randomIndex (i + 1);
      shuffleFrom i' (Js.swap a i j)
  end.

Definition shuffle {A} (a : list A) : Handler (list A) :=
  shuffleFrom (length a - 1) a.

Definition generateMultipleChoice (correctAnswer : string)
  : Handler (list string) :=
  read st;
  let allFacts := (fun c => fact (deref st c)) <$> currentDeck st in
  let distractors := filter (fun fact => fact ≠ correctAnswer) allFacts in
  distractors ← shuffle distractors;
  let options := correctAnswer :: take 2 distractors in
  shuffle options.

(** [`${n}`] for a counter. *)
Definition natToString (n : nat) : string :=
  Js.toString (Js.Int (Z.of_nat n)).

Definition answerButton (correctAnswer option : string) : AnswerButton :=
  {| textContent := option; disabled := false;
     classList := ["answer-button"]; onclick := (option, correctAnswer) |}.

Definition displayQuestion : Handler () :=
  read st;
  modify (set_quizProgress
            ("Question " +:+ natToString (currentQuestionIndex st + 1)
               +:+ " of " +:+ natToString (length (currentDeck st)))) ;;
  match currentDeck st !! currentQuestionIndex st with
  | Some l =>
      let character := deref st l in
      modify (set_quizCharacterImage_src
                (default "" (imageUrl character))) ;;
      modify (set_quizCharacterImage_alt
                ("Image of " +:+ characterName character)) ;;
      modify (set_quizQuestionText
                ("This character, " +:+ characterName character
                   +:+ ", reminds you of...")) ;;
      options ← generateMultipleChoice (fact character);
      modify (set_quizAnswers (answerButton (fact character) <$> options))
  | None => emit UncaughtTypeError
  end.

Definition smallDeckMessage : string :=
  "You need at least 2 characters to start a review.".

Definition startQuiz : Handler () :=
  read st;
  if decide (length (currentDeck st) < 2)%nat
  then emit (Alert smallDeckMessage)
  else
    modify (set_mainContainer_hidden true) ;;
    modify (set_quizContainer_hidden false) ;;
    modify (set_currentQuestionIndex 0%nat) ;;
    modify (set_score 0%nat) ;;
    modify (set_coinsEarnedThisSession 0) ;;
    displayQuestion.

(** [classList.add] *)
Definition classAdd (c : string) (l : list string) : list string :=
  if decide (c ∈ l) then l else l ++ [c].

(** The body of [buttons.forEach] in [handleAnswer]. *)
Definition markButton (selectedAnswer correctAnswer : string)
  (b : AnswerButton) : AnswerButton :=
  {| textContent := textContent b;
     disabled := true;
     classList :=
       if decide (textContent b = correctAnswer)
       then classAdd "correct" (classList b)
       else if decide (textContent b = selectedAnswer)
            then classAdd "incorrect" (classList b)
            else classList b;
     onclick := onclick b |}.

(** [handleAnswer]; the callback it schedules is [advanceQuestion]. *)
Definition handleAnswer (selectedAnswer correctAnswer : string)
  : Handler () :=
  read st;
  modify (set_quizAnswers
            (markButton selectedAnswer correctAnswer <$> quizAnswers st)) ;;
  (if decide (selectedAnswer = correctAnswer)
   then modify (set_score (S (score st))) ;;
        awardCoins COINS_PER_CORRECT_ANSWER
   else mret ()) ;;
  setTimeout AdvanceQuestion 1500.

(** The template of the reward line of the summary. *)
Definition summaryText (earned : Z) : string :=
  "You earned " +:+ Js.toString (Js.Int earned) +:+ " " +:+ coinGlyph
    +:+ " for this review.".

Definition showSummary : Handler () :=
  read st;
  modify (set_quizContainer_hidden true) ;;
  modify (set_quizSummary_hidden false) ;;
  modify (set_summaryScore
            ("You scored " +:+ natToString (score st) +:+ " out of "
               +:+ natToString (length (currentDeck st)) +:+ "!")) ;;
  modify (set_summaryCoins (summaryText (coinsEarnedThisSession st))).

(** The callback [handleAnswer] passes to [setTimeout]. *)
Definition advanceQuestion : Handler () :=
  read st;
  modify (set_currentQuestionIndex (S (currentQuestionIndex st))) ;;
  if decide (S (currentQuestionIndex st) < length (currentDeck st))%nat
  then displayQuestion
  else showSummary.

(** The callback [awardCoins] passes to [setTimeout]. *)
Definition removeAwarded : Handler () :=
  modify (set_coinDisplay_awarded false).

Definition resetApp : Handler () :=
  modify (set_quizSummary_hidden true) ;;
  modify (set_mainContainer_hidden false) ;;
  resetOutput.

(** *** Page load *)

Definition initialVars : Vars :=
  {| isLoading := false; coins := Js.Int 0; currentDeck := [];
     currentQuestionIndex := 0; score := 0; coinsEarnedThisSession := 0 |}.

(** The state when the script starts: the variables hold their initial
    values, the views are as the page's HTML has them, the durable store
    is what earlier visits left. *)
Definition pageLoad (main : MainView) (quiz : QuizView)
  (summary : SummaryView) (storage : gmap string string)
  (random : nat -> nat) : State :=
  {| vars := initialVars; mainView := main; quizView := quiz;
     summaryView := summary;
     browser := {| objects := []; cards := []; localStorage := storage;
                   timers := []; pendingNarrative := false;
                   pendingImages := []; orphanImages := [];
                   randomSource := random; randomPos := 0 |} |}.

(** The initial setup at the end of the script. *)
Definition startup : Handler () :=
  setLoading false "Weave a Story" ;;
  loadGameData.

(** *** The event loop *)

Inductive Event : Type :=
| ClickGenerate
| ClickStartReview
| ClickAnswer (k : nat)
| ClickReset
| InputFacts (text : string)
| NarrativeSettled (r : NarrativeOutcome)
| ImageSettled (req : ImageRequest) (r : ImageOutcome)
| TimerFired (t : Timer).

Fixpoint removeOne {A} `{EqDecision A} (x : A) (l : list A) : list A :=
  match l with
  | [] => []
  | y :: l' => if decide (x = y) then l' else y :: removeOne x l'
  end.

(** An image request settles that no call waits for: only the rest of
    [generateImage] runs. *)
Definition settleOrphan (req : ImageRequest) (r : ImageOutcome)
  : Handler () :=
  read st;
  if decide (req ∈ orphanImages st)
  then modify (set_orphanImages (removeOne req (orphanImages st))) ;;
       generateImage_resume req r
  else mret ().

Definition timerCallback (t : Timer) : Handler () :=
  match t with
  | RemoveAwarded => removeAwarded
  | AdvanceQuestion => advanceQuestion
  end.

(** Modelled from the spec: the page's HTML is not among the sources.  The
    spec describes three mutually exclusive regions: the authoring view
    (the [.container] element, with the facts input, the submit button and
    the start-review button), the quiz view (with the answer buttons) and
    the summary view (with the reset button).  An element that is hidden,
    lies in a hidden region or is disabled receives no click.  A request
    settles, and a timer fires, only while it is outstanding; the
    continuation of [Promise.all] runs as soon as the last image request
    the call waits for has settled, and no continuation runs for a
    request whose call has thrown. *)
Definition dispatch (e : Event) : Handler () :=
  read st;
  match e with
  | ClickGenerate =>
      if mainContainer_hidden st || generateButton_disabled st
      then mret () else generateStoryAndImages
  | ClickStartReview =>
      if mainContainer_hidden st || startReviewButton_hidden st
      then mret () else startQuiz
  | ClickAnswer k =>
      if quizContainer_hidden st then mret () else
      match quizAnswers st !! k with
      | Some b =>
          if disabled b then mret ()
          else handleAnswer (onclick b).1 (onclick b).2
      | None => mret ()
      end
  | ClickReset =>
      if quizSummary_hidden st then mret () else resetApp
  | InputFacts text =>
      if mainContainer_hidden st then mret ()
      else modify (set_factsInput_value text)
  | NarrativeSettled r =>
      if pendingNarrative st
      then modify (set_pendingNarrative false) ;;
           generateStoryAndImages_resume r
      else mret ()
  | ImageSettled req r =>
      if decide (req ∈ pendingImages st)
      then modify (set_pendingImages (removeOne req (pendingImages st))) ;;
           generateImage_resume req r ;;
           read st';
           match pendingImages st' with
           | [] => generateStoryAndImages_complete
           | _ :: _ => mret ()
           end
      else settleOrphan req r
  | TimerFired t =>
      if decide (t ∈ timers st)
      then modify (set_timers (removeOne t (timers st))) ;;
           timerCallback t
      else mret ()
  end.

(** Handling a sequence of events, one after the other. *)
Fixpoint run (es : list Event) : Handler () :=
  match es with
  | [] => mret ()
  | e :: es' => dispatch e ;; run es'
  end.

(** ** Notions used in the statements *)

(** The amounts of the calls of [awardCoins] among the observations. *)
Definition awards (obs : list Obs) : list Z :=
  omap (fun o => match o with Awarded a => Some a | _ => None end) obs.

(** Persisting the balance of [st], closing the page and loading it
    again. *)
Definition persistAndReload (main : MainView) (quiz : QuizView)
  (summary : SummaryView) (random : nat -> nat) (st : State) : State :=
  state startup
    (pageLoad main quiz summary (localStorage (state saveGameData st))
       random).

(** The facts of the deck, in deck order, and those among them that differ
    from the correct answer. *)
Definition deckFacts (st : State) : list string :=
  (fun c => fact (deref st c)) <$> currentDeck st.

Definition distractorsOf (st : State) (correctAnswer : string)
  : list string :=
  filter (fun fact => fact ≠ correctAnswer) (deckFacts st).

(** No story generation is running and the authoring view is shown. *)
Definition idle (st : State) : Prop :=
  mainContainer_hidden st = false
  ∧ generateButton_disabled st = false
  ∧ isLoading st = false
  ∧ pendingNarrative st = false
  ∧ pendingImages st = [].

(** The image request of the [i]-th character of a batch started from
    [st]: its object and its card are the [i]-th created from there. *)
Definition requestOf (st : State) (i : nat) : ImageRequest :=
  {| characterData := (length (objects st) + i)%nat; index := i;
     card := (length (cards st) + i)%nat |}.

(** The image requests of a batch of [n] characters started from [st]. *)
Definition requestsOf (st : State) (n : nat) : list ImageRequest :=
  requestOf st <$> seq 0 n.

(** The events of generating a story for the facts typed in [text]: the
    narrative request settles as [r], the image requests as listed. *)
Definition imageEvents (settles : list (ImageRequest * ImageOutcome))
  : list Event :=
  (fun s => ImageSettled s.1 s.2) <$> settles.

Definition storyEvents (text : string) (r : NarrativeOutcome)
  (settles : list (ImageRequest * ImageOutcome)) : list Event :=
  InputFacts text :: ClickGenerate :: NarrativeSettled r
    :: imageEvents settles.

(** A character once its image request has settled. *)
Definition settled (r : ImageOutcome) (c : Character) : Character :=
  match r with
  | ImageOk imageBytes =>
      setImageUrl ("data:image/jpeg;base64," +:+ imageBytes) c
  | ImageFailed => c
  end.

(** The object store after one image request has settled, and after a
    list of them has. *)
Definition settleObject (deck : list loc) (objs : list Character)
  (s : ImageRequest * ImageOutcome) : list Character :=
  match deck !! index s.1 with
  | Some l => alter (settled s.2) l objs
  | None => objs
  end.

Definition settleObjects (deck : list loc)
  (settles : list (ImageRequest * ImageOutcome)) (objs : list Character)
  : list Character :=
  foldl (settleObject deck) objs settles.

(** The request the fan-out starts for the [i]-th character from [index]
    on, when [cards0] cards exist before. *)
Definition fanOutRequest (index cards0 : nat) (i : nat) (char : loc)
  : ImageRequest :=
  {| characterData := char; index := (i + index)%nat;
     card := (i + cards0)%nat |}.

(** The part of the state that creating the characters, starting the image
    requests and settling an image request leave as it is. *)
Definition besideImages (st : State) :=
  (mainContainer_hidden st, startReviewButton_hidden st, quizView st,
   summaryView st, timers st, pendingNarrative st, localStorage st,
   coins st, coinsEarnedThisSession st, score st,
   currentQuestionIndex st).

(** The part of the state that the [try] block of the narrative stage
    leaves as it is up to the point where it waits for the images or
    throws. *)
Definition besideRequests (st : State) :=
  (coins st, currentQuestionIndex st, score st, coinsEarnedThisSession st,
   mainContainer_hidden st, factsInput_value st,
   startReviewButton_hidden st, coinCount st, coinDisplay_awarded st,
   quizView st, summaryView st, localStorage st, timers st,
   pendingNarrative st, randomSource st, randomPos st).

(** An observation that is a request for an image. *)
Definition imageRequest (o : Obs) : Prop :=
  ∃ prompt, o = GenerateImages prompt.

(** What the [catch] and [finally] blocks make of the state. *)
Definition caught (st : State) : State :=
  set_buttonText "Weave a Story"
    (set_spinner_hidden true
       (set_generateButton_disabled false
          (set_isLoading false
             (set_storyOutput (StoryText storyErrorMessage)
                (set_factsInput_value ""
                   (set_startReviewButton_hidden true
                      (set_galleryTitle_hidden true
                         (set_characterGallery []
                            (set_storyOutput StoryPlaceholder st))))))))).

(** The characters for which the callback of [map] has run when the
    [try] block throws. *)
Definition reached (cause : NarrativeFailure) : list Descriptor :=
  match cause with
  | NullCharacter _ before => before
  | _ => []
  end.

(** The part of the state that showing a question leaves as it is. *)
Definition besideQuestion (st : State) :=
  (vars st, mainView st, summaryView st, quizContainer_hidden st,
   timers st, pendingNarrative st, pendingImages st, objects st,
   localStorage st).

(** A story generation is under way: its narrative request, or some of
    the image requests it waits for, have not settled yet. *)
Definition generating (st : State) : Prop :=
  pendingNarrative st = true ∨ pendingImages st ≠ [].

(** What holds of the page between events.  From [startQuiz] until
    [resetApp] the authoring view is hidden; during that time no story
    generation is under way and the session reward is the correct-answer
    award times the score.  While a story is generated the review button
    is hidden and the loading flag is set.  The summary is shown only
    with the authoring and quiz views hidden and no question pending, and
    shows the session reward.  A pending advance to the next question is
    the only one, and all answer buttons are disabled meanwhile. *)
Definition invariant (st : State) : Prop :=
  (mainContainer_hidden st = true →
   coinsEarnedThisSession st
   = COINS_PER_CORRECT_ANSWER * Z.of_nat (score st)
   ∧ ¬ generating st)
  ∧ (generating st →
     startReviewButton_hidden st = true ∧ isLoading st = true)
  ∧ (pendingNarrative st = true → pendingImages st = [])
  ∧ (quizSummary_hidden st = false →
     mainContainer_hidden st = true
     ∧ quizContainer_hidden st = true
     ∧ (AdvanceQuestion ∉ timers st)
     ∧ summaryCoins st = summaryText (coinsEarnedThisSession st))
  ∧ (quizContainer_hidden st = false → mainContainer_hidden st = true)
  ∧ (AdvanceQuestion ∈ timers st →
     mainContainer_hidden st = true
     ∧ (AdvanceQuestion ∉ removeOne AdvanceQuestion (timers st))
     ∧ ∀ b, b ∈ quizAnswers st → disabled b = true).

(** The submit button is disabled exactly while the loading flag is set. *)
Definition submitGuarded (st : State) : Prop :=
  generateButton_disabled st = isLoading st.

(** The sum of a list of amounts. *)
Definition total (amounts : list Z) : Z := foldr Z.add 0 amounts.

(** The balance after the amounts have been added to it, one after the
    other. *)
Definition credited (balance : Js.number) (amounts : list Z) : Js.number :=
  foldl (fun x amount => Js.add x (Js.Int amount)) balance amounts.

(** The part of the state that holds the balance: the variable, the text
    of the coin display and the durable store. *)
Definition ledger (st : State) :=
  (coins st, coinCount st, localStorage st).

(** What one event does to the balance, given the awards [amounts] made
    while it is handled: nothing when there is none; otherwise there is
    one award, of one of the two fixed amounts, which is added to the
    balance, and the new balance is shown and written to the durable
    store under the storage key. *)
Definition ledgerStep (st : State) (amounts : list Z) (st' : State)
  : Prop :=
  (amounts = [] ∧ ledger st' = ledger st)
  ∨ (∃ amount,
       amounts = [amount]
       ∧ (amount = COINS_PER_CORRECT_ANSWER ∨ amount = COINS_PER_STORY)
       ∧ coins st' = Js.add (coins st) (Js.Int amount)
       ∧ coinCount st' = Js.toString (coins st')
       ∧ localStorage st'
         = <[storageKey := Js.toString (coins st')]> (localStorage st)).

(** The controls of the submit button follow the loading flag: the button
    is disabled and the spinner is shown exactly while the flag is set,
    the button shows its resting label while the flag is clear, and the
    flag is set only while a story generation is under way. *)
Definition loadingShown (st : State) : Prop :=
  generateButton_disabled st = isLoading st
  ∧ spinner_hidden st = negb (isLoading st)
  ∧ (isLoading st = false → buttonText st = "Weave a Story")
  ∧ (isLoading st = true → generating st).

(** The three regions of the page. *)
Inductive View : Type :=
| Authoring
| Quiz
| Summary.

(** The regions that are not hidden. *)
Definition visibleViews (st : State) : list View :=
  (if mainContainer_hidden st then [] else [Authoring])
    ++ (if quizContainer_hidden st then [] else [Quiz])
    ++ (if quizSummary_hidden st then [] else [Summary]).

(** With the authoring view hidden, the quiz or the summary is shown. *)
Definition someView (st : State) : Prop :=
  mainContainer_hidden st = true →
  quizContainer_hidden st = false ∨ quizSummary_hidden st = false.

(** The deck is empty while the narrative request is outstanding, and it
    is not empty while image requests are outstanding or the review button
    is shown. *)
Definition deckReady (st : State) : Prop :=
  (pendingNarrative st = true → currentDeck st = [])
  ∧ (pendingImages st ≠ [] ∨ startReviewButton_hidden st = false →
     currentDeck st ≠ []).

(** The coin display is highlighted only while a timer that removes the
    highlight is pending. *)
Definition highlightPending (st : State) : Prop :=
  coinDisplay_awarded st = true → RemoveAwarded ∈ timers st.

(** The templates of the texts of the quiz and of the summary. *)
Definition progressText (index size : nat) : string :=
  "Question " +:+ natToString (index + 1) +:+ " of " +:+ natToString size.

Definition questionText (c : Character) : string :=
  "This character, " +:+ characterName c +:+ ", reminds you of...".

Definition altText (c : Character) : string :=
  "Image of " +:+ characterName c.

Definition scoreText (score size : nat) : string :=
  "You scored " +:+ natToString score +:+ " out of " +:+ natToString size
    +:+ "!".

(** 1 while an answer has been given and the advance to the next question
    is pending, 0 otherwise. *)
Definition answered (st : State) : nat :=
  if decide (AdvanceQuestion ∈ timers st) then 1%nat else 0%nat.

(** What the quiz view shows for the character [c] as question
    [index + 1] of [size]: the progress line, the image, the question, and
    answer buttons whose click handlers compare the button's own text
    with the fact of [c], one of them carrying that fact. *)
Definition showsQuestion (quiz : QuizView) (index size : nat)
  (c : Character) : Prop :=
  quizProgress quiz = progressText index size
  ∧ quizCharacterImage_src quiz = default "" (imageUrl c)
  ∧ quizCharacterImage_alt quiz = altText c
  ∧ quizQuestionText quiz = questionText c
  ∧ (∀ b, b ∈ quizAnswers quiz → onclick b = (textContent b, fact c))
  ∧ (∃ b, b ∈ quizAnswers quiz ∧ textContent b = fact c).

(** [showsQuestion] without the image: an image request left in flight
    by a story generation that threw can settle while a question is on
    display, and then changes the image of the deck entry at its index,
    not the image on display. *)
Definition asksQuestion (quiz : QuizView) (index size : nat)
  (c : Character) : Prop :=
  quizProgress quiz = progressText index size
  ∧ quizCharacterImage_alt quiz = altText c
  ∧ quizQuestionText quiz = questionText c
  ∧ (∀ b, b ∈ quizAnswers quiz → onclick b = (textContent b, fact c))
  ∧ (∃ b, b ∈ quizAnswers quiz ∧ textContent b = fact c).

(** What holds of a quiz session between events.  While the quiz view is
    shown, the deck has at least two entries, the current index lies in
    the deck, the view asks the question for the entry at that index,
    and the score is at most the number of questions answered.  While the
    summary is shown, it reports the score out of the deck size, and the
    score is at most the deck size.  An advance to the next question is
    pending only while the quiz view is shown. *)
Definition quizSession (st : State) : Prop :=
  (quizContainer_hidden st = false →
   (2 ≤ length (currentDeck st))%nat
   ∧ (score st ≤ currentQuestionIndex st + answered st)%nat
   ∧ ∃ l, currentDeck st !! currentQuestionIndex st = Some l
          ∧ asksQuestion st (currentQuestionIndex st)
              (length (currentDeck st)) (deref st l))
  ∧ (quizSummary_hidden st = false →
     (2 ≤ length (currentDeck st))%nat
     ∧ (score st ≤ length (currentDeck st))%nat
     ∧ summaryScore st = scoreText (score st) (length (currentDeck st)))
  ∧ (AdvanceQuestion ∈ timers st → quizContainer_hidden st = false).

(** The markup of the card of a character once its image request has
    settled: the image template, or the failure template. *)
Definition settledCard (fact : string) (r : ImageOutcome) : Card :=
  match r with
  | ImageOk imageBytes =>
      imageMarkup ("data:image/jpeg;base64," +:+ imageBytes) fact
  | ImageFailed => failedMarkup fact
  end.

(** The label of the submit button while the image of [d] is requested. *)
Definition creatingLabel (d : Descriptor) : string :=
  "Creating " +:+ d_characterName d +:+ "...".

(** ** Concrete pages and visits used by the examples *)

Definition authoringView : MainView :=
  {| mainContainer_hidden := false; factsInput_value := "";
     generateButton_disabled := false; buttonText := "Weave a Story";
     spinner_hidden := true; storyOutput := StoryPlaceholder;
     galleryTitle_hidden := true; characterGallery := [];
     startReviewButton_hidden := true; coinCount := "0";
     coinDisplay_awarded := false |}.

Definition hiddenQuiz : QuizView :=
  {| quizContainer_hidden := true; quizProgress := "";
     quizCharacterImage_src := ""; quizCharacterImage_alt := "";
     quizQuestionText := ""; quizAnswers := [] |}.

Definition hiddenSummary : SummaryView :=
  {| quizSummary_hidden := true; summaryScore := ""; summaryCoins := "" |}.

(** A first visit: nothing stored, and a random source that counts up. *)
Definition firstVisit : State :=
  state startup (pageLoad authoringView hiddenQuiz hiddenSummary ∅ id).

Definition balance15 : State := set_coins (Js.Int 15) firstVisit.

Definition balance1e21 : State := set_coins (Js.Int (10 ^ 21)) firstVisit.

(** Only white space typed into the facts input. *)
Definition blankFacts : State :=
  state (run [InputFacts (String "009" "  ")]) firstVisit.

Definition descriptorOf (f : string) : Descriptor :=
  {| d_fact := f; d_characterName := "Sir " +:+ f;
     d_imagePrompt := "A knight holding " +:+ f |}.

Definition narrativeOf (facts : list string) : NarrativeOutcome :=
  NarrativeOk {| story := "Once upon a time";
                 characters := Some (descriptorOf <$> facts) |}.

(** A story with a single character, its image generated. *)
Definition oneCard : State :=
  state (run (storyEvents "A" (narrativeOf ["A"])
                [(requestOf firstVisit 0, ImageOk "QQ==")]))
    firstVisit.

(** A deck of two characters with different facts. *)
Definition twoCards : State :=
  state (run (storyEvents "A, B" (narrativeOf ["A"; "B"])
                [(requestOf firstVisit 0, ImageOk "QQ==");
                 (requestOf firstVisit 1, ImageOk "Qg==")]))
    firstVisit.

(** A deck of three characters, two of them for the same fact. *)
Definition repeatedFact : State :=
  state (run (storyEvents "A, B, B" (narrativeOf ["A"; "B"; "B"])
                [(requestOf firstVisit 0, ImageOk "QQ==");
                 (requestOf firstVisit 1, ImageOk "Qg==");
                 (requestOf firstVisit 2, ImageOk "Qg==")]))
    firstVisit.

Definition threeDescriptors : list Descriptor :=
  descriptorOf <$> ["A"; "B"; "C"].

(** Three image requests settling in reverse order of submission, the one
    submitted first failing. *)
Definition reverseOrder : list (ImageRequest * ImageOutcome) :=
  [(requestOf firstVisit 2, ImageOk "Qw==");
   (requestOf firstVisit 1, ImageOk "Qg==");
   (requestOf firstVisit 0, ImageFailed)].

(** A deck of three characters with three different facts, the images
    settling as in [reverseOrder]. *)
Definition threeCards : State :=
  state (run (storyEvents "A, B, C" (narrativeOf ["A"; "B"; "C"])
                reverseOrder))
    firstVisit.

(** A whole visit: a story of three characters, then the review with the
    second button clicked on each question (and a click on a disabled
    button in between), up to the summary. *)
Definition reviewEvents : list Event :=
  storyEvents "A, B, C" (narrativeOf ["A"; "B"; "C"]) reverseOrder
    ++ [ClickStartReview;
        ClickAnswer 1; ClickAnswer 2; TimerFired AdvanceQuestion;
        ClickAnswer 1; TimerFired AdvanceQuestion;
        ClickAnswer 1; TimerFired AdvanceQuestion].

(** A story generation that waits for its narrative. *)
Definition weaving : State :=
  state (run [InputFacts "A"; ClickGenerate]) firstVisit.

(** A visit that has generated the three-character story and started the
    review: the first question is on display. *)
Definition reviewing : State :=
  state (run (storyEvents "A, B, C" (narrativeOf ["A"; "B"; "C"])
                reverseOrder ++ [ClickStartReview]))
    firstVisit.

(** A story generation that threw inside the callback of [map]: the
    second element of [characters] is [null], and the image request for
    the first one is left in flight. *)
Definition leftover : State :=
  state (run (storyEvents "A"
                (NarrativeFailed
                   (NullCharacter "Once upon a time" [descriptorOf "A"]))
                []))
    firstVisit.

(** After that, a story of two characters with its images generated, the
    review started, and only then the request left in flight settling. *)
Definition leftoverEvents : list Event :=
  storyEvents "B, C" (narrativeOf ["B"; "C"])
    [(requestOf leftover 0, ImageOk "Qg==");
     (requestOf leftover 1, ImageOk "Qw==")]
    ++ [ClickStartReview;
        ImageSettled (requestOf firstVisit 0) (ImageOk "QQ==")].

(** * Properties *)

Ltac unfold_handler :=
  unfold exec, result, state, obs, mbind, Handler_bind, mret, Handler_ret,
    get, modify, emit in *.

(** ** Decimal text of the balance *)

Section Decimal.

Local Open Scope N_scope.

Lemma is_nat_pretty_char (d : N) :
  d < 10 → Ascii.is_nat (pretty_N_char d) = Some (N.to_nat d).
Proof.
  intros Hd.
  assert (d = 0 ∨ d = 1 ∨ d = 2 ∨ d = 3 ∨ d = 4 ∨ d = 5 ∨ d = 6 ∨ d = 7
          ∨ d = 8 ∨ d = 9) as Hcases by lia.
  repeat (destruct Hcases as [->|Hcases]; [reflexivity|]). by subst.
Qed.

(** Reading back the digits that [pretty_N_go] puts in front of [s]. *)
Lemma parseDigits_pretty_go (x : N) (s : string) :
  Js.parseDigits 0 (pretty_N_go x s) = Js.parseDigits x s.
Proof.
  revert s. induction (N.lt_wf_0 x) as [x _ IH]. intros s.
  destruct (decide (x = 0)) as [->|Hx]; [done|].
  rewrite pretty_N_go_step by lia.
  rewrite IH by (apply N.div_lt; lia). simpl.
  rewrite is_nat_pretty_char by (apply N.mod_lt; lia).
  f_equal. rewrite N2Nat.id. symmetry. rewrite N.add_comm.
  rewrite (N.div_mod x 10) at 1 by lia. lia.
Qed.

(** A text that starts with a digit has no white space or sign to skip. *)
Lemma parseInt_digit_first (d : N) (s : string) :
  d < 10 →
  Js.parseInt (String (pretty_N_char d) s)
  = Js.toNumber
      (Z.of_N (Js.parseDigits 0 (String (pretty_N_char d) s))).
Proof.
  intros Hd.
  assert (d = 0 ∨ d = 1 ∨ d = 2 ∨ d = 3 ∨ d = 4 ∨ d = 5 ∨ d = 6 ∨ d = 7
          ∨ d = 8 ∨ d = 9) as Hcases by lia.
  repeat (destruct Hcases as [->|Hcases]; [reflexivity|]). by subst.
Qed.

Lemma pretty_go_head (x : N) (s : string) :
  0 < x →
  ∃ d s', d < 10 ∧ pretty_N_go x s = String (pretty_N_char d) s'.
Proof.
  revert s. induction (N.lt_wf_0 x) as [x _ IH]. intros s Hx.
  rewrite pretty_N_go_step by done.
  destruct (decide (x `div` 10 = 0)) as [->|Hq].
  - exists (x `mod` 10), s. split; [by apply N.mod_lt|done].
  - apply IH; [apply N.div_lt; lia|]. by apply N.neq_0_lt_0.
Qed.

Lemma pretty_head (n : N) :
  ∃ d s', d < 10 ∧ pretty n = String (pretty_N_char d) s'.
Proof.
  unfold pretty, pretty_N. case_decide as Hn.
  - by exists 0, "".
  - apply pretty_go_head. lia.
Qed.

(** Reading the decimal digits of [n] gives the double nearest to [n]. *)
Lemma parseInt_pretty (n : N) :
  Js.parseInt (pretty n) = Js.toNumber (Z.of_N n).
Proof.
  destruct (pretty_head n) as (d & s' & Hd & Hs).
  rewrite Hs, parseInt_digit_first, <- Hs by done.
  unfold pretty, pretty_N. case_decide as Hn; [by subst|].
  by rewrite parseDigits_pretty_go.
Qed.

Lemma truthy_pretty (n : N) : Js.truthy (pretty n) = true.
Proof. by destruct (pretty_head n) as (d & s' & _ & ->). Qed.

(** *** Doubles *)

Lemma size_small (n : N) : n < 2 ^ 53 → N.size n - 53 = 0.
Proof.
  intros Hn. apply N.sub_0_le.
  destruct (decide (n = 0)) as [->|Hn0]; [done|].
  rewrite N.size_log2 by done.
  apply N.le_succ_l, N.log2_lt_pow2; lia.
Qed.

(** Every integer up to 2^53 is the value of a double. *)
Lemma roundNat_small (n : N) : n ≤ 2 ^ 53 → Js.roundNat n = n.
Proof.
  intros Hn. destruct (decide (n = 2 ^ 53)) as [->|Hne]; [done|].
  unfold Js.roundNat. rewrite size_small by lia.
  rewrite N.shiftr_0_r, !N.shiftl_0_r, N.sub_diag.
  by change (N.shiftl 1 (0 - 1)) with 1.
Qed.

Lemma toNumber_of_N (n : N) :
  Js.roundNat n < 2 ^ 1024 →
  Js.toNumber (Z.of_N n) = Js.Int (Z.of_N (Js.roundNat n)).
Proof.
  intros Hn. unfold Js.toNumber.
  replace (Z.abs_N (Z.of_N n)) with n by lia.
  destruct (N.leb_spec (2 ^ 1024) (Js.roundNat n)); [lia|].
  by destruct (Z.ltb_spec (Z.of_N n) 0); [lia|].
Qed.

Lemma isDouble_roundNat (z : Z) :
  (0 ≤ z)%Z → Js.isDouble z →
  Js.roundNat (Z.to_N z) = Z.to_N z ∧ Js.roundNat (Z.to_N z) < 2 ^ 1024.
Proof.
  intros Hz. unfold Js.isDouble, Js.toNumber.
  replace (Z.abs_N z) with (Z.to_N z) by lia.
  destruct (N.leb_spec (2 ^ 1024) (Js.roundNat (Z.to_N z))); [done|].
  destruct (Z.ltb_spec z 0); [lia|]. intros [= Heq]. lia.
Qed.

(** The digits [Number::toString] finds stand for an integer with the
    same nearest double. *)
Lemma shortestFrom_round (count : nat) (k d n : N) :
  Js.roundNat n = n → Js.roundNat (Js.shortestFrom count k d n) = n.
Proof.
  intros Hn. revert k. induction count as [|count IH]; intros k; [done|].
  cbn [Js.shortestFrom]. cbv zeta.
  destruct (N.eqb_spec (Js.roundNat (n `div` 10 ^ (d - k) * 10 ^ (d - k))) n)
    as [Hlo|_];
  destruct (N.eqb_spec
              (Js.roundNat (n `div` 10 ^ (d - k) * 10 ^ (d - k)
                            + 10 ^ (d - k))) n) as [Hhi|_];
  cbn [andb]; repeat case_match; auto.
Qed.

Lemma roundNat_1e21 : Js.roundNat (10 ^ 21) = 10 ^ 21.
Proof. by vm_compute. Qed.

(** They are at most 21 digits when the number is below 10^21. *)
Lemma shortestFrom_below (count : nat) (k d n : N) :
  n < 10 ^ 21 → d ≤ 21 → Js.shortestFrom count k d n < 10 ^ 21.
Proof.
  intros Hn Hd. revert k. induction count as [|count IH]; intros k; [done|].
  cbn [Js.shortestFrom]. cbv zeta.
  set (unit := 10 ^ (d - k)).
  assert (0 < unit) as Hunit by (apply N.neq_0_lt_0, N.pow_nonzero; lia).
  assert (n `div` unit * unit ≤ n) as Hlo
    by (rewrite N.mul_comm; apply N.Div0.mul_div_le).
  assert (Js.roundNat (n `div` unit * unit + unit) = n →
          n `div` unit * unit + unit < 10 ^ 21) as Hhi.
  { intros Hr.
    assert (10 ^ 21 = unit * 10 ^ (21 - (d - k))) as Hsplit.
    { unfold unit. rewrite <- N.pow_add_r. f_equal. lia. }
    assert (n `div` unit < 10 ^ (21 - (d - k))) as Hq.
    { apply N.Div0.div_lt_upper_bound. by rewrite <- Hsplit. }
    assert (n `div` unit * unit + unit ≤ 10 ^ 21) as Hle.
    { rewrite Hsplit. nia. }
    destruct (decide (n `div` unit * unit + unit = 10 ^ 21)) as [Heq|];
      [|lia].
    rewrite Heq, roundNat_1e21 in Hr. lia. }
  destruct (N.eqb_spec (Js.roundNat (n `div` unit * unit)) n) as [_|_];
  destruct (N.eqb_spec (Js.roundNat (n `div` unit * unit + unit)) n)
    as [Hr|_];
  cbn [andb]; repeat case_match; auto; lia.
Qed.

Lemma digitsFrom_le (count : nat) (d n m : N) :
  n < 10 ^ m → d ≤ m → Js.digitsFrom count d n ≤ m.
Proof.
  intros Hn. revert d. induction count as [|count IH]; intros d Hd; [done|].
  cbn [Js.digitsFrom]. destruct (N.ltb_spec n (10 ^ d)) as [|Hge]; [done|].
  apply IH.
  assert (d < m); [|lia].
  apply (N.pow_lt_mono_r_iff 10); lia.
Qed.

(** Below 10^21 [Number::toString] prints plain digits, and reading
    them gives the number printed. *)
Lemma natToString_round_trip (n : N) :
  Js.roundNat n = n → n < 10 ^ 21 →
  ∃ v, Js.natToString n = pretty v ∧ Js.roundNat v = n.
Proof.
  intros Hr Hn. exists (Js.shortest n). split.
  - unfold Js.natToString. cbv zeta.
    destruct (N.ltb_spec (Js.shortest n) (10 ^ 21)) as [|Hge]; [done|].
    exfalso. apply N.le_ngt in Hge. apply Hge.
    apply shortestFrom_below; [done|]. by apply digitsFrom_le.
  - by apply shortestFrom_round.
Qed.

End Decimal.

Lemma toNumber_small (z : Z) :
  - 2 ^ 53 ≤ z ≤ 2 ^ 53 → Js.toNumber z = Js.Int z.
Proof.
  intros Hz. unfold Js.toNumber.
  rewrite roundNat_small by lia.
  destruct (N.leb_spec (2 ^ 1024) (Z.abs_N z)) as [Hbig|_].
  { assert (2 ^ 53 < 2 ^ 1024)%N by done. lia. }
  f_equal. destruct (Z.ltb_spec z 0); lia.
Qed.

(** Printing a balance below 10^21 and reading the text gives the
    balance. *)
Lemma parseInt_toString (z : Z) :
  0 ≤ z < 10 ^ 21 → Js.isDouble z →
  Js.truthy (Js.toString (Js.Int z)) = true
  ∧ Js.parseInt (Js.toString (Js.Int z)) = Js.Int z.
Proof.
  intros [Hz0 Hz] Hd. destruct (isDouble_roundNat z Hz0 Hd) as [Hr Hfin].
  destruct (natToString_round_trip (Z.to_N z) Hr) as (v & Hv & Hrv);
    [lia|].
  assert (Js.toString (Js.Int z) = pretty v) as ->.
  { rewrite <- Hv. by destruct z as [|p|p]; [| |lia]. }
  split; [apply truthy_pretty|].
  rewrite parseInt_pretty, toNumber_of_N by (rewrite Hrv; lia).
  rewrite Hrv. f_equal. lia.
Qed.

(** ** The reward ledger *)

(** C9, as stated, fails: a balance of 10^21 is written to the durable
    store in exponent notation, and loading it again reads only the digit
    in front of the exponent. *)
Lemma ledger_round_trip_1e21 :
  coins balance1e21 = Js.Int (10 ^ 21)
  ∧ 0 ≤ 10 ^ 21
  ∧ localStorage (state saveGameData balance1e21) !! storageKey
    = Some "1e+21"
  ∧ coins (persistAndReload authoringView hiddenQuiz hiddenSummary id
             balance1e21) = Js.Int 1
  ∧ coins (persistAndReload authoringView hiddenQuiz hiddenSummary id
             balance1e21) ≠ coins balance1e21.
Proof. vm_compute. by repeat split. Qed.

(** C9, amended: for every non-negative integer balance below 10^21 (a
    balance is a JavaScript number, so the integer is the value of a
    double), persisting the balance ([saveGameData]) and loading it again
    after a restart ([loadGameData] in the initial setup) yields the
    balance there was before persisting.  The text written is the one
    [Number::toString] prints, the shortest digits that identify the
    double, and the text is read by [parseInt], which rounds to the
    nearest double. *)
Theorem ledger_round_trip (st : State) (n : Z) (main : MainView)
  (quiz : QuizView) (summary : SummaryView) (random : nat -> nat) :
  coins st = Js.Int n →
  Js.isDouble n →
  0 ≤ n < 10 ^ 21 →
  coins (persistAndReload main quiz summary random st) = Js.Int n.
Proof.
  intros Hc Hd Hn.
  destruct (parseInt_toString n Hn Hd) as [Ht Hp].
  unfold persistAndReload, startup, loadGameData, saveGameData,
    updateCoinDisplay, setLoading.
  unfold_handler. cbn.
  by rewrite lookup_insert_eq, Hc, Ht, Hp.
Qed.

Lemma ledger_round_trip_witness :
  coins (persistAndReload authoringView hiddenQuiz hiddenSummary id
           balance15) = Js.Int 15.
Proof.
  apply (ledger_round_trip balance15 15); [reflexivity|reflexivity|lia].
Defined.

(** ** Starting a quiz *)

(** C6: starting a quiz on a deck of fewer than 2 entries only shows the
    validation message; the state, with [currentQuestionIndex], [score] and
    [coinsEarnedThisSession], and with the views, is the one before. *)
Theorem startQuiz_small_deck (st : State) :
  (length (currentDeck st) < 2)%nat →
  exec startQuiz st = (st, [Alert smallDeckMessage]).
Proof.
  intros Hlen. unfold startQuiz. unfold_handler. simpl.
  case_decide; [done|lia].
Qed.

Lemma startQuiz_small_deck_witness :
  length (currentDeck oneCard) = 1%nat
  ∧ exec startQuiz oneCard = (oneCard, [Alert smallDeckMessage]).
Proof.
  split; [reflexivity|].
  apply (startQuiz_small_deck oneCard). vm_compute. lia.
Defined.

(** ** Scoring *)

(** C3: [handleAnswer] calls [awardCoins] exactly once, with
    [COINS_PER_CORRECT_ANSWER], and adds 1 to [score] when the selected
    option equals the correct fact; otherwise it does not call
    [awardCoins] and leaves [score] as it is. *)
Theorem handleAnswer_reward (st : State)
  (selectedAnswer correctAnswer : string) :
  awards (obs (handleAnswer selectedAnswer correctAnswer) st)
  = (if decide (selectedAnswer = correctAnswer)
     then [COINS_PER_CORRECT_ANSWER] else [])
  ∧ score (state (handleAnswer selectedAnswer correctAnswer) st)
    = (if decide (selectedAnswer = correctAnswer)
       then S (score st) else score st).
Proof.
  unfold handleAnswer, awardCoins, saveGameData, updateCoinDisplay,
    setTimeout.
  unfold_handler. simpl. case_decide; done.
Qed.

(** ** Sequencing of handlers *)

Section Sequencing.

Context {A B : Type}.
Implicit Types (m : Handler A) (f : A → Handler B) (st : State).

Lemma result_bind m f st :
  result (m ≫= f) st = result (f (result m st)) (state m st).
Proof.
  unfold_handler. destruct (m st) as [[x st1] o1]. simpl.
  by destruct (f x st1) as [[y st2] o2].
Qed.

Lemma state_bind m f st :
  state (m ≫= f) st = state (f (result m st)) (state m st).
Proof.
  unfold_handler. destruct (m st) as [[x st1] o1]. simpl.
  by destruct (f x st1) as [[y st2] o2].
Qed.

Lemma obs_bind m f st :
  obs (m ≫= f) st = obs m st ++ obs (f (result m st)) (state m st).
Proof.
  unfold_handler. destruct (m st) as [[x st1] o1]. simpl.
  by destruct (f x st1) as [[y st2] o2].
Qed.

End Sequencing.

Lemma awards_app (o1 o2 : list Obs) :
  awards (o1 ++ o2) = awards o1 ++ awards o2.
Proof. apply omap_app. Qed.

(** ** Multiple choice *)

Section Shuffle.

Context {A : Type}.
Implicit Types a : list A.

(** The index drawn in the shuffle loop lies in [0 .. i]. *)
Lemma randomIndex_le (i : nat) (st : State) :
  (result (randomIndex (i + 1)) st ≤ i)%nat.
Proof.
  unfold randomIndex, Js.randomBelow. unfold_handler. simpl.
  pose proof (Nat.mod_upper_bound (randomSource st (randomPos st)) (i + 1)).
  lia.
Qed.

(** Inside the array the swap exchanges the two elements. *)
Lemma swap_in_range a (i j : nat) :
  (i < length a)%nat → (j < length a)%nat →
  ∃ x y, a !! i = Some x ∧ a !! j = Some y
         ∧ Js.swap a i j = <[j := x]> (<[i := y]> a).
Proof.
  intros [x Hx]%lookup_lt_is_Some [y Hy]%lookup_lt_is_Some.
  exists x, y. unfold Js.swap. by rewrite Hx, Hy.
Qed.

Lemma swap_Permutation a (i j : nat) : Js.swap a i j ≡ₚ a.
Proof.
  unfold Js.swap.
  destruct (a !! i) as [x|] eqn:Hi; [|done].
  destruct (a !! j) as [y|] eqn:Hj; [|done].
  by apply Permutation_insert_swap.
Qed.

Lemma shuffleFrom_Permutation (i : nat) a (st : State) :
  result (shuffleFrom i a) st ≡ₚ a.
Proof.
  revert a st. induction i as [|i IH]; intros a st; [done|].
  simpl. by rewrite result_bind, IH, swap_Permutation.
Qed.

Lemma shuffle_Permutation a (st : State) : result (shuffle a) st ≡ₚ a.
Proof. apply shuffleFrom_Permutation. Qed.

End Shuffle.

(** The options are the correct answer and the first two of the shuffled
    distractors, in some order. *)
Lemma generateMultipleChoice_options (st : State) (correctAnswer : string) :
  ∃ distractors,
    distractors ≡ₚ distractorsOf st correctAnswer
    ∧ result (generateMultipleChoice correctAnswer) st
      ≡ₚ correctAnswer :: take 2 distractors.
Proof.
  exists (result (shuffle (distractorsOf st correctAnswer)) st).
  split; [apply shuffle_Permutation|].
  unfold generateMultipleChoice.
  rewrite result_bind, result_bind. apply shuffle_Permutation.
Qed.

Lemma three_options (st : State) (correctAnswer : string) :
  (2 ≤ length (distractorsOf st correctAnswer))%nat →
  NoDup (distractorsOf st correctAnswer) →
  let options := result (generateMultipleChoice correctAnswer) st in
  length options = 3%nat ∧ NoDup options ∧ correctAnswer ∈ options.
Proof.
  intros Hlen Hnd options.
  destruct (generateMultipleChoice_options st correctAnswer)
    as (ds & Hds & Hopts).
  fold options in Hopts.
  assert (NoDup (correctAnswer :: take 2 ds)) as Hnd3.
  { apply NoDup_cons. split.
    - intros Hin. apply subseteq_take in Hin. rewrite Hds in Hin.
      apply list_elem_of_filter in Hin as [Hne _]. by apply Hne.
    - apply (sublist_NoDup _ ds); [by rewrite Hds|apply sublist_take]. }
  rewrite Hopts. split_and!; [|done|left].
  simpl. rewrite length_take, Hds. lia.
Qed.

Lemma filter_ne_absent (x : string) (l : list string) :
  x ∉ l → filter (fun y => y ≠ x) l = l.
Proof.
  induction l as [|y l IH]; [done|].
  intros [Hne Hl]%not_elem_of_cons.
  rewrite filter_cons_True by done. by rewrite IH.
Qed.

Lemma length_filter_ne (x : string) (l : list string) :
  NoDup l → x ∈ l →
  S (length (filter (fun y => y ≠ x) l)) = length l.
Proof.
  induction 1 as [|y l Hy Hnd IH]; intros Hx; [by apply elem_of_nil in Hx|].
  destruct (decide (y = x)) as [->|Hne].
  - rewrite filter_cons_False by naive_solver.
    by rewrite filter_ne_absent.
  - rewrite filter_cons_True by done. simpl. f_equal. apply IH.
    apply elem_of_cons in Hx as [->|Hx]; done.
Qed.

(** C1, as stated, fails in two ways: a deck of two characters passes the
    entry guard of the quiz and yields two options, and a deck of three
    characters in which two share a fact can yield that fact twice. *)
Lemma generateMultipleChoice_short_or_repeated :
  (length (currentDeck twoCards) = 2%nat
   ∧ currentDeck twoCards !! currentQuestionIndex twoCards = Some 0%nat
   ∧ fact (deref twoCards 0%nat) = "A"
   ∧ result (generateMultipleChoice "A") twoCards = ["B"; "A"])
  ∧ (length (currentDeck repeatedFact) = 3%nat
     ∧ currentDeck repeatedFact !! currentQuestionIndex repeatedFact
       = Some 0%nat
     ∧ fact (deref repeatedFact 0%nat) = "A"
     ∧ result (generateMultipleChoice "A") repeatedFact = ["B"; "A"; "B"]).
Proof. vm_compute. by repeat split. Qed.

(** C1, amended: for every deck of at least 3 characters whose facts are
    pairwise distinct, and whatever the random source yields,
    [generateMultipleChoice] applied to the fact of the character on
    display returns exactly 3 distinct options, one of which is that
    fact. *)
Theorem generateMultipleChoice_three_options (st : State) (l : loc) :
  (3 ≤ length (currentDeck st))%nat →
  NoDup (deckFacts st) →
  currentDeck st !! currentQuestionIndex st = Some l →
  let options :=
    result (generateMultipleChoice (fact (deref st l))) st in
  length options = 3%nat ∧ NoDup options ∧ fact (deref st l) ∈ options.
Proof.
  intros Hlen Hnd Hl.
  assert (fact (deref st l) ∈ deckFacts st) as Hin.
  { apply list_elem_of_fmap. exists l. split; [done|].
    by apply list_elem_of_lookup_2 in Hl. }
  apply three_options.
  - pose proof (length_filter_ne _ _ Hnd Hin) as Hf.
    unfold distractorsOf. unfold deckFacts in Hf at 2.
    rewrite length_fmap in Hf. lia.
  - by apply NoDup_filter.
Qed.

Lemma generateMultipleChoice_three_options_witness :
  let options := result (generateMultipleChoice "A") threeCards in
  length options = 3%nat ∧ NoDup options ∧ "A" ∈ options.
Proof.
  apply (generateMultipleChoice_three_options threeCards 0%nat).
  - vm_compute. lia.
  - apply (bool_decide_unpack _). vm_compute. reflexivity.
  - reflexivity.
Defined.

(** ** Story generation *)

Lemma state_run_cons (e : Event) (es : list Event) (st : State) :
  state (run (e :: es)) st = state (run es) (state (dispatch e) st).
Proof. simpl. by rewrite state_bind. Qed.

Lemma obs_run_cons (e : Event) (es : list Event) (st : State) :
  obs (run (e :: es)) st
  = obs (dispatch e) st ++ obs (run es) (state (dispatch e) st).
Proof. simpl. by rewrite obs_bind. Qed.

Lemma truthy_nonempty (s : string) : s ≠ "" → Js.truthy s = true.
Proof. by destruct s. Qed.

Ltac handler_eval :=
  unfold dispatch, generateStoryAndImages, generateStoryAndImages_resume,
    generateStoryAndImages_complete, catchError, finish, resetOutput,
    setLoading, awardCoins, saveGameData, updateCoinDisplay, setTimeout,
    generateImage_resume, generateImage, newCharacter;
  unfold_handler; simpl.

Lemma dispatch_InputFacts (st : State) (text : string) :
  mainContainer_hidden st = false →
  state (dispatch (InputFacts text)) st = set_factsInput_value text st
  ∧ obs (dispatch (InputFacts text)) st = [].
Proof. intros Hm. handler_eval. by rewrite Hm. Qed.

Lemma dispatch_ClickGenerate (st : State) :
  mainContainer_hidden st = false →
  generateButton_disabled st = false →
  isLoading st = false →
  Js.trim (factsInput_value st) ≠ "" →
  state (dispatch ClickGenerate) st
  = set_pendingNarrative true
      (set_currentDeck []
         (set_startReviewButton_hidden true
            (set_galleryTitle_hidden true
               (set_characterGallery []
                  (set_storyOutput (StoryText "")
                     (set_buttonText "Weaving Story..."
                        (set_spinner_hidden false
                           (set_generateButton_disabled true
                              (set_isLoading true st)))))))))
  ∧ obs (dispatch ClickGenerate) st
    = [GenerateContent (Js.trim (factsInput_value st))].
Proof.
  intros Hm Hb Hl Hf%truthy_nonempty. handler_eval.
  rewrite Hm, Hb. simpl. rewrite Hl. simpl. by rewrite Hf.
Qed.

Lemma set_objects_id (st : State) : set_objects (objects st) st = st.
Proof. by destruct st as [? ? ? ? []]. Qed.

Lemma newCharacters_spec (ds : list Descriptor) (st : State) :
  newCharacters ds st
  = (seq (length (objects st)) (length ds),
     set_objects (objects st ++ (characterOf <$> ds)) st, []).
Proof.
  revert st. induction ds as [|d ds IH]; intros st.
  - simpl. unfold_handler. by rewrite app_nil_r, set_objects_id.
  - simpl. unfold newCharacter. unfold_handler. simpl. rewrite IH. simpl.
    rewrite length_app, Nat.add_1_r. simpl.
    by rewrite <- app_assoc.
Qed.

Lemma arraySet_end {A} (a : list A) (x : A) :
  Js.arraySet a (length a) x = a ++ [x].
Proof.
  unfold Js.arraySet. case_decide; [lia|]. by case_decide.
Qed.

Lemma fanOut_spec (chars : list loc) (index : nat) (st : State) :
  let st' := state (fanOut chars index) st in
  objects st' = objects st
  ∧ length (cards st') = (length (cards st) + length chars)%nat
  ∧ pendingImages st'
    = pendingImages st
        ++ imap (fanOutRequest index (length (cards st))) chars
  ∧ (index = length (currentDeck st) →
     currentDeck st' = currentDeck st ++ chars)
  ∧ awards (obs (fanOut chars index) st) = []
  ∧ besideImages st' = besideImages st.
Proof.
  revert index st. induction chars as [|char chars IH]; intros index st.
  - simpl. unfold_handler. simpl. by rewrite !app_nil_r.
  - cbn [fanOut]. rewrite !state_bind, !obs_bind, !awards_app.
    set (st1 := state (generateImage char index) _).
    destruct (IH (S index) st1) as (Ho & Hc & Hp & Hd & Ha & Hb).
    rewrite Ho, Hc, Hp, Ha, Hb. split_and!; try done.
    + subst st1. handler_eval. rewrite length_app. simpl. lia.
    + subst st1. handler_eval. rewrite <- app_assoc. f_equal. simpl.
      f_equal. apply imap_ext. intros i x _. unfold fanOutRequest.
      simpl. rewrite length_app. simpl. f_equal; lia.
    + intros ->. rewrite Hd.
      * subst st1. handler_eval. by rewrite arraySet_end, <- app_assoc.
      * subst st1. handler_eval. rewrite arraySet_end, length_app. simpl. lia.
Qed.

Lemma imap_fanOutRequest (st : State) (n : nat) :
  imap (fanOutRequest 0 (length (cards st))) (seq (length (objects st)) n)
  = requestsOf st n.
Proof.
  apply list_eq. intros i. unfold requestsOf.
  rewrite list_lookup_imap, list_lookup_fmap.
  destruct (decide (i < n)%nat) as [Hi|Hi].
  - rewrite !lookup_seq_lt by done. simpl.
    unfold fanOutRequest, requestOf. do 2 f_equal; lia.
  - by rewrite !lookup_seq_ge by lia.
Qed.


Lemma state_get st : state get st = st. Proof. done. Qed.
Lemma result_get st : result get st = st. Proof. done. Qed.
Lemma obs_get st : obs get st = []. Proof. done. Qed.
Lemma state_modify f st : state (modify f) st = f st. Proof. done. Qed.
Lemma obs_modify f st : obs (modify f) st = []. Proof. done. Qed.
Lemma state_emit o st : state (emit o) st = st. Proof. done. Qed.
Lemma obs_emit o st : obs (emit o) st = [o]. Proof. done. Qed.
Lemma state_ret {A} (x : A) st : state (mret x) st = st. Proof. done. Qed.
Lemma obs_ret {A} (x : A) st : obs (mret x) st = []. Proof. done. Qed.

Create Rewrite HintDb handler.
#[local] Hint Rewrite @state_bind @obs_bind @result_bind state_get result_get obs_get
  state_modify obs_modify state_emit obs_emit @state_ret @obs_ret
  awards_app : handler.

Lemma result_newCharacters ds st :
  result (newCharacters ds) st = seq (length (objects st)) (length ds).
Proof. unfold result. by rewrite newCharacters_spec. Qed.

Lemma state_newCharacters ds st :
  state (newCharacters ds) st
  = set_objects (objects st ++ (characterOf <$> ds)) st.
Proof. unfold state. by rewrite newCharacters_spec. Qed.

Lemma obs_newCharacters ds st : obs (newCharacters ds) st = [].
Proof. unfold obs. by rewrite newCharacters_spec. Qed.

#[local] Hint Rewrite result_newCharacters state_newCharacters obs_newCharacters
  : handler.

(** The end of a story generation: the award and the [finally] block. *)
Lemma story_award (st : State) :
  let st' := state (awardCoins COINS_PER_STORY ;; finish) st in
  awards (obs (awardCoins COINS_PER_STORY ;; finish) st) = [COINS_PER_STORY]
  ∧ isLoading st' = false
  ∧ generateButton_disabled st' = false
  ∧ currentDeck st' = currentDeck st
  ∧ objects st' = objects st
  ∧ pendingImages st' = pendingImages st
  ∧ startReviewButton_hidden st' = startReviewButton_hidden st.
Proof. by handler_eval. Qed.

Lemma dispatch_NarrativeSettled (st : State) (r : NarrativeOutcome) :
  pendingNarrative st = true →
  dispatch (NarrativeSettled r) st
  = (modify (set_pendingNarrative false) ;; generateStoryAndImages_resume r) st.
Proof.
  intros Hp. unfold dispatch. unfold_handler. simpl. rewrite Hp.
  by destruct (generateStoryAndImages_resume r _) as [[[] ?] ?].
Qed.

Lemma awards_imageRequests (os : list Obs) :
  Forall imageRequest os → awards os = [].
Proof.
  induction 1 as [|o os [prompt ->] _ IH]; [done|]. exact IH.
Qed.

(** What the callback of [map] leaves as it is. *)
Lemma fanOut_frame (chars : list loc) (index : nat) (st : State) :
  let st' := state (fanOut chars index) st in
  besideRequests st' = besideRequests st
  ∧ orphanImages st' = orphanImages st
  ∧ storyOutput st' = storyOutput st
  ∧ galleryTitle_hidden st' = galleryTitle_hidden st
  ∧ Forall imageRequest (obs (fanOut chars index) st).
Proof.
  revert index st. induction chars as [|c chars IH]; intros index st.
  { by split_and!. }
  cbn [fanOut]. rewrite !state_bind, !obs_bind.
  set (st1 := state (generateImage c index) _).
  destruct (IH (S index) st1) as (Hb & Ho & Hs & Hg & Hobs).
  rewrite Hb, Ho, Hs, Hg. split_and!; try done.
  subst st1. handler_eval. apply Forall_cons. split; [by eexists|done].
Qed.

(** What the [try] block leaves as it is up to the point where it
    throws. *)
Lemma thrown_frame (cause : NarrativeFailure) (st : State) :
  let st' := state (thrown cause) st in
  besideRequests st' = besideRequests st
  ∧ pendingImages st' = pendingImages st
  ∧ Forall imageRequest (obs (thrown cause) st).
Proof.
  destruct cause as [| | |story|story before]; try by handler_eval.
  cbn [thrown]. autorewrite with handler.
  match goal with |- context [state (fanOut ?cs ?i) ?s] =>
    destruct (fanOut_frame cs i s) as (Hb & _ & _ & _ & Hobs);
    destruct (fanOut_spec cs i s) as (_ & _ & Hp & _)
  end.
  cbn [app]. rewrite app_nil_r. split_and!; [|simpl|done].
  - etrans; [|exact Hb]. done.
  - rewrite Hp. apply take_app_length.
Qed.

(** A narrative stage that throws: the [catch] and [finally] blocks run
    on what the [try] block has done so far. *)
Lemma resume_failed (r : NarrativeOutcome) (cause : NarrativeFailure)
  (st : State) :
  parsedData r = inl cause →
  state (generateStoryAndImages_resume r) st
  = caught (state (thrown cause) st)
  ∧ obs (generateStoryAndImages_resume r) st
    = obs (thrown cause) st ++ [ConsoleErrorThrown cause].
Proof.
  intros Hr. unfold generateStoryAndImages_resume. rewrite Hr.
  unfold catchError, finish, resetOutput, setLoading.
  autorewrite with handler. by rewrite !app_nil_r.
Qed.

Lemma resume_failed_frame (r : NarrativeOutcome)
  (cause : NarrativeFailure) (st : State) :
  parsedData r = inl cause →
  let st' := state (generateStoryAndImages_resume r) st in
  vars st'
  = {| isLoading := false; coins := coins st;
       currentDeck := currentDeck (state (thrown cause) st);
       currentQuestionIndex := currentQuestionIndex st; score := score st;
       coinsEarnedThisSession := coinsEarnedThisSession st |}
  ∧ mainView st'
    = {| mainContainer_hidden := mainContainer_hidden st;
         factsInput_value := ""; generateButton_disabled := false;
         buttonText := "Weave a Story"; spinner_hidden := true;
         storyOutput := StoryText storyErrorMessage;
         galleryTitle_hidden := true; characterGallery := [];
         startReviewButton_hidden := true; coinCount := coinCount st;
         coinDisplay_awarded := coinDisplay_awarded st |}
  ∧ quizView st' = quizView st
  ∧ summaryView st' = summaryView st
  ∧ localStorage st' = localStorage st
  ∧ timers st' = timers st
  ∧ pendingNarrative st' = pendingNarrative st
  ∧ pendingImages st' = pendingImages st
  ∧ Forall imageRequest (obs (thrown cause) st)
  ∧ obs (generateStoryAndImages_resume r) st
    = obs (thrown cause) st ++ [ConsoleErrorThrown cause].
Proof.
  intros Hr st'. subst st'.
  destruct (resume_failed r cause st Hr) as [-> ->].
  destruct (thrown_frame cause st) as (Hb & Hp & Hobs).
  injection Hb as H1 H2 H3 H4 H5 H6 H7 H8 H9 H10 H11 H12 H13 H14 _ _.
  unfold caught. simpl.
  by rewrite H1, H2, H3, H4, H5, H8, H9, H10, H11, H12, H13, H14, Hp.
Qed.

(** Rewrites the state and the observations of a narrative stage that
    throws (outcome [r], cause [cause], run from [s]) into what
    [resume_failed_frame] gives. *)
Ltac failed_path r cause s Hr :=
  let Hfv := fresh "Hfv" in
  let Hfm := fresh "Hfm" in
  let Hfq := fresh "Hfq" in
  let Hfs := fresh "Hfs" in
  let Hfl := fresh "Hfl" in
  let Hft := fresh "Hft" in
  let Hfn := fresh "Hfn" in
  let Hfp := fresh "Hfp" in
  let Hfr := fresh "Hfr" in
  let Hfo := fresh "Hfo" in
  destruct (resume_failed_frame r cause s Hr)
    as (Hfv & Hfm & Hfq & Hfs & Hfl & Hft & Hfn & Hfp & Hfr & Hfo);
  rewrite ?Hfv, ?Hfm, ?Hfq, ?Hfs, ?Hfl, ?Hft, ?Hfn, ?Hfp, ?Hfo;
  rewrite ?awards_app, ?(awards_imageRequests _ Hfr);
  clear Hfv Hfm Hfq Hfs Hfl Hft Hfn Hfp Hfo.

Lemma read_eq {A} (k : State → Handler A) (st : State) :
  (get ≫= k) st = k st st.
Proof. unfold_handler. by destruct (k st st) as [[? ?] ?]. Qed.

Lemma dispatch_ImageSettled (st : State) (req : ImageRequest)
  (r : ImageOutcome) :
  req ∈ pendingImages st →
  dispatch (ImageSettled req r) st
  = (modify (set_pendingImages (removeOne req (pendingImages st))) ;;
     generateImage_resume req r ;;
     read st';
     match pendingImages st' with
     | [] => generateStoryAndImages_complete
     | _ :: _ => mret ()
     end) st.
Proof.
  intros Hp. unfold dispatch at 1. rewrite read_eq.
  by rewrite decide_True.
Qed.

Lemma generateImage_resume_spec (req : ImageRequest) (r : ImageOutcome)
  (st : State) :
  let st' := state (generateImage_resume req r) st in
  currentDeck st' = currentDeck st
  ∧ pendingImages st' = pendingImages st
  ∧ objects st' = settleObject (currentDeck st) (objects st) (req, r)
  ∧ awards (obs (generateImage_resume req r) st) = []
  ∧ isLoading st' = isLoading st
  ∧ generateButton_disabled st' = generateButton_disabled st
  ∧ besideImages st' = besideImages st.
Proof.
  unfold settleObject. simpl.
  destruct r as [bytes|]; handler_eval;
    destruct (currentDeck st !! index req) as [l|]; simpl;
    split_and!; try done.
  symmetry. by apply list_alter_id.
Qed.

Lemma complete_spec (st : State) :
  let st' := state generateStoryAndImages_complete st in
  awards (obs generateStoryAndImages_complete st) = [COINS_PER_STORY]
  ∧ isLoading st' = false
  ∧ generateButton_disabled st' = false
  ∧ startReviewButton_hidden st' = false
  ∧ currentDeck st' = currentDeck st
  ∧ objects st' = objects st
  ∧ pendingImages st' = pendingImages st.
Proof. by handler_eval. Qed.

Lemma removeOne_Permutation {A} `{EqDecision A} (x : A) (l : list A) :
  x ∈ l → l ≡ₚ x :: removeOne x l.
Proof.
  induction l as [|y l IH]; [by intros ?%elem_of_nil|].
  intros Hx. simpl. case_decide as Hxy; [by subst|].
  apply elem_of_cons in Hx as [?|Hx]; [done|].
  rewrite IH at 1 by done. apply Permutation_swap.
Qed.

Lemma exec_ext {A} (m m' : Handler A) (st : State) :
  m st = m' st → state m st = state m' st ∧ obs m st = obs m' st.
Proof. intros E. unfold state, obs. by rewrite E. Qed.

Lemma image_settled_spec (st : State) (req : ImageRequest)
  (r : ImageOutcome) :
  req ∈ pendingImages st →
  let st0 := set_pendingImages (removeOne req (pendingImages st)) st in
  let st1 := state (generateImage_resume req r) st0 in
  state (dispatch (ImageSettled req r)) st
  = match pendingImages st1 with
    | [] => state generateStoryAndImages_complete st1
    | _ :: _ => st1
    end
  ∧ obs (dispatch (ImageSettled req r)) st
    = obs (generateImage_resume req r) st0
        ++ match pendingImages st1 with
           | [] => obs generateStoryAndImages_complete st1
           | _ :: _ => []
           end.
Proof.
  intros Hreq st0 st1.
  destruct (exec_ext _ _ _ (dispatch_ImageSettled st req r Hreq))
    as [-> ->].
  autorewrite with handler. fold st0. fold st1.
  by destruct (pendingImages st1); autorewrite with handler.
Qed.

(** A settling image request touches only the object store and the
    cards. *)
Lemma generateImage_resume_frame (req : ImageRequest) (r : ImageOutcome)
  (st : State) :
  let st' := state (generateImage_resume req r) st in
  vars st' = vars st
  ∧ mainView st' = mainView st
  ∧ quizView st' = quizView st
  ∧ summaryView st' = summaryView st
  ∧ timers st' = timers st
  ∧ localStorage st' = localStorage st
  ∧ pendingNarrative st' = pendingNarrative st
  ∧ pendingImages st' = pendingImages st.
Proof.
  destruct r; handler_eval; by destruct (currentDeck st !! index req).
Qed.

(** A settling image request leaves the texts of every character as they
    are. *)
Lemma generateImage_resume_text (req : ImageRequest) (r : ImageOutcome)
  (st : State) (l : loc) :
  let st' := state (generateImage_resume req r) st in
  fact (deref st' l) = fact (deref st l)
  ∧ characterName (deref st' l) = characterName (deref st l).
Proof.
  destruct (generateImage_resume_spec req r st) as (_ & _ & Ho & _).
  cbv zeta. unfold deref. rewrite Ho. unfold settleObject. cbn [fst snd].
  destruct (currentDeck st !! index req) as [l'|]; [|done].
  destruct (decide (l = l')) as [->|Hne].
  - rewrite !list_lookup_total_alt, list_lookup_alter_eq.
    destruct (_ !! _), r; by simpl.
  - by rewrite list_lookup_total_alter_ne.
Qed.

(** An image request that no call waits for touches only the object
    store, the cards and the requests in flight. *)
Lemma settleOrphan_frame (req : ImageRequest) (r : ImageOutcome)
  (st : State) :
  let st' := state (settleOrphan req r) st in
  vars st' = vars st
  ∧ mainView st' = mainView st
  ∧ quizView st' = quizView st
  ∧ summaryView st' = summaryView st
  ∧ timers st' = timers st
  ∧ localStorage st' = localStorage st
  ∧ pendingNarrative st' = pendingNarrative st
  ∧ pendingImages st' = pendingImages st
  ∧ awards (obs (settleOrphan req r) st) = []
  ∧ (UncaughtTypeError ∉ obs (settleOrphan req r) st)
  ∧ (∀ l, fact (deref st' l) = fact (deref st l)
          ∧ characterName (deref st' l) = characterName (deref st l)).
Proof.
  unfold settleOrphan. rewrite state_bind, obs_bind, state_get, result_get.
  case_decide; [|by split_and!; [..|apply not_elem_of_nil|]].
  autorewrite with handler.
  match goal with |- context [state (generateImage_resume _ _) ?s] =>
    destruct (generateImage_resume_frame req r s)
      as (-> & -> & -> & -> & -> & -> & -> & ->);
    destruct (generateImage_resume_spec req r s) as (_ & _ & _ & -> & _);
    pose proof (generateImage_resume_text req r s) as Htext
  end.
  split_and!; try done.
  cbn [app]. destruct r; handler_eval;
    destruct (currentDeck st !! index req); simpl;
    rewrite ?elem_of_cons, elem_of_nil; intuition congruence.
Qed.

(** Rewrites the state and the awards after an image request that no
    call waits for has settled from [s]. *)
Ltac orphan_path req r s :=
  let H1 := fresh "Hov" in
  let H2 := fresh "Hom" in
  let H3 := fresh "Hoq" in
  let H4 := fresh "Hos" in
  let H5 := fresh "Hot" in
  let H6 := fresh "Hol" in
  let H7 := fresh "Hon" in
  let H8 := fresh "Hop" in
  let H9 := fresh "Hoa" in
  destruct (settleOrphan_frame req r s)
    as (H1 & H2 & H3 & H4 & H5 & H6 & H7 & H8 & H9 & _);
  rewrite ?H1, ?H2, ?H3, ?H4, ?H5, ?H6, ?H7, ?H8, ?H9;
  clear H1 H2 H3 H4 H5 H6 H7 H8 H9.

(** It settles without a continuation of [generateStoryAndImages]. *)
Lemma orphan_settled (st : State) (req : ImageRequest) (r : ImageOutcome) :
  req ∉ pendingImages st →
  state (dispatch (ImageSettled req r)) st = state (settleOrphan req r) st
  ∧ obs (dispatch (ImageSettled req r)) st = obs (settleOrphan req r) st.
Proof.
  intros Hreq. unfold dispatch.
  rewrite state_bind, obs_bind, state_get, result_get, obs_get.
  by rewrite !decide_False by done.
Qed.

Lemma orphan_settled_frame (st : State) (req : ImageRequest)
  (r : ImageOutcome) :
  req ∉ pendingImages st →
  let st' := state (dispatch (ImageSettled req r)) st in
  vars st' = vars st
  ∧ mainView st' = mainView st
  ∧ quizView st' = quizView st
  ∧ summaryView st' = summaryView st
  ∧ timers st' = timers st
  ∧ localStorage st' = localStorage st
  ∧ pendingNarrative st' = pendingNarrative st
  ∧ pendingImages st' = pendingImages st
  ∧ awards (obs (dispatch (ImageSettled req r)) st) = [].
Proof.
  intros Hreq. destruct (orphan_settled st req r Hreq) as [-> ->].
  destruct (settleOrphan_frame req r st)
    as (? & ? & ? & ? & ? & ? & ? & ? & ? & _).
  by split_and!.
Qed.

(** With no call waiting for images, settling image requests leave the
    variables, the views, the timers and the durable store as they are. *)
Lemma orphans_settled (settles : list (ImageRequest * ImageOutcome))
  (st : State) :
  pendingImages st = [] →
  let st' := state (run (imageEvents settles)) st in
  vars st' = vars st
  ∧ mainView st' = mainView st
  ∧ quizView st' = quizView st
  ∧ summaryView st' = summaryView st
  ∧ timers st' = timers st
  ∧ localStorage st' = localStorage st
  ∧ pendingNarrative st' = pendingNarrative st
  ∧ pendingImages st' = []
  ∧ awards (obs (run (imageEvents settles)) st) = [].
Proof.
  revert st. induction settles as [|[req r] settles IH]; intros st Hp.
  { by split_and!. }
  cbn [imageEvents fmap list_fmap fst snd]. fold (imageEvents settles).
  rewrite state_run_cons, obs_run_cons, awards_app.
  destruct (orphan_settled_frame st req r)
    as (H1 & H2 & H3 & H4 & H5 & H6 & H7 & H8 & H9).
  { rewrite Hp. apply not_elem_of_nil. }
  destruct (IH (state (dispatch (ImageSettled req r)) st))
    as (-> & -> & -> & -> & -> & -> & -> & -> & ->); [congruence|].
  by rewrite H1, H2, H3, H4, H5, H6, H7, H9.
Qed.

Lemma thrown_deck (cause : NarrativeFailure) (st : State) :
  currentDeck st = [] →
  currentDeck (state (thrown cause) st)
  = seq (length (objects st)) (length (reached cause)).
Proof.
  intros Hd. destruct cause as [| | |story|story before]; try done.
  cbn [thrown reached]. autorewrite with handler.
  match goal with |- context [state (fanOut ?cs ?i) ?s] =>
    destruct (fanOut_spec cs i s) as (_ & _ & _ & Hdeck & _)
  end.
  simpl. rewrite Hdeck by (simpl; by rewrite Hd). simpl. by rewrite Hd.
Qed.

Lemma run_settles (settles : list (ImageRequest * ImageOutcome))
  (st : State) :
  settles ≠ [] →
  settles.*1 ≡ₚ pendingImages st →
  let st' := state (run (imageEvents settles)) st in
  currentDeck st' = currentDeck st
  ∧ objects st' = settleObjects (currentDeck st) settles (objects st)
  ∧ awards (obs (run (imageEvents settles)) st) = [COINS_PER_STORY]
  ∧ isLoading st' = false
  ∧ generateButton_disabled st' = false
  ∧ startReviewButton_hidden st' = false
  ∧ pendingImages st' = [].
Proof.
  revert st. induction settles as [|[req r] settles IH]; [done|].
  intros st _ Hperm. simpl in Hperm.
  assert (req ∈ pendingImages st) as Hreq.
  { rewrite <- Hperm. by left. }
  cbn [imageEvents fmap list_fmap fst snd].
  fold (imageEvents settles).
  rewrite state_run_cons, obs_run_cons, awards_app.
  destruct (image_settled_spec st req r Hreq) as [Hs Ho].
  set (st0 := set_pendingImages (removeOne req (pendingImages st)) st) in *.
  destruct (generateImage_resume_spec req r st0)
    as (Hdeck & Hpend & Hobj & Haw & _).
  set (st1 := state (generateImage_resume req r) st0) in *.
  rewrite Hs, Ho, awards_app, Haw. clear Hs Ho.
  assert (pendingImages st1 ≡ₚ settles.*1) as Hrest.
  { rewrite Hpend. subst st0. simpl.
    apply (Permutation_cons_inv (a := req)).
    by rewrite <- removeOne_Permutation. }
  destruct settles as [|s settles].
  - apply Permutation_nil_r in Hrest. rewrite Hrest.
    destruct (complete_spec st1)
      as (Hc1 & Hc2 & Hc3 & Hc4 & Hc5 & Hc6 & Hc7).
    cbn [imageEvents fmap list_fmap run]. autorewrite with handler.
    rewrite Hc1, Hc5, Hc6, Hc7, Hdeck, Hobj, app_nil_r. by split_and!.
  - destruct (pendingImages st1) as [|p ps] eqn:Hps.
    { apply Permutation_nil_l in Hrest. done. }
    destruct (IH st1) as (H1 & H2 & H3 & H4 & H5 & H6 & H7).
    { done. } { by rewrite Hps, Hrest. }
    rewrite H1, H2, H3, Hdeck, Hobj. by split_and!.
Qed.

Lemma besideImages_inv (st st' : State) :
  besideImages st' = besideImages st →
  mainContainer_hidden st' = mainContainer_hidden st
  ∧ startReviewButton_hidden st' = startReviewButton_hidden st
  ∧ quizView st' = quizView st
  ∧ summaryView st' = summaryView st
  ∧ timers st' = timers st
  ∧ pendingNarrative st' = pendingNarrative st
  ∧ localStorage st' = localStorage st
  ∧ coins st' = coins st
  ∧ coinsEarnedThisSession st' = coinsEarnedThisSession st
  ∧ score st' = score st
  ∧ currentQuestionIndex st' = currentQuestionIndex st.
Proof. by intros [= ? ? ? ? ? ? ? ? ? ? ?]. Qed.

Lemma dispatch_parsed (st : State) (r : NarrativeOutcome)
  (data : Narrative) :
  pendingNarrative st = true →
  currentDeck st = [] →
  parsedData r = inr data →
  let ds := default [] (characters data) in
  let e := NarrativeSettled r in
  let st' := state (dispatch e) st in
  objects st' = objects st ++ (characterOf <$> ds)
  ∧ currentDeck st' = seq (length (objects st)) (length ds)
  ∧ pendingImages st' = pendingImages st ++ requestsOf st (length ds)
  ∧ startReviewButton_hidden st' = startReviewButton_hidden st
  ∧ awards (obs (dispatch e) st)
    = match ds with [] => [COINS_PER_STORY] | _ :: _ => [] end
  ∧ match ds with
    | [] => isLoading st' = false ∧ generateButton_disabled st' = false
    | _ :: _ => True
    end.
Proof.
  intros Hp Hdeck Hr ds e st'. subst st' e.
  destruct (exec_ext _ _ _ (dispatch_NarrativeSettled st r Hp)) as [-> ->].
  unfold generateStoryAndImages_resume. rewrite Hr. fold ds.
  autorewrite with handler.
  destruct ds as [|d ds'] eqn:Hds.
  - cbn [length seq fmap list_fmap].
    match goal with |- context [state (awardCoins _ ;; finish) ?s] =>
      destruct (story_award s) as (Ha & Hl & Hb & H1 & H2 & H3 & H4) end.
    rewrite Ha, Hl, Hb, H1, H2, H3, H4. simpl.
    rewrite !app_nil_r. by rewrite Hdeck.
  - remember (seq (length (objects (set_pendingNarrative false st)))
                (length (d :: ds'))) as chars eqn:Hchars.
    destruct chars as [|c cs]; [done|]. rewrite Hchars.
    autorewrite with handler.
    match goal with |- context [state (fanOut ?cs ?i) ?s] =>
      destruct (fanOut_spec cs i s) as (Ho & _ & Hpi & Hd & Ha & Hb) end.
    apply besideImages_inv in Hb as (_ & Hb & _).
    rewrite Ho, Hpi, Ha, Hb, Hd by (simpl; by rewrite Hdeck).
    simpl. rewrite Hdeck. split_and!; try done.
    f_equal. exact (imap_fanOutRequest st (length (d :: ds'))).
Qed.

Section SettleObjects.

Implicit Types (deck : list loc) (objs : list Character)
  (settles : list (ImageRequest * ImageOutcome)).

Lemma settleObjects_untouched deck settles objs (l : loc) :
  (∀ s, s ∈ settles → deck !! index s.1 ≠ Some l) →
  settleObjects deck settles objs !! l = objs !! l.
Proof.
  revert objs. induction settles as [|s settles IH]; intros objs Hs; [done|].
  unfold settleObjects in *. simpl. rewrite IH.
  - unfold settleObject.
    destruct (deck !! index s.1) as [l'|] eqn:Hl'; [|done].
    apply list_lookup_alter_ne. intros ->.
    by apply (Hs s); [left|].
  - intros s' Hs'. apply Hs. by right.
Qed.

Lemma settleObjects_lookup deck settles objs (req : ImageRequest)
  (r : ImageOutcome) (l : loc) :
  NoDup deck →
  NoDup (index <$> settles.*1) →
  (req, r) ∈ settles →
  deck !! index req = Some l →
  settleObjects deck settles objs !! l = settled r <$> objs !! l.
Proof.
  intros Hdeck. revert objs.
  induction settles as [|s settles IH]; intros objs Hnd Hin Hl.
  { by apply elem_of_nil in Hin. }
  rewrite !fmap_cons in Hnd. apply NoDup_cons in Hnd as [Hs Hnd].
  assert (∀ s', s' ∈ settles → deck !! index s'.1 = Some l →
                index s'.1 = index req) as Hsame.
  { intros s' _ Hl'. by apply (NoDup_lookup deck _ _ l). }
  apply elem_of_cons in Hin as [<-|Hin].
  - change (settleObjects deck ((req, r) :: settles) objs)
      with (settleObjects deck settles (settleObject deck objs (req, r))).
    rewrite settleObjects_untouched.
    + unfold settleObject. simpl. rewrite Hl. apply list_lookup_alter_eq.
    + intros s' Hs' Hl'. apply Hs. simpl.
      rewrite <- (Hsame s' Hs' Hl'). 
      apply list_elem_of_fmap_2, list_elem_of_fmap_2, Hs'.
  - change (settleObjects deck (s :: settles) objs)
      with (settleObjects deck settles (settleObject deck objs s)).
    rewrite IH by done. f_equal.
    unfold settleObject.
    destruct (deck !! index s.1) as [l'|] eqn:Hl'; [|done].
    apply list_lookup_alter_ne. intros ->. apply Hs.
    assert (index s.1 = index req) as -> by by apply (NoDup_lookup deck _ _ l).
    apply list_elem_of_fmap_2,
      (list_elem_of_fmap_2 fst _ (req, r)), Hin.
Qed.

End SettleObjects.

Lemma requestsOf_index (st : State) (n : nat) :
  index <$> requestsOf st n = seq 0 n.
Proof.
  unfold requestsOf. rewrite <- list_fmap_compose.
  apply list_fmap_id.
Qed.

Lemma story_run (st : State) (text : string) (r : NarrativeOutcome)
  (data : Narrative) (settles : list (ImageRequest * ImageOutcome)) :
  idle st →
  Js.trim text ≠ "" →
  parsedData r = inr data →
  let ds := default [] (characters data) in
  settles.*1 ≡ₚ requestsOf st (length ds) →
  let es := storyEvents text r settles in
  let st' := state (run es) st in
  let deck := seq (length (objects st)) (length ds) in
  currentDeck st' = deck
  ∧ objects st'
    = settleObjects deck settles (objects st ++ (characterOf <$> ds))
  ∧ awards (obs (run es) st) = [COINS_PER_STORY]
  ∧ isLoading st' = false
  ∧ generateButton_disabled st' = false
  ∧ pendingImages st' = []
  ∧ (ds ≠ [] → startReviewButton_hidden st' = false).
Proof.
  intros (Hm & Hb & Hl & Hn & Hp) Htext Hr ds Hperm es st' deck.
  subst es st' deck. unfold storyEvents.
  rewrite !state_run_cons, !obs_run_cons, !awards_app.
  pose proof (dispatch_InputFacts st text Hm) as [H1s H1o].
  rewrite H1s, H1o. clear H1s H1o.
  set (st1 := set_factsInput_value text st).
  pose proof (dispatch_ClickGenerate st1 Hm Hb Hl Htext) as [H2s H2o].
  rewrite H2s, H2o. clear H2s H2o.
  match goal with |- context [state (dispatch (NarrativeSettled _)) ?s] =>
    set (st2 := s) end.
  destruct (dispatch_parsed st2 r data)
    as (H3o & H3d & H3p & H3b & H3a & H3l); [done..|].
  fold ds in H3o, H3d, H3p, H3a, H3l.
  set (st3 := state (dispatch (NarrativeSettled r)) st2) in *.
  change (objects st2) with (objects st) in *.
  change (pendingImages st2) with (pendingImages st) in *.
  change (requestsOf st2 (length ds)) with (requestsOf st (length ds)) in *.
  rewrite Hp in H3p. simpl in H3p.
  destruct settles as [|s settles].
  - simpl in Hperm. apply Permutation_nil_l in Hperm.
    assert (ds = []) as Hds.
    { destruct ds; [done|]. discriminate. }
    rewrite Hds in *. cbn [imageEvents fmap list_fmap run length seq].
    autorewrite with handler.
    destruct H3l as [H3l H3g].
    change (state (mret ()) st3) with st3.
    change (obs (mret ()) st3) with (@nil Obs).
    rewrite H3d, H3o, H3a, H3l, H3g, H3p. by split_and!.
  - destruct (run_settles (s :: settles) st3)
      as (Hd & Ho & Ha & Hl' & Hb' & Hrev & Hp').
    { done. } { by rewrite H3p. }
    rewrite Hd, Ho, Ha, Hl', Hb', Hp', H3d, H3o, H3a. 
    destruct ds; [|by split_and!].
    apply Permutation_nil_r in Hperm. done.
Qed.

Lemma story_entry (st : State) (text : string) (data : Narrative)
  (settles : list (ImageRequest * ImageOutcome)) (i : nat)
  (d : Descriptor) (r : ImageOutcome) :
  idle st →
  Js.trim text ≠ "" →
  let ds := default [] (characters data) in
  settles.*1 ≡ₚ requestsOf st (length ds) →
  ds !! i = Some d →
  (requestOf st i, r) ∈ settles →
  let st' := state (run (storyEvents text (NarrativeOk data) settles)) st in
  currentDeck st' !! i = Some (length (objects st) + i)%nat
  ∧ deref st' (length (objects st) + i)%nat = settled r (characterOf d).
Proof.
  intros Hidle Htext ds Hperm Hd Hin st'.
  destruct (story_run st text (NarrativeOk data) data settles Hidle Htext
              eq_refl Hperm)
    as (Hdeck & Hobj & _).
  fold st' in Hdeck, Hobj. fold ds in Hdeck, Hobj.
  pose proof (lookup_lt_Some _ _ _ Hd) as Hi.
  assert (seq (length (objects st)) (length ds) !! i
          = Some (length (objects st) + i)%nat) as Hl
    by by apply lookup_seq_lt.
  split; [by rewrite Hdeck|].
  unfold deref. apply list_lookup_total_correct. rewrite Hobj.
  rewrite (settleObjects_lookup _ _ _ (requestOf st i) r
             (length (objects st) + i)%nat); try done.
  - rewrite lookup_app_r by lia.
    replace (length (objects st) + i - length (objects st))%nat with i by lia.
    by rewrite list_lookup_fmap, Hd.
  - apply NoDup_seq.
  - rewrite Hperm, requestsOf_index. apply NoDup_seq.
Qed.

Lemma settles_total (st : State) (n i : nat)
  (settles : list (ImageRequest * ImageOutcome)) :
  settles.*1 ≡ₚ requestsOf st n →
  (i < n)%nat →
  ∃ r, (requestOf st i, r) ∈ settles.
Proof.
  intros Hperm Hi.
  assert (requestOf st i ∈ settles.*1) as Hin.
  { rewrite Hperm. apply list_elem_of_fmap_2, elem_of_seq. lia. }
  apply list_elem_of_fmap in Hin as ([req r] & Heq & Hin).
  simpl in Heq. subst req. by exists r.
Qed.

(** C2: whatever the order in which the image requests of a batch settle,
    once all have settled the deck has one entry per descriptor of the
    narrative response, and the entry at index [i] is the object created
    for the [i]-th descriptor, with its fact, name and image prompt. *)
Theorem deck_order (st : State) (text story : string)
  (ds : list Descriptor) (settles : list (ImageRequest * ImageOutcome)) :
  idle st →
  Js.trim text ≠ "" →
  settles.*1 ≡ₚ requestsOf st (length ds) →
  let data := {| story := story; characters := Some ds |} in
  let st' := state (run (storyEvents text (NarrativeOk data) settles)) st in
  length (currentDeck st') = length ds
  ∧ ∀ i d, ds !! i = Some d →
      ∃ l, l = (length (objects st) + i)%nat
           ∧ currentDeck st' !! i = Some l
           ∧ fact (deref st' l) = d_fact d
           ∧ characterName (deref st' l) = d_characterName d
           ∧ imagePrompt (deref st' l) = d_imagePrompt d.
Proof.
  intros Hidle Htext Hperm data st'. split.
  - destruct (story_run st text (NarrativeOk data) data settles Hidle Htext
              eq_refl Hperm) as [Hdeck _].
    fold st' in Hdeck. rewrite Hdeck. apply length_seq.
  - intros i d Hd. eexists. split; [done|].
    destruct (settles_total st (length ds) i settles Hperm) as [r Hr].
    { by apply lookup_lt_Some in Hd. }
    destruct (story_entry st text data settles i d r) as [Hl Hc]; try done.
    fold st' in Hl, Hc. rewrite Hc. by destruct r.
Qed.

Lemma deck_order_witness :
  length (currentDeck threeCards) = length threeDescriptors
  ∧ ∀ i d, threeDescriptors !! i = Some d →
      ∃ l, l = (length (objects firstVisit) + i)%nat
           ∧ currentDeck threeCards !! i = Some l
           ∧ fact (deref threeCards l) = d_fact d
           ∧ characterName (deref threeCards l) = d_characterName d
           ∧ imagePrompt (deref threeCards l) = d_imagePrompt d.
Proof.
  apply (deck_order firstVisit "A, B, C" "Once upon a time"
           threeDescriptors reverseOrder).
  - by vm_compute.
  - by vm_compute.
  - apply (bool_decide_unpack _). vm_compute. reflexivity.
Defined.

(** C4: in a story generation whose narrative request succeeds and whose
    image requests all settle, [awardCoins] is called exactly once, with
    [COINS_PER_STORY], whatever the number of characters (none included,
    also when [characters] is missing). *)
Theorem story_award_once (st : State) (text : string) (data : Narrative)
  (settles : list (ImageRequest * ImageOutcome)) :
  idle st →
  Js.trim text ≠ "" →
  settles.*1 ≡ₚ requestsOf st (length (default [] (characters data))) →
  awards (obs (run (storyEvents text (NarrativeOk data) settles)) st)
  = [COINS_PER_STORY].
Proof.
  intros Hidle Htext Hperm.
  by destruct (story_run st text (NarrativeOk data) data settles Hidle Htext
              eq_refl Hperm)
    as (_ & _ & Ha & _).
Qed.

Lemma story_award_once_witness :
  awards (obs (run (storyEvents "A, B, C" (narrativeOf ["A"; "B"; "C"])
                      reverseOrder)) firstVisit)
  = [COINS_PER_STORY].
Proof.
  apply (story_award_once firstVisit "A, B, C"
           {| story := "Once upon a time";
              characters := Some threeDescriptors |} reverseOrder).
  - by vm_compute.
  - by vm_compute.
  - apply (bool_decide_unpack _). vm_compute. reflexivity.
Defined.



(** C5, as stated, fails for a response outside the schema that does not
    make the handler throw: a response that parses to a number, a string,
    a boolean or an array is handled as a story without text and without
    characters, the story award is made and persisted, and no error
    message is shown. *)
Lemma narrative_outside_schema_awarded :
  coins firstVisit = Js.Int 0
  ∧ coins (state (run (storyEvents "Fact A" NarrativeNotObject []))
             firstVisit) = Js.Int 10
  ∧ localStorage (state (run (storyEvents "Fact A" NarrativeNotObject []))
                    firstVisit) !! storageKey = Some "10"
  ∧ awards (obs (run (storyEvents "Fact A" NarrativeNotObject []))
              firstVisit) = [COINS_PER_STORY]
  ∧ storyOutput (state (run (storyEvents "Fact A" NarrativeNotObject []))
                   firstVisit) = StoryText "".
Proof. vm_compute. by repeat split. Qed.

(** C5, amended: for every non-empty facts input, when the [try] block
    of the narrative stage throws (the request is rejected, the response
    is not JSON, it parses to [null], its [characters] has a positive
    length but is no array, or its [characters] array has a [null]
    element), the balance in memory, on display and in the durable store
    is the one before the submission and [awardCoins] is not called, also
    once the image requests issued before the throw have settled; the
    gallery is empty, its title and the review button are hidden, the
    story area shows the one generic error message, the loading flag is
    cleared and the submit button is enabled.  The deck holds the
    characters for which an image was requested before the throw. *)
Theorem narrative_failure (st : State) (text : string)
  (cause : NarrativeFailure)
  (settles : list (ImageRequest * ImageOutcome)) :
  idle st →
  Js.trim text ≠ "" →
  let es := storyEvents text (NarrativeFailed cause) settles in
  let st' := state (run es) st in
  coins st' = coins st
  ∧ coinCount st' = coinCount st
  ∧ localStorage st' = localStorage st
  ∧ awards (obs (run es) st) = []
  ∧ ConsoleErrorThrown cause ∈ obs (run es) st
  ∧ storyOutput st' = StoryText storyErrorMessage
  ∧ characterGallery st' = []
  ∧ galleryTitle_hidden st' = true
  ∧ startReviewButton_hidden st' = true
  ∧ isLoading st' = false
  ∧ generateButton_disabled st' = false
  ∧ currentDeck st' = seq (length (objects st)) (length (reached cause)).
Proof.
  intros (Hm & Hb & Hl & Hn & Hp) Htext es st'.
  subst es st'. unfold storyEvents.
  rewrite !state_run_cons, !obs_run_cons.
  pose proof (dispatch_InputFacts st text Hm) as [H1s H1o].
  rewrite H1s, H1o. clear H1s H1o.
  set (st1 := set_factsInput_value text st).
  pose proof (dispatch_ClickGenerate st1 Hm Hb Hl Htext) as [H2s H2o].
  rewrite H2s, H2o. clear H2s H2o.
  match goal with |- context [state (dispatch (NarrativeSettled _)) ?s] =>
    set (st2 := s) end.
  destruct (exec_ext _ _ _
              (dispatch_NarrativeSettled st2 (NarrativeFailed cause)
                 eq_refl)) as [H3s H3o].
  rewrite H3s, H3o. clear H3s H3o. autorewrite with handler.
  set (st3 := set_pendingNarrative false st2).
  destruct (resume_failed_frame (NarrativeFailed cause) cause st3 eq_refl)
    as (Hv & Hmv & _ & _ & Hls & _ & _ & Hpi & Hreqs & Ho).
  pose proof (thrown_deck cause st3 eq_refl) as Hdeck.
  set (st4 := state (generateStoryAndImages_resume _) st3) in *.
  destruct (orphans_settled settles st4)
    as (Hv' & Hmv' & _ & _ & _ & Hls' & _ & _ & Ha).
  { by rewrite Hpi. }
  set (st5 := state (run (imageEvents settles)) st4) in *.
  assert (∀ {A} (f : Vars → A), f st5 = f (vars st4)) as Hvars
    by (intros A f; by rewrite Hv').
  assert (∀ {A} (f : MainView → A), f st5 = f (mainView st4)) as Hmain
    by (intros A f; by rewrite Hmv').
  rewrite (Hvars _ coins), (Hvars _ isLoading), (Hvars _ currentDeck),
    (Hmain _ coinCount), (Hmain _ storyOutput),
    (Hmain _ characterGallery), (Hmain _ galleryTitle_hidden),
    (Hmain _ startReviewButton_hidden),
    (Hmain _ generateButton_disabled), Hls', Hls, Hv, Hmv, Ho.
  rewrite !awards_app, Ha, (awards_imageRequests _ Hreqs).
  split_and!; try done.
  rewrite !elem_of_app, !list_elem_of_singleton. tauto.
Qed.

Lemma narrative_failure_witness :
  let cause := NullCharacter "Once upon a time" [descriptorOf "A"] in
  let settles := [(requestOf firstVisit 0, ImageOk "QQ==")] in
  let es := storyEvents "Fact A" (NarrativeFailed cause) settles in
  let st' := state (run es) firstVisit in
  coins st' = coins firstVisit
  ∧ coinCount st' = coinCount firstVisit
  ∧ localStorage st' = localStorage firstVisit
  ∧ awards (obs (run es) firstVisit) = []
  ∧ ConsoleErrorThrown cause ∈ obs (run es) firstVisit
  ∧ storyOutput st' = StoryText storyErrorMessage
  ∧ characterGallery st' = []
  ∧ galleryTitle_hidden st' = true
  ∧ startReviewButton_hidden st' = true
  ∧ isLoading st' = false
  ∧ generateButton_disabled st' = false
  ∧ currentDeck st'
    = seq (length (objects firstVisit)) (length (reached cause)).
Proof.
  apply (narrative_failure firstVisit "Fact A"
           (NullCharacter "Once upon a time" [descriptorOf "A"])
           [(requestOf firstVisit 0, ImageOk "QQ==")]);
    by vm_compute.
Defined.

(** ** The quiz session *)

Lemma set_randomPos_id (st : State) : set_randomPos (randomPos st) st = st.
Proof. by destruct st as [? ? ? ? []]. Qed.

Lemma shuffleFrom_exec {A} (i : nat) (a : list A) (st : State) :
  state (shuffleFrom i a) st = set_randomPos (i + randomPos st) st
  ∧ obs (shuffleFrom i a) st = [].
Proof.
  revert a st. induction i as [|i IH]; intros a st.
  - simpl. by rewrite set_randomPos_id.
  - cbn [shuffleFrom]. rewrite state_bind, obs_bind.
    destruct (IH (Js.swap a (S i) (result (randomIndex (S i + 1)) st))
                (state (randomIndex (S i + 1)) st)) as [-> ->].
    unfold randomIndex. handler_eval. split; [|done].
    unfold set_randomPos, upd_browser. simpl. do 3 f_equal. lia.
Qed.

Lemma generateMultipleChoice_exec (correctAnswer : string) (st : State) :
  ∃ n, state (generateMultipleChoice correctAnswer) st = set_randomPos n st
       ∧ obs (generateMultipleChoice correctAnswer) st = [].
Proof.
  unfold generateMultipleChoice, shuffle.
  autorewrite with handler.
  match goal with |- context [state (shuffleFrom ?i ?a) st] =>
    destruct (shuffleFrom_exec i a st) as [-> ->] end.
  match goal with |- context [state (shuffleFrom ?i ?a) ?s] =>
    destruct (shuffleFrom_exec i a s) as [-> ->] end.
  eexists. split; [|done]. reflexivity.
Qed.

Lemma displayQuestion_beside (st : State) :
  besideQuestion (state displayQuestion st) = besideQuestion st
  ∧ awards (obs displayQuestion st) = []
  ∧ (∀ l, currentDeck st !! currentQuestionIndex st = Some l →
     quizAnswers (state displayQuestion st)
     = answerButton (fact (deref st l))
         <$> result (generateMultipleChoice (fact (deref st l)))
               (set_quizQuestionText
                  ("This character, " +:+ characterName (deref st l)
                     +:+ ", reminds you of...")
                  (set_quizCharacterImage_alt
                     ("Image of " +:+ characterName (deref st l))
                     (set_quizCharacterImage_src
                        (default "" (imageUrl (deref st l)))
                        (set_quizProgress
                           ("Question "
                              +:+ natToString (currentQuestionIndex st + 1)
                              +:+ " of "
                              +:+ natToString (length (currentDeck st)))
                           st))))).
Proof.
  unfold displayQuestion. autorewrite with handler.
  destruct (currentDeck st !! currentQuestionIndex st) as [l|] eqn:Hl.
  - autorewrite with handler.
    match goal with |- context [state (generateMultipleChoice ?c) ?s] =>
      destruct (generateMultipleChoice_exec c s) as (n & -> & ->) end.
    split_and!; try done. by intros ? [= <-].
  - by autorewrite with handler.
Qed.

(** Every answer button of a question is enabled, and its click handler
    calls [handleAnswer] with the button's own text and the fact of the
    character shown. *)
Lemma displayQuestion_onclick (st : State) (l : loc) (b : AnswerButton) :
  currentDeck st !! currentQuestionIndex st = Some l →
  b ∈ quizAnswers (state displayQuestion st) →
  onclick b = (textContent b, fact (deref st l)) ∧ disabled b = false.
Proof.
  intros Hl Hb. destruct (displayQuestion_beside st) as (_ & _ & Hq).
  rewrite (Hq l Hl) in Hb.
  apply list_elem_of_fmap in Hb as (option & -> & _). done.
Qed.

Lemma besideQuestion_inv (st st' : State) :
  besideQuestion st' = besideQuestion st →
  vars st' = vars st
  ∧ mainView st' = mainView st
  ∧ summaryView st' = summaryView st
  ∧ quizContainer_hidden st' = quizContainer_hidden st
  ∧ timers st' = timers st
  ∧ pendingNarrative st' = pendingNarrative st
  ∧ pendingImages st' = pendingImages st.
Proof. by intros [= ? ? ? ? ? ? ?]. Qed.

Ltac inv_cases H := destruct H as (J1 & J2 & J3 & J4 & J5 & J6).

Lemma state_dispatch (e : Event) (st : State) :
  state (dispatch e) st
  = state
      match e with
      | ClickGenerate =>
          if mainContainer_hidden st || generateButton_disabled st
          then mret () else generateStoryAndImages
      | ClickStartReview =>
          if mainContainer_hidden st || startReviewButton_hidden st
          then mret () else startQuiz
      | ClickAnswer k =>
          if quizContainer_hidden st then mret () else
          match quizAnswers st !! k with
          | Some b =>
              if disabled b then mret ()
              else handleAnswer (onclick b).1 (onclick b).2
          | None => mret ()
          end
      | ClickReset =>
          if quizSummary_hidden st then mret () else resetApp
      | InputFacts text =>
          if mainContainer_hidden st then mret ()
          else modify (set_factsInput_value text)
      | NarrativeSettled r =>
          if pendingNarrative st
          then modify (set_pendingNarrative false) ;;
               generateStoryAndImages_resume r
          else mret ()
      | ImageSettled req r =>
          if decide (req ∈ pendingImages st)
          then modify (set_pendingImages (removeOne req (pendingImages st))) ;;
               generateImage_resume req r ;;
               read st';
               match pendingImages st' with
               | [] => generateStoryAndImages_complete
               | _ :: _ => mret ()
               end
          else settleOrphan req r
      | TimerFired t =>
          if decide (t ∈ timers st)
          then modify (set_timers (removeOne t (timers st))) ;;
               timerCallback t
          else mret ()
      end st.
Proof. unfold dispatch. by rewrite state_bind. Qed.

Lemma not_generating (st : State) :
  invariant st → isLoading st = false →
  pendingNarrative st = false ∧ pendingImages st = [].
Proof.
  intros Hinv Hl. inv_cases Hinv. unfold generating in *.
  destruct (pendingNarrative st); [intuition congruence|].
  destruct (pendingImages st); [done|]. intuition congruence.
Qed.

Lemma invariant_ClickGenerate (st : State) :
  invariant st → invariant (state (dispatch ClickGenerate) st).
Proof.
  intros Hinv. rewrite state_dispatch.
  destruct (mainContainer_hidden st || generateButton_disabled st) eqn:Hg;
    [done|].
  apply orb_false_elim in Hg as [Hm Hb].
  unfold generateStoryAndImages. rewrite state_bind, state_get, result_get.
  destruct (isLoading st) eqn:Hl; [done|].
  destruct (Js.truthy (Js.trim (factsInput_value st))) eqn:Hf; [|done].
  cbn [negb].
  destruct (not_generating st Hinv Hl) as [Hn Hp].
  inv_cases Hinv. unfold invariant, generating in *. handler_eval.
  rewrite Hm in *. intuition congruence.
Qed.

Lemma invariant_InputFacts (text : string) (st : State) :
  invariant st → invariant (state (dispatch (InputFacts text)) st).
Proof.
  intros Hinv. rewrite state_dispatch.
  by destruct (mainContainer_hidden st).
Qed.

Lemma invariant_ClickReset (st : State) :
  invariant st → invariant (state (dispatch ClickReset) st).
Proof.
  intros Hinv. rewrite state_dispatch.
  destruct (quizSummary_hidden st) eqn:Hs; [done|].
  inv_cases Hinv. unfold invariant, generating in *. handler_eval.
  unfold resetApp. handler_eval.
  destruct (J4 Hs) as (Hm & Hq & Ht & _).
  destruct (J1 Hm) as [_ Hg].
  intuition congruence.
Qed.

Lemma invariant_displayQuestion (st : State) :
  invariant st → AdvanceQuestion ∉ timers st →
  invariant (state displayQuestion st).
Proof.
  intros Hinv Ht.
  destruct (displayQuestion_beside st) as [Hb _].
  apply besideQuestion_inv in Hb as (Hv & Hm & Hs & Hq & Htm & Hn & Hp).
  inv_cases Hinv. unfold invariant, generating in *.
  rewrite Hv, Hm, Hs, Hq, Htm, Hn, Hp. intuition congruence.
Qed.

Lemma invariant_ClickStartReview (st : State) :
  invariant st → invariant (state (dispatch ClickStartReview) st).
Proof.
  intros Hinv. rewrite state_dispatch.
  destruct (mainContainer_hidden st || startReviewButton_hidden st) eqn:Hg;
    [done|].
  apply orb_false_elim in Hg as [Hm Hb].
  unfold startQuiz. rewrite state_bind, state_get, result_get.
  case_decide; [done|].
  autorewrite with handler.
  apply invariant_displayQuestion.
  - inv_cases Hinv. unfold invariant, generating in *. simpl.
    rewrite Hm, Hb in *. intuition congruence.
  - simpl. inv_cases Hinv. rewrite Hm in J6. intuition congruence.
Qed.

Lemma removeOne_other {A} `{EqDecision A} (x y : A) (l : list A) :
  x ≠ y → y ∈ removeOne x l ↔ y ∈ l.
Proof.
  intros Hne. induction l as [|z l IH]; [done|].
  simpl. case_decide as Hxz.
  - subst z. rewrite elem_of_cons. intuition congruence.
  - rewrite !elem_of_cons, IH. done.
Qed.

Lemma removeOne_app_absent {A} `{EqDecision A} (x : A) (l : list A) :
  x ∉ l → removeOne x (l ++ [x]) = l.
Proof.
  induction l as [|z l IH]; intros Hx.
  - simpl. by rewrite decide_True.
  - apply not_elem_of_cons in Hx as [Hne Hx]. simpl.
    rewrite decide_False by done. by rewrite IH.
Qed.

Lemma markButton_disabled (selected correct : string)
  (bs : list AnswerButton) (b : AnswerButton) :
  b ∈ markButton selected correct <$> bs → disabled b = true.
Proof. by intros (b' & -> & _)%list_elem_of_fmap. Qed.

Lemma invariant_ClickAnswer (k : nat) (st : State) :
  invariant st → invariant (state (dispatch (ClickAnswer k)) st).
Proof.
  intros Hinv. rewrite state_dispatch.
  destruct (quizContainer_hidden st) eqn:Hq; [done|].
  destruct (quizAnswers st !! k) as [b|] eqn:Hb; [|done].
  destruct (disabled b) eqn:Hd; [done|].
  inv_cases Hinv.
  assert (AdvanceQuestion ∉ timers st) as Ht.
  { intros Hin. destruct (J6 Hin) as (_ & _ & Hall).
    apply list_elem_of_lookup_2 in Hb. specialize (Hall b Hb). congruence. }
  pose proof (J5 Hq) as Hm. destruct (J1 Hm) as [He Hg].
  assert (quizSummary_hidden st = true) as Hs.
  { destruct (quizSummary_hidden st) eqn:Hs; [done|].
    destruct (J4 eq_refl) as (_ & Hq' & _). congruence. }
  assert (AdvanceQuestion ∉ timers st ++ [RemoveAwarded]) as Ht'.
  { rewrite elem_of_app, list_elem_of_singleton. intuition congruence. }
  unfold invariant, generating in *. unfold handleAnswer. handler_eval.
  case_decide; handler_eval; rewrite ?Hm, ?Hq, ?Hs;
    rewrite removeOne_app_absent by done;
    (split_and!; [|done..|]);
    [ intros _; split; [|done];
      unfold COINS_PER_CORRECT_ANSWER in *; lia
    | intros _; split_and!; [done..|apply markButton_disabled]
    | done
    | intros _; split_and!; [done..|apply markButton_disabled] ].
Qed.

Lemma removeOne_comm {A} `{EqDecision A} (x y : A) (l : list A) :
  removeOne x (removeOne y l) = removeOne y (removeOne x l).
Proof.
  induction l as [|z l IH]; [done|]. simpl.
  destruct (decide (y = z)) as [->|Hy], (decide (x = z)) as [->|Hx];
    simpl; rewrite ?decide_True, ?decide_False by done; try done.
  by rewrite IH.
Qed.

Lemma invariant_showSummary (st : State) :
  invariant st → mainContainer_hidden st = true →
  AdvanceQuestion ∉ timers st →
  invariant (state showSummary st).
Proof.
  intros Hinv Hm Ht. inv_cases Hinv.
  unfold invariant, generating in *. unfold showSummary. handler_eval.
  rewrite Hm in *. unfold summaryText. intuition congruence.
Qed.

Lemma invariant_TimerFired (t : Timer) (st : State) :
  invariant st → invariant (state (dispatch (TimerFired t)) st).
Proof.
  intros Hinv. rewrite state_dispatch.
  case_decide as Hin; [|done].
  rewrite state_bind, state_modify. destruct t; cbn [timerCallback].
  - inv_cases Hinv. unfold invariant, generating in *.
    unfold removeAwarded. handler_eval.
    rewrite removeOne_comm, !removeOne_other by done.
    intuition congruence.
  - destruct Hinv as (J1 & J2 & J3 & J4 & J5 & J6).
    destruct (J6 Hin) as (Hm & Hone & Hall).
    assert (quizSummary_hidden st = true) as Hs.
    { destruct (quizSummary_hidden st) eqn:Hs; [done|].
      destruct (J4 eq_refl) as (_ & _ & Ht & _). done. }
    unfold advanceQuestion. autorewrite with handler.
    match goal with |- invariant (state _ ?s) =>
      assert (invariant s) as Hinv';
      [|assert (AdvanceQuestion ∉ timers s) as Ht' by done;
        assert (mainContainer_hidden s = true) as Hm' by done]
    end.
    { unfold invariant, generating in *. simpl.
      rewrite Hm, Hs in *. intuition congruence. }
    simpl. case_decide.
    + by apply invariant_displayQuestion.
    + by apply invariant_showSummary.
Qed.

Lemma fanOut_loading (chars : list loc) (index : nat) (st : State) :
  isLoading (state (fanOut chars index) st)
  = match chars with [] => isLoading st | _ :: _ => true end.
Proof.
  revert index st. induction chars as [|c chars IH]; intros index st; [done|].
  cbn [fanOut]. rewrite !state_bind, IH. by destruct chars.
Qed.

Lemma resume_parsed_control (st : State) (r : NarrativeOutcome)
  (data : Narrative) :
  parsedData r = inr data →
  let st' := state (generateStoryAndImages_resume r) st in
  mainContainer_hidden st' = mainContainer_hidden st
  ∧ startReviewButton_hidden st' = startReviewButton_hidden st
  ∧ quizView st' = quizView st
  ∧ summaryView st' = summaryView st
  ∧ pendingNarrative st' = pendingNarrative st
  ∧ score st' = score st
  ∧ match default [] (characters data) with
    | [] =>
        isLoading st' = false
        ∧ pendingImages st' = pendingImages st
        ∧ timers st' = timers st ++ [RemoveAwarded]
    | _ :: _ =>
        isLoading st' = true
        ∧ pendingImages st' ≠ []
        ∧ timers st' = timers st
        ∧ coinsEarnedThisSession st' = coinsEarnedThisSession st
    end.
Proof.
  intros Hr. unfold generateStoryAndImages_resume. rewrite Hr.
  autorewrite with handler.
  destruct (default [] (characters data)) as [|d ds] eqn:Hds.
  - cbn [length seq]. by handler_eval.
  - remember (seq (length (objects st)) (length (d :: ds))) as chars
      eqn:Hchars.
    destruct chars as [|c cs]; [done|].
    autorewrite with handler.
    match goal with |- context [state (fanOut ?cs ?i) ?s] =>
      destruct (fanOut_spec cs i s) as (_ & _ & Hpi & _ & _ & Hb);
      pose proof (fanOut_loading cs i s) as Hl
    end.
    apply besideImages_inv in Hb
      as (-> & -> & -> & -> & -> & -> & _ & _ & -> & -> & _).
    rewrite Hl, Hpi. split_and!; try done.
    by intros [_ Heq]%app_eq_nil.
Qed.

Lemma invariant_NarrativeSettled (r : NarrativeOutcome) (st : State) :
  invariant st → invariant (state (dispatch (NarrativeSettled r)) st).
Proof.
  intros Hinv. rewrite state_dispatch.
  destruct (pendingNarrative st) eqn:Hn; [|done].
  rewrite state_bind, state_modify.
  inv_cases Hinv.
  destruct J2 as [Hb Hl]; [by left|].
  pose proof (J3 Hn) as Hp.
  assert (mainContainer_hidden st = false) as Hm.
  { destruct (mainContainer_hidden st) eqn:Hm; [|done].
    destruct (J1 eq_refl) as [_ []]. by left. }
  destruct (parsedData r) as [cause|data] eqn:Hr.
  2:{ destruct (resume_parsed_control (set_pendingNarrative false st) r data Hr)
      as (H1 & H2 & H3 & H4 & H5 & H6 & H7).
    unfold invariant, generating in *.
    rewrite H1, H2, H3, H4, H5. simpl.
    destruct (default [] (characters data)).
    + destruct H7 as (-> & -> & ->). simpl.
      rewrite Hm in *. rewrite Hp.
      rewrite elem_of_app, list_elem_of_singleton.
      intuition congruence.
    + destruct H7 as (-> & Hne & -> & _). simpl.
      rewrite Hm in *. intuition congruence. }
  unfold invariant, generating in *.
  failed_path r cause (set_pendingNarrative false st) Hr. simpl.
  rewrite Hm in *. intuition congruence.
Qed.

Lemma invariant_ImageSettled (req : ImageRequest) (r : ImageOutcome)
  (st : State) :
  invariant st → invariant (state (dispatch (ImageSettled req r)) st).
Proof.
  intros Hinv.
  destruct (decide (req ∈ pendingImages st)) as [Hin|Hin].
  2:{ destruct (orphan_settled_frame st req r Hin)
        as (H1 & H2 & H3 & H4 & H5 & _ & H7 & H8 & _).
      unfold invariant, generating in *.
      by rewrite H1, H2, H3, H4, H5, H7, H8. }
  destruct (image_settled_spec st req r Hin) as [-> _].
  inv_cases Hinv.
  assert (pendingImages st ≠ []) as Hne.
  { intros Hnil. rewrite Hnil in Hin. by apply elem_of_nil in Hin. }
  destruct J2 as [Hb Hl]; [by right|].
  assert (pendingNarrative st = false) as Hn.
  { destruct (pendingNarrative st) eqn:Hn; [|done].
    by destruct (Hne (J3 eq_refl)). }
  assert (mainContainer_hidden st = false) as Hm.
  { destruct (mainContainer_hidden st) eqn:Hm; [|done].
    destruct (J1 eq_refl) as [_ []]. by right. }
  set (st0 := set_pendingImages (removeOne req (pendingImages st)) st).
  destruct (generateImage_resume_spec req r st0)
    as (_ & Hpend & _ & _ & Hload & _ & Hbeside).
  apply besideImages_inv in Hbeside
    as (H1 & H2 & H3 & H4 & H5 & H6 & _ & _ & H9 & H10 & _).
  set (st1 := state (generateImage_resume req r) st0) in *.
  clearbody st1. subst st0. simpl in *.
  destruct (pendingImages st1) as [|p ps] eqn:Hps.
  - unfold invariant, generating in *. handler_eval.
    rewrite H1, H3, H4, H5, H6, H9, H10, Hps, Hm, Hn in *.
    rewrite elem_of_app, list_elem_of_singleton.
    intuition congruence.
  - unfold invariant, generating in *.
    rewrite H1, H2, H3, H4, H5, H6, H9, H10, Hload, Hps, Hm, Hn in *.
    intuition congruence.
Qed.

Lemma invariant_dispatch (e : Event) (st : State) :
  invariant st → invariant (state (dispatch e) st).
Proof.
  destruct e;
    eauto using invariant_ClickGenerate, invariant_ClickStartReview,
      invariant_ClickAnswer, invariant_ClickReset, invariant_InputFacts,
      invariant_NarrativeSettled, invariant_ImageSettled,
      invariant_TimerFired.
Qed.

Lemma invariant_run (es : list Event) (st : State) :
  invariant st → invariant (state (run es) st).
Proof.
  revert st. induction es as [|e es IH]; intros st Hinv; [done|].
  rewrite state_run_cons. by apply IH, invariant_dispatch.
Qed.

Lemma invariant_startup (main : MainView) (quiz : QuizView)
  (summary : SummaryView) (storage : gmap string string)
  (random : nat → nat) :
  quizContainer_hidden quiz = true →
  quizSummary_hidden summary = true →
  invariant (state startup (pageLoad main quiz summary storage random)).
Proof.
  intros Hq Hs. unfold invariant, generating, startup, loadGameData.
  handler_eval. rewrite Hq, Hs.
  split_and!; try done; try (intros []; done).
  - intros _. split; [done|]. by intros [|].
  - by intros ?%elem_of_nil.
Qed.

(** C10: at every moment of a visit, while the authoring view is hidden
    (that is, from [startQuiz] until [resetApp]),
    [coinsEarnedThisSession] is [COINS_PER_CORRECT_ANSWER] times [score];
    and while the summary is shown, the line it shows for the session
    reward is the one for [COINS_PER_CORRECT_ANSWER] times the final
    [score].  The page starts with the quiz and summary views hidden. *)
Theorem session_reward (main : MainView) (quiz : QuizView)
  (summary : SummaryView) (storage : gmap string string)
  (random : nat → nat) (es : list Event) :
  quizContainer_hidden quiz = true →
  quizSummary_hidden summary = true →
  let st := state (run es)
              (state startup (pageLoad main quiz summary storage random)) in
  (mainContainer_hidden st = true →
   coinsEarnedThisSession st
   = COINS_PER_CORRECT_ANSWER * Z.of_nat (score st))
  ∧ (quizSummary_hidden st = false →
     summaryCoins st
     = summaryText (COINS_PER_CORRECT_ANSWER * Z.of_nat (score st))).
Proof.
  intros Hq Hs st.
  assert (invariant st) as (J1 & _ & _ & J4 & _).
  { apply invariant_run. by apply invariant_startup. }
  split; [by intros [? _]%J1|].
  intros (Hm & _ & _ & ->)%J4. by destruct (J1 Hm) as [-> _].
Qed.

Lemma session_reward_witness :
  let st := state (run reviewEvents) firstVisit in
  (mainContainer_hidden st = true →
   coinsEarnedThisSession st
   = COINS_PER_CORRECT_ANSWER * Z.of_nat (score st))
  ∧ (quizSummary_hidden st = false →
     summaryCoins st
     = summaryText (COINS_PER_CORRECT_ANSWER * Z.of_nat (score st))).
Proof.
  apply (session_reward authoringView hiddenQuiz hiddenSummary ∅ id
           reviewEvents); reflexivity.
Defined.

(** The visit of [reviewEvents] ends on the summary, with two correct
    answers out of three. *)
Example review_summary :
  let st := state (run reviewEvents) firstVisit in
  mainContainer_hidden st = true
  ∧ quizSummary_hidden st = false
  ∧ score st = 2%nat
  ∧ coinsEarnedThisSession st = 10
  ∧ summaryScore st = "You scored 2 out of 3!"
  ∧ summaryCoins st = "You earned 10 (coin) for this review.".
Proof. vm_compute. by repeat split. Qed.

(** ** Submitting facts *)

Lemma fanOut_submitGuarded (chars : list loc) (index : nat) (st : State) :
  submitGuarded st → submitGuarded (state (fanOut chars index) st).
Proof.
  revert index st. induction chars as [|c chars IH]; intros index st Hg;
    [done|].
  cbn [fanOut]. rewrite !state_bind. by apply IH.
Qed.

Lemma submitGuarded_dispatch (e : Event) (st : State) :
  submitGuarded st → submitGuarded (state (dispatch e) st).
Proof.
  intros Hg. rewrite state_dispatch. destruct e.
  - destruct (_ || _); [done|].
    unfold generateStoryAndImages. rewrite state_bind, state_get, result_get.
    destruct (isLoading st); [done|]. by destruct (negb _).
  - destruct (_ || _); [done|].
    unfold startQuiz. rewrite state_bind, state_get, result_get.
    case_decide; [done|]. autorewrite with handler.
    match goal with |- submitGuarded (state displayQuestion ?s) =>
      destruct (displayQuestion_beside s) as [Hb _] end.
    apply besideQuestion_inv in Hb as (Hv & Hm & _).
    unfold submitGuarded in *. by rewrite Hv, Hm.
  - destruct (quizContainer_hidden st); [done|].
    destruct (quizAnswers st !! k) as [b|]; [|done].
    destruct (disabled b); [done|].
    unfold handleAnswer. handler_eval. by case_decide.
  - by destruct (quizSummary_hidden st).
  - by destruct (mainContainer_hidden st).
  - destruct (pendingNarrative st); [|done].
    rewrite state_bind, state_modify.
    destruct (parsedData r) as [cause|data] eqn:Hr.
    { unfold submitGuarded.
      by failed_path r cause (set_pendingNarrative false st) Hr. }
    unfold generateStoryAndImages_resume. rewrite Hr.
    autorewrite with handler.
    destruct (seq _ _); [done|].
    autorewrite with handler. by apply fanOut_submitGuarded.
  - case_decide as Hin.
    2:{ unfold submitGuarded in *. by orphan_path req r st. }
    autorewrite with handler.
    set (st0 := set_pendingImages (removeOne req (pendingImages st)) st).
    destruct (generateImage_resume_spec req r st0)
      as (_ & _ & _ & _ & Hl & Hb & _).
    set (st1 := state (generateImage_resume req r) st0) in *.
    destruct (pendingImages st1); autorewrite with handler.
    + by handler_eval.
    + unfold submitGuarded in *. by rewrite Hl, Hb.
  - case_decide; [|done]. rewrite state_bind, state_modify.
    destruct t; cbn [timerCallback]; [done|].
    unfold advanceQuestion. autorewrite with handler. case_decide.
    + match goal with |- submitGuarded (state displayQuestion ?s) =>
        destruct (displayQuestion_beside s) as [Hb _] end.
      apply besideQuestion_inv in Hb as (Hv & Hm & _).
      unfold submitGuarded in *. by rewrite Hv, Hm.
    + done.
Qed.

Lemma submitGuarded_run (es : list Event) (st : State) :
  submitGuarded st → submitGuarded (state (run es) st).
Proof.
  revert st. induction es as [|e es IH]; intros st Hg; [done|].
  rewrite state_run_cons. by apply IH, submitGuarded_dispatch.
Qed.

(** With no request running, the handler returns after the alert. *)
Lemma generateStoryAndImages_empty (st : State) :
  isLoading st = false →
  Js.trim (factsInput_value st) = "" →
  exec generateStoryAndImages st = (st, [Alert emptyFactsMessage]).
Proof.
  intros Hload Hfacts. unfold generateStoryAndImages. unfold_handler.
  simpl. by rewrite Hload, Hfacts.
Qed.

(** C7: at every moment of a visit at which the submit button can be
    clicked, a click with a facts input that is empty after trimming only
    shows the validation message: no request is made, and the state, with
    the deck, the balance, the durable store and the loading flag, is the
    one before. *)
Theorem empty_facts_rejected (main : MainView) (quiz : QuizView)
  (summary : SummaryView) (storage : gmap string string)
  (random : nat → nat) (es : list Event) :
  let st := state (run es)
              (state startup (pageLoad main quiz summary storage random)) in
  mainContainer_hidden st = false →
  generateButton_disabled st = false →
  Js.trim (factsInput_value st) = "" →
  exec (dispatch ClickGenerate) st = (st, [Alert emptyFactsMessage]).
Proof.
  intros st Hm Hb Hf.
  assert (submitGuarded st) as Hg by by apply submitGuarded_run.
  unfold submitGuarded in Hg. rewrite Hb in Hg.
  unfold exec. unfold dispatch. rewrite state_bind, obs_bind.
  rewrite state_get, result_get, obs_get, Hm, Hb. simpl.
  by apply generateStoryAndImages_empty.
Qed.

Lemma empty_facts_rejected_witness :
  exec (dispatch ClickGenerate) blankFacts
  = (blankFacts, [Alert emptyFactsMessage]).
Proof.
  apply (empty_facts_rejected authoringView hiddenQuiz hiddenSummary ∅ id
           [InputFacts (String "009" "  ")]); reflexivity.
Defined.
(** ** The balance over a visit *)

Lemma obs_dispatch (e : Event) (st : State) :
  obs (dispatch e) st
  = obs
      match e with
      | ClickGenerate =>
          if mainContainer_hidden st || generateButton_disabled st
          then mret () else generateStoryAndImages
      | ClickStartReview =>
          if mainContainer_hidden st || startReviewButton_hidden st
          then mret () else startQuiz
      | ClickAnswer k =>
          if quizContainer_hidden st then mret () else
          match quizAnswers st !! k with
          | Some b =>
              if disabled b then mret ()
              else handleAnswer (onclick b).1 (onclick b).2
          | None => mret ()
          end
      | ClickReset =>
          if quizSummary_hidden st then mret () else resetApp
      | InputFacts text =>
          if mainContainer_hidden st then mret ()
          else modify (set_factsInput_value text)
      | NarrativeSettled r =>
          if pendingNarrative st
          then modify (set_pendingNarrative false) ;;
               generateStoryAndImages_resume r
          else mret ()
      | ImageSettled req r =>
          if decide (req ∈ pendingImages st)
          then modify (set_pendingImages (removeOne req (pendingImages st))) ;;
               generateImage_resume req r ;;
               read st';
               match pendingImages st' with
               | [] => generateStoryAndImages_complete
               | _ :: _ => mret ()
               end
          else settleOrphan req r
      | TimerFired t =>
          if decide (t ∈ timers st)
          then modify (set_timers (removeOne t (timers st))) ;;
               timerCallback t
          else mret ()
      end st.
Proof. unfold dispatch. by rewrite obs_bind. Qed.

Lemma fanOut_ledger (chars : list loc) (index : nat) (st : State) :
  ledger (state (fanOut chars index) st) = ledger st.
Proof.
  revert index st. induction chars as [|c chars IH]; intros index st; [done|].
  cbn [fanOut]. rewrite !state_bind. by rewrite IH.
Qed.

Lemma displayQuestion_ledger (st : State) :
  ledger (state displayQuestion st) = ledger st
  ∧ awards (obs displayQuestion st) = [].
Proof.
  destruct (displayQuestion_beside st) as (Hb & Ha & _).
  split; [|done]. unfold ledger.
  injection Hb as Hv Hm _ _ _ _ _ _ Hs. by rewrite Hv, Hm, Hs.
Qed.

Lemma dispatch_ledgerStep (e : Event) (st : State) :
  ledgerStep st (awards (obs (dispatch e) st)) (state (dispatch e) st).
Proof.
  rewrite state_dispatch, obs_dispatch. unfold ledgerStep. destruct e.
  - destruct (_ || _); [by left|].
    unfold generateStoryAndImages. autorewrite with handler.
    destruct (isLoading st); [by left|].
    destruct (negb _); by left.
  - destruct (_ || _); [by left|].
    unfold startQuiz. autorewrite with handler.
    case_decide; [by left|]. autorewrite with handler.
    match goal with |- context [state displayQuestion ?s] =>
      destruct (displayQuestion_ledger s) as [-> ->] end.
    by left.
  - destruct (quizContainer_hidden st); [by left|].
    destruct (quizAnswers st !! k) as [b|]; [|by left].
    destruct (disabled b); [by left|].
    unfold handleAnswer. autorewrite with handler.
    case_decide.
    + right. exists COINS_PER_CORRECT_ANSWER. handler_eval.
      by split_and!; [|left|..].
    + by left.
  - destruct (quizSummary_hidden st); by left.
  - destruct (mainContainer_hidden st); by left.
  - destruct (pendingNarrative st); [|by left].
    autorewrite with handler.
    destruct (parsedData r) as [cause|data] eqn:Hr.
    { left. unfold ledger.
      by failed_path r cause (set_pendingNarrative false st) Hr. }
    unfold generateStoryAndImages_resume. rewrite Hr.
    autorewrite with handler.
    destruct (seq _ _) as [|c cs].
    + right. exists COINS_PER_STORY. handler_eval.
      by split_and!; [|right|..].
    + autorewrite with handler.
      match goal with |- context [state (fanOut ?cs ?i) ?s] =>
        destruct (fanOut_spec cs i s) as (_ & _ & _ & _ & -> & _);
        rewrite (fanOut_ledger cs i s) end.
      by left.
  - case_decide as Hin.
    2:{ left. unfold ledger.
        by orphan_path req r st. }
    autorewrite with handler.
    set (st0 := set_pendingImages (removeOne req (pendingImages st)) st).
    assert (ledger (state (generateImage_resume req r) st0) = ledger st
            ∧ awards (obs (generateImage_resume req r) st0) = [])
      as [Hl Ha].
    { subst st0. destruct r; handler_eval;
        by destruct (currentDeck st !! index req). }
    set (st1 := state (generateImage_resume req r) st0) in *.
    rewrite Ha. destruct (pendingImages st1); autorewrite with handler.
    + right. exists COINS_PER_STORY. injection Hl as Hc Hn Hs.
      handler_eval. rewrite Hc, Hs. by split_and!; [|right|..].
    + by left.
  - case_decide; [|by left]. autorewrite with handler.
    destruct t; cbn [timerCallback]; [by left|].
    unfold advanceQuestion. autorewrite with handler. case_decide.
    + match goal with |- context [state displayQuestion ?s] =>
        destruct (displayQuestion_ledger s) as [-> ->] end.
      by left.
    + by left.
Qed.

(** The steps of the events of a visit, put together. *)
Lemma run_ledger (es : list Event) (st : State) :
  let st' := state (run es) st in
  let amounts := awards (obs (run es) st) in
  coins st' = credited (coins st) amounts
  ∧ Forall (fun amount => amount = COINS_PER_CORRECT_ANSWER
                          ∨ amount = COINS_PER_STORY) amounts
  ∧ match amounts with
    | [] => ledger st' = ledger st
    | _ :: _ =>
        coinCount st' = Js.toString (coins st')
        ∧ localStorage st'
          = <[storageKey := Js.toString (coins st')]> (localStorage st)
    end.
Proof.
  revert st. induction es as [|e es IH]; intros st; [done|].
  cbn zeta. rewrite state_run_cons, obs_run_cons, awards_app.
  destruct (IH (state (dispatch e) st)) as (Hc & Hf & Hl).
  destruct (dispatch_ledgerStep e st)
    as [[-> Hs]|(a & -> & Ha & Hca & Hn & Hs)].
  - injection Hs as Hc1 Hn1 Hs1. simpl. split_and!; [by rewrite Hc, Hc1|done|].
    revert Hl. destruct (awards _); [|by rewrite Hs1].
    unfold ledger. congruence.
  - cbn [app]. split; [|split].
    + by rewrite Hc, Hca.
    + by constructor.
    + revert Hl. destruct (awards _).
      * intros [= Hc2 Hn2 Hs2]. by rewrite Hc2, Hn2, Hs2.
      * intros [Hn2 Hs2]. split; [done|]. rewrite Hs2, Hs.
        apply insert_insert_eq.
Qed.

Lemma credited_NaN (amounts : list Z) : credited Js.NaN amounts = Js.NaN.
Proof. by induction amounts. Qed.

(** As long as the sums stay within 2^53, the additions are exact. *)
Lemma credited_exact (amounts : list Z) (c : Z) :
  Forall (fun amount => amount = COINS_PER_CORRECT_ANSWER
                        ∨ amount = COINS_PER_STORY) amounts →
  - 2 ^ 53 ≤ c →
  c + total amounts ≤ 2 ^ 53 →
  credited (Js.Int c) amounts = Js.Int (c + total amounts).
Proof.
  intros Hf. revert c. induction Hf as [|a l Ha Hl IH]; intros c Hc Hsum.
  { simpl. f_equal. lia. }
  assert (0 ≤ total l) as Hpos.
  { clear -Hl. induction Hl as [|b l Hb _ IH]; [done|]. simpl.
    unfold COINS_PER_CORRECT_ANSWER, COINS_PER_STORY in Hb. lia. }
  assert (0 ≤ a) as Ha0
    by (unfold COINS_PER_CORRECT_ANSWER, COINS_PER_STORY in Ha; lia).
  simpl in Hsum.
  change (credited (Js.Int c) (a :: l))
    with (credited (Js.toNumber (c + a)) l).
  rewrite toNumber_small by lia. rewrite IH by lia.
  simpl. f_equal. lia.
Qed.

(** X1: at every moment of a visit the coin display shows the text of the
    current balance. *)
Theorem coin_display_in_sync (main : MainView) (quiz : QuizView)
  (summary : SummaryView) (storage : gmap string string)
  (random : nat → nat) (es : list Event) :
  let st := state (run es)
              (state startup (pageLoad main quiz summary storage random)) in
  coinCount st = Js.toString (coins st).
Proof.
  intros st. subst st.
  destruct (run_ledger es
              (state startup (pageLoad main quiz summary storage random)))
    as (_ & _ & Hl).
  revert Hl. destruct (awards _); [|by intros [? _]].
  by intros [= -> -> _].
Qed.

(** X2: the balance is written through.  Over any sequence of events,
    from any state, the durable store is untouched as long as no award is
    made; once an award has been made it is the store at the start with
    the text of the current balance under the storage key, and nothing
    else changed. *)
Theorem ledger_write_through (es : list Event) (st : State) :
  let st' := state (run es) st in
  localStorage st'
  = match awards (obs (run es) st) with
    | [] => localStorage st
    | _ :: _ => <[storageKey := Js.toString (coins st')]> (localStorage st)
    end.
Proof.
  intros st'. subst st'. destruct (run_ledger es st) as (_ & _ & Hl).
  revert Hl. destruct (awards _); [|by intros [_ ?]].
  by intros [= _ _ ->].
Qed.

Lemma total_fixed_amounts (amounts : list Z) :
  Forall (fun amount => amount = COINS_PER_CORRECT_ANSWER
                        ∨ amount = COINS_PER_STORY) amounts →
  0 ≤ total amounts.
Proof.
  induction 1 as [|a l Ha _ IH]; [done|]. simpl.
  unfold COINS_PER_CORRECT_ANSWER, COINS_PER_STORY in Ha. lia.
Qed.

(** X3: the balance only changes by awards.  Over any sequence of events,
    from any state whose balance is an integer of magnitude at most 2^53
    and as long as the balance plus the total of the amounts awarded stays
    within 2^53 (up to there every sum is a double, so that the additions
    are exact), the balance at the end is the balance at the start plus
    the total of the amounts awarded; every award is one of the two fixed
    amounts, so the total is not negative. *)
Theorem ledger_accounting (es : list Event) (st : State) (c : Z) :
  coins st = Js.Int c →
  - 2 ^ 53 ≤ c →
  let amounts := awards (obs (run es) st) in
  c + total amounts ≤ 2 ^ 53 →
  coins (state (run es) st) = Js.Int (c + total amounts)
  ∧ Forall (fun amount => amount = COINS_PER_CORRECT_ANSWER
                          ∨ amount = COINS_PER_STORY) amounts
  ∧ 0 ≤ total amounts.
Proof.
  intros Hc Hlo amounts Hhi. subst amounts.
  destruct (run_ledger es st) as (Hcr & Hf & _).
  split_and!; [|done|by apply total_fixed_amounts].
  rewrite Hcr, Hc. by apply credited_exact.
Qed.

Lemma ledger_accounting_witness :
  let amounts := awards (obs (run reviewEvents) firstVisit) in
  coins (state (run reviewEvents) firstVisit)
  = Js.Int (0 + total amounts)
  ∧ Forall (fun amount => amount = COINS_PER_CORRECT_ANSWER
                          ∨ amount = COINS_PER_STORY) amounts
  ∧ 0 ≤ total amounts.
Proof.
  apply (ledger_accounting reviewEvents firstVisit 0);
    [reflexivity|lia|by vm_compute].
Defined.

(** X4: a stored value that is not empty and does not start with a
    number makes the balance [NaN] for the whole visit: the coin display
    shows [NaN], and the first award writes [NaN] to the durable
    store. *)
Theorem balance_not_a_number (main : MainView) (quiz : QuizView)
  (summary : SummaryView) (storage : gmap string string)
  (random : nat → nat) (es : list Event) (savedCoins : string) :
  storage !! storageKey = Some savedCoins →
  savedCoins ≠ "" →
  Js.parseInt savedCoins = Js.NaN →
  let st0 := state startup (pageLoad main quiz summary storage random) in
  let st := state (run es) st0 in
  coins st = Js.NaN
  ∧ coinCount st = "NaN"
  ∧ localStorage st
    = match awards (obs (run es) st0) with
      | [] => storage
      | _ :: _ => <[storageKey := "NaN"]> storage
      end.
Proof.
  intros Hs Hne%truthy_nonempty Hp st0 st.
  assert (coins st0 = Js.NaN ∧ coinCount st0 = "NaN"
          ∧ localStorage st0 = storage) as (Hc0 & Hn0 & Hs0).
  { subst st0. unfold startup, loadGameData. handler_eval.
    by rewrite Hs, Hne, Hp. }
  destruct (run_ledger es st0) as (Hc & _ & Hl). fold st in Hc, Hl.
  rewrite Hc0, credited_NaN in Hc. rewrite Hc in Hl.
  split; [done|]. revert Hl. destruct (awards _).
  - intros [= _ -> ->]. by split.
  - intros [-> ->]. by rewrite Hs0.
Qed.

Lemma balance_not_a_number_witness :
  let storage : gmap string string := {[ storageKey := "ten" ]} in
  let st0 := state startup
               (pageLoad authoringView hiddenQuiz hiddenSummary storage id) in
  let st := state (run reviewEvents) st0 in
  coins st = Js.NaN
  ∧ coinCount st = "NaN"
  ∧ localStorage st
    = match awards (obs (run reviewEvents) st0) with
      | [] => storage
      | _ :: _ => <[storageKey := "NaN"]> storage
      end.
Proof.
  apply (balance_not_a_number authoringView hiddenQuiz hiddenSummary
           {[ storageKey := "ten" ]} id reviewEvents "ten");
    [reflexivity|done|reflexivity].
Defined.

(** X5: with no stored value, or an empty one, a visit starts at balance
    0 with the display showing 0 and the durable store as it was, and at
    every later moment at which the total of the amounts awarded during
    the visit is at most 2^53, the balance is that total. *)
Theorem first_visit_balance (main : MainView) (quiz : QuizView)
  (summary : SummaryView) (storage : gmap string string)
  (random : nat → nat) (es : list Event) :
  default "" (storage !! storageKey) = "" →
  let st0 := state startup (pageLoad main quiz summary storage random) in
  coins st0 = Js.Int 0
  ∧ coinCount st0 = "0"
  ∧ localStorage st0 = storage
  ∧ (total (awards (obs (run es) st0)) ≤ 2 ^ 53 →
     coins (state (run es) st0)
     = Js.Int (total (awards (obs (run es) st0)))).
Proof.
  intros Hs st0.
  assert (coins st0 = Js.Int 0 ∧ coinCount st0 = "0"
          ∧ localStorage st0 = storage) as (Hc0 & Hn0 & Hs0).
  { subst st0. unfold startup, loadGameData. handler_eval.
    destruct (storage !! storageKey) as [s|]; [|done].
    simpl in Hs. by rewrite Hs. }
  split_and!; [done..|]. intros Hhi.
  destruct (run_ledger es st0) as (-> & Hf & _).
  rewrite Hc0. by rewrite credited_exact.
Qed.

Lemma first_visit_balance_witness :
  coins firstVisit = Js.Int 0
  ∧ coinCount firstVisit = "0"
  ∧ localStorage firstVisit = ∅
  ∧ (total (awards (obs (run reviewEvents) firstVisit)) ≤ 2 ^ 53 →
     coins (state (run reviewEvents) firstVisit)
     = Js.Int (total (awards (obs (run reviewEvents) firstVisit)))).
Proof.
  apply (first_visit_balance authoringView hiddenQuiz hiddenSummary ∅ id
           reviewEvents).
  reflexivity.
Defined.

(** ** The loading flag and its controls *)

(** The fan-out over at least one character leaves the loading flag set
    and its controls in the loading position. *)
Lemma fanOut_controls (chars : list loc) (index : nat) (st : State) :
  chars ≠ [] →
  let st' := state (fanOut chars index) st in
  isLoading st' = true
  ∧ generateButton_disabled st' = true
  ∧ spinner_hidden st' = false.
Proof.
  revert index st. induction chars as [|c chars IH]; intros index st Hne;
    [done|].
  cbn [fanOut]. rewrite !state_bind.
  destruct chars as [|c' chars]; [by handler_eval|].
  by apply IH.
Qed.

Lemma loadingShown_dispatch (e : Event) (st : State) :
  loadingShown st → loadingShown (state (dispatch e) st).
Proof.
  intros Hinv. pose proof Hinv as (Hb & Hs & Ht & Hg).
  rewrite state_dispatch. destruct e.
  - destruct (_ || _); [exact Hinv|].
    unfold generateStoryAndImages. rewrite state_bind, state_get, result_get.
    destruct (isLoading st) eqn:Hl; [exact Hinv|].
    destruct (Js.truthy _); [|exact Hinv]. cbn [negb].
    unfold loadingShown, generating.
    handler_eval. by split_and!; [..|left].
  - destruct (_ || _); [exact Hinv|].
    unfold startQuiz. rewrite state_bind, state_get, result_get.
    case_decide; [exact Hinv|]. autorewrite with handler.
    match goal with |- context [state displayQuestion ?s] =>
      destruct (displayQuestion_beside s) as [Hq _] end.
    apply besideQuestion_inv in Hq as (Hv & Hm & _ & _ & _ & Hn & Hp).
    unfold loadingShown, generating. rewrite Hv, Hm, Hn, Hp. exact Hinv.
  - destruct (quizContainer_hidden st); [exact Hinv|].
    destruct (quizAnswers st !! k) as [b|]; [|exact Hinv].
    destruct (disabled b); [exact Hinv|].
    unfold loadingShown, generating, handleAnswer. handler_eval.
    by case_decide.
  - destruct (quizSummary_hidden st); [exact Hinv|].
    unfold loadingShown, generating, resetApp. by handler_eval.
  - destruct (mainContainer_hidden st); exact Hinv.
  - destruct (pendingNarrative st); [|exact Hinv].
    rewrite state_bind, state_modify.
    destruct (parsedData r) as [cause|data] eqn:Hr.
    { unfold loadingShown, generating.
      failed_path r cause (set_pendingNarrative false st) Hr.
      by split_and!. }
    unfold loadingShown, generating, generateStoryAndImages_resume.
    rewrite Hr. autorewrite with handler.
    destruct (seq _ _) as [|c cs] eqn:Hseq.
    { handler_eval. by split_and!. }
    autorewrite with handler.
    match goal with |- context [state (fanOut ?cs ?i) ?s] =>
      destruct (fanOut_controls cs i s) as (-> & -> & ->); [done|];
      destruct (fanOut_spec cs i s) as (_ & _ & -> & _)
    end.
    split_and!; [done..|]. intros _. right.
    by intros [_ ?]%app_eq_nil.
  - case_decide as Hin.
    2:{ unfold loadingShown, generating. orphan_path req r st.
        exact Hinv. }
    unfold loadingShown, generating. autorewrite with handler.
    set (st0 := set_pendingImages (removeOne req (pendingImages st)) st).
    destruct (generateImage_resume_frame req r st0)
      as (Hv & Hm & _ & _ & _ & _ & Hn & Hp).
    set (st1 := state (generateImage_resume req r) st0) in *.
    destruct (pendingImages st1) eqn:Hp1; autorewrite with handler.
    + handler_eval. by split_and!.
    + rewrite Hv, Hm, Hn, Hp1. subst st0. simpl.
      split_and!; [done..|]. intros _. by right.
  - case_decide; [|exact Hinv]. rewrite state_bind, state_modify.
    destruct t; cbn [timerCallback]; [exact Hinv|].
    unfold advanceQuestion. autorewrite with handler. case_decide.
    + match goal with |- context [state displayQuestion ?s] =>
        destruct (displayQuestion_beside s) as [Hq _] end.
      apply besideQuestion_inv in Hq as (Hv & Hm & _ & _ & _ & Hn & Hp).
      unfold loadingShown, generating. rewrite Hv, Hm, Hn, Hp. exact Hinv.
    + exact Hinv.
Qed.

Lemma loadingShown_run (es : list Event) (st : State) :
  loadingShown st → loadingShown (state (run es) st).
Proof.
  revert st. induction es as [|e es IH]; intros st Hg; [done|].
  rewrite state_run_cons. by apply IH, loadingShown_dispatch.
Qed.

Lemma loadingShown_startup (main : MainView) (quiz : QuizView)
  (summary : SummaryView) (storage : gmap string string)
  (random : nat → nat) :
  loadingShown (state startup (pageLoad main quiz summary storage random)).
Proof. unfold loadingShown, startup, loadGameData. by handler_eval. Qed.

(** X6: at every moment of a visit the submit button is disabled and the
    spinner is shown exactly while the loading flag is set; while the flag
    is clear the button shows its resting label; and the flag is set only
    while the narrative request or an image request is outstanding. *)
Theorem loading_controls (main : MainView) (quiz : QuizView)
  (summary : SummaryView) (storage : gmap string string)
  (random : nat → nat) (es : list Event) :
  let st := state (run es)
              (state startup (pageLoad main quiz summary storage random)) in
  generateButton_disabled st = isLoading st
  ∧ spinner_hidden st = negb (isLoading st)
  ∧ (isLoading st = false → buttonText st = "Weave a Story")
  ∧ (isLoading st = true
     → pendingNarrative st = true ∨ pendingImages st ≠ []).
Proof.
  apply loadingShown_run, loadingShown_startup.
Qed.

(** X7: while a story generation is under way, that is, while its
    narrative request or an image request it waits for is outstanding,
    the loading flag is set, the submit button is disabled, the review
    button is hidden and the authoring view is shown; a click on the
    submit button or on the review button does nothing, so no second
    generation and no review starts meanwhile.  (An image request left
    in flight by a generation that threw is not waited for: see
    [leftover_request].)  The page starts with the quiz and summary
    views hidden. *)
Theorem generating_while_loading (main : MainView) (quiz : QuizView)
  (summary : SummaryView) (storage : gmap string string)
  (random : nat → nat) (es : list Event) :
  quizContainer_hidden quiz = true →
  quizSummary_hidden summary = true →
  let st := state (run es)
              (state startup (pageLoad main quiz summary storage random)) in
  (pendingNarrative st = true ∨ pendingImages st ≠ [] →
   isLoading st = true
   ∧ generateButton_disabled st = true
   ∧ startReviewButton_hidden st = true
   ∧ mainContainer_hidden st = false
   ∧ exec (dispatch ClickGenerate) st = (st, [])
   ∧ exec (dispatch ClickStartReview) st = (st, [])).
Proof.
  intros Hq Hs st Hgen.
  assert (invariant st) as (J1 & J2 & _).
  { apply invariant_run. by apply invariant_startup. }
  assert (loadingShown st) as (Hb & _).
  { apply loadingShown_run, loadingShown_startup. }
  clearbody st. destruct (J2 Hgen) as [Hr Hl].
  assert (mainContainer_hidden st = false) as Hm.
  { destruct (mainContainer_hidden st) eqn:Hm; [|done].
    by destruct (J1 eq_refl) as [_ []]. }
  rewrite Hb. split_and!; try done.
  - unfold exec. rewrite state_dispatch, obs_dispatch, Hb, Hl, Hm. done.
  - unfold exec. rewrite state_dispatch, obs_dispatch, Hr, Hm. done.
Qed.

Lemma generating_while_loading_witness :
  isLoading weaving = true
  ∧ generateButton_disabled weaving = true
  ∧ startReviewButton_hidden weaving = true
  ∧ mainContainer_hidden weaving = false
  ∧ exec (dispatch ClickGenerate) weaving = (weaving, [])
  ∧ exec (dispatch ClickStartReview) weaving = (weaving, []).
Proof.
  apply (generating_while_loading authoringView hiddenQuiz hiddenSummary ∅
           id [InputFacts "A"; ClickGenerate]);
    [reflexivity|reflexivity|by left].
Defined.

(** ** The three views *)

Lemma someView_dispatch (e : Event) (st : State) :
  someView st → someView (state (dispatch e) st).
Proof.
  intros Hinv. rewrite state_dispatch. destruct e.
  - destruct (_ || _) eqn:Hg; [exact Hinv|].
    apply orb_false_elim in Hg as [Hm _].
    unfold generateStoryAndImages. rewrite state_bind, state_get, result_get.
    destruct (isLoading st); [exact Hinv|].
    destruct (Js.truthy _); [|exact Hinv]. exact Hinv.
  - destruct (_ || _); [exact Hinv|].
    unfold startQuiz. rewrite state_bind, state_get, result_get.
    case_decide; [exact Hinv|]. autorewrite with handler.
    match goal with |- context [state displayQuestion ?s] =>
      destruct (displayQuestion_beside s) as [Hq _] end.
    apply besideQuestion_inv in Hq as (_ & Hm & Hs & Hq & _).
    unfold someView. rewrite Hm, Hs, Hq. intros _. by left.
  - destruct (quizContainer_hidden st) eqn:Hq; [exact Hinv|].
    destruct (quizAnswers st !! k) as [b|]; [|exact Hinv].
    destruct (disabled b); [exact Hinv|].
    unfold someView, handleAnswer. handler_eval.
    case_decide; simpl; rewrite Hq; by left.
  - destruct (quizSummary_hidden st); [exact Hinv|].
    unfold someView, resetApp. by handler_eval.
  - destruct (mainContainer_hidden st); exact Hinv.
  - destruct (pendingNarrative st); [|exact Hinv].
    rewrite state_bind, state_modify.
    destruct (parsedData r) as [cause|data] eqn:Hr.
    + unfold someView.
      failed_path r cause (set_pendingNarrative false st) Hr. exact Hinv.
    + destruct (resume_parsed_control (set_pendingNarrative false st) r
                  data Hr) as (Hm & _ & Hq & Hs & _).
      unfold someView. rewrite Hm, Hq, Hs. exact Hinv.
  - case_decide as Hin.
    2:{ unfold someView. orphan_path req r st. exact Hinv. }
    unfold someView. autorewrite with handler.
    set (st0 := set_pendingImages (removeOne req (pendingImages st)) st).
    destruct (generateImage_resume_frame req r st0)
      as (_ & Hm & Hq & Hs & _).
    set (st1 := state (generateImage_resume req r) st0) in *.
    destruct (pendingImages st1); autorewrite with handler.
    + handler_eval. rewrite Hm, Hq, Hs. exact Hinv.
    + rewrite Hm, Hq, Hs. exact Hinv.
  - case_decide; [|exact Hinv]. rewrite state_bind, state_modify.
    destruct t; cbn [timerCallback]; [exact Hinv|].
    unfold advanceQuestion. autorewrite with handler. case_decide.
    + match goal with |- context [state displayQuestion ?s] =>
        destruct (displayQuestion_beside s) as [Hq _] end.
      apply besideQuestion_inv in Hq as (_ & Hm & Hs & Hq & _).
      unfold someView. rewrite Hm, Hs, Hq. exact Hinv.
    + unfold someView, showSummary. handler_eval. intros _. by right.
Qed.

Lemma someView_run (es : list Event) (st : State) :
  someView st → someView (state (run es) st).
Proof.
  revert st. induction es as [|e es IH]; intros st Hg; [done|].
  rewrite state_run_cons. by apply IH, someView_dispatch.
Qed.

(** X8: on a page that starts with the authoring view shown and the quiz
    and summary views hidden, exactly one of the three views is shown at
    every moment of a visit. *)
Theorem views_exclusive (main : MainView) (quiz : QuizView)
  (summary : SummaryView) (storage : gmap string string)
  (random : nat → nat) (es : list Event) :
  mainContainer_hidden main = false →
  quizContainer_hidden quiz = true →
  quizSummary_hidden summary = true →
  let st := state (run es)
              (state startup (pageLoad main quiz summary storage random)) in
  ∃ view, visibleViews st = [view].
Proof.
  intros Hm Hq Hs st.
  assert (invariant st) as (_ & _ & _ & J4 & J5 & _).
  { apply invariant_run. by apply invariant_startup. }
  assert (someView st) as Hsome.
  { apply someView_run. unfold someView, startup, loadGameData.
    handler_eval. by rewrite Hm. }
  unfold visibleViews, someView in *.
  destruct (mainContainer_hidden st), (quizContainer_hidden st),
    (quizSummary_hidden st); try (by eexists);
    exfalso; intuition congruence.
Qed.

Lemma views_exclusive_witness :
  ∃ view, visibleViews (state (run reviewEvents) firstVisit) = [view].
Proof.
  apply (views_exclusive authoringView hiddenQuiz hiddenSummary ∅ id
           reviewEvents); reflexivity.
Defined.

(** ** The review button and the deck *)

Lemma deckReady_dispatch (e : Event) (st : State) :
  invariant st → deckReady st → deckReady (state (dispatch e) st).
Proof.
  intros Hi Hinv. pose proof Hinv as [Hd1 Hd2].
  destruct e.
  - rewrite state_dispatch. destruct (_ || _) eqn:Hg; [exact Hinv|].
    unfold generateStoryAndImages. rewrite state_bind, state_get, result_get.
    destruct (isLoading st) eqn:Hl; [exact Hinv|].
    destruct (Js.truthy _); [|exact Hinv]. cbn [negb].
    destruct (not_generating st Hi Hl) as [_ Hp].
    unfold deckReady. handler_eval. rewrite Hp.
    split; [done|]. by intros [|].
  - rewrite state_dispatch. destruct (_ || _); [exact Hinv|].
    unfold startQuiz. rewrite state_bind, state_get, result_get.
    case_decide; [exact Hinv|]. autorewrite with handler.
    match goal with |- context [state displayQuestion ?s] =>
      destruct (displayQuestion_beside s) as [Hq _] end.
    apply besideQuestion_inv in Hq as (Hv & Hm & _ & _ & _ & Hn & Hp).
    unfold deckReady. rewrite Hv, Hm, Hn, Hp. exact Hinv.
  - rewrite state_dispatch.
    destruct (quizContainer_hidden st); [exact Hinv|].
    destruct (quizAnswers st !! k) as [b|]; [|exact Hinv].
    destruct (disabled b); [exact Hinv|].
    unfold deckReady, handleAnswer. handler_eval.
    case_decide; exact Hinv.
  - rewrite state_dispatch.
    destruct (quizSummary_hidden st); [exact Hinv|].
    unfold deckReady, resetApp. handler_eval.
    split; [done|]. intros [Hp|]; [|done]. apply Hd2. by left.
  - rewrite state_dispatch. destruct (mainContainer_hidden st); exact Hinv.
  - destruct (pendingNarrative st) eqn:Hn.
    2:{ rewrite state_dispatch, Hn. exact Hinv. }
    destruct Hi as (_ & J2 & J3 & _).
    destruct J2 as [Hb _]; [by left|].
    pose proof (J3 Hn) as Hp. pose proof (proj1 Hinv Hn) as Hdeck.
    destruct (parsedData r) as [cause|data] eqn:Hr.
    { rewrite state_dispatch, Hn, state_bind, state_modify.
      unfold deckReady.
      failed_path r cause (set_pendingNarrative false st) Hr. simpl.
      rewrite Hp. split; [done|]. by intros [|]. }
    destruct (dispatch_parsed st r data Hn Hdeck Hr)
      as (_ & Hd & Hpi & Hrb & _).
    assert (pendingNarrative (state (dispatch (NarrativeSettled r)) st)
            = false) as Hn'.
    { rewrite state_dispatch, Hn, state_bind, state_modify.
      by destruct (resume_parsed_control (set_pendingNarrative false st)
                     r data Hr) as (_ & _ & _ & _ & -> & _). }
    unfold deckReady. rewrite Hn', Hd, Hpi, Hrb, Hp, Hb.
    split; [done|]. unfold requestsOf.
    destruct (default [] (characters data)); [|done].
    by intros [|].
  - rewrite state_dispatch. case_decide as Hin.
    2:{ unfold deckReady. orphan_path req r st. exact Hinv. }
    assert (currentDeck st ≠ []) as Hne.
    { apply Hd2. left. intros Hnil. rewrite Hnil in Hin.
      by apply elem_of_nil in Hin. }
    autorewrite with handler.
    set (st0 := set_pendingImages (removeOne req (pendingImages st)) st).
    destruct (generateImage_resume_frame req r st0)
      as (Hv & _ & _ & _ & _ & _ & Hn & _).
    set (st1 := state (generateImage_resume req r) st0) in *.
    assert (currentDeck st1 = currentDeck st) as Hdeck by by rewrite Hv.
    unfold deckReady.
    destruct (pendingImages st1); autorewrite with handler.
    + handler_eval. rewrite Hn, Hdeck. subst st0. split; [exact Hd1|done].
    + rewrite Hn, Hdeck. subst st0. split; [exact Hd1|done].
  - rewrite state_dispatch. case_decide; [|exact Hinv].
    rewrite state_bind, state_modify.
    destruct t; cbn [timerCallback]; [exact Hinv|].
    unfold advanceQuestion. autorewrite with handler. case_decide.
    + match goal with |- context [state displayQuestion ?s] =>
        destruct (displayQuestion_beside s) as [Hq _] end.
      apply besideQuestion_inv in Hq as (Hv & Hm & _ & _ & _ & Hn & Hp).
      unfold deckReady. rewrite Hv, Hm, Hn, Hp. exact Hinv.
    + exact Hinv.
Qed.

Lemma deckReady_run (es : list Event) (st : State) :
  invariant st → deckReady st →
  invariant (state (run es) st) ∧ deckReady (state (run es) st).
Proof.
  revert st. induction es as [|e es IH]; intros st Hi Hd; [done|].
  rewrite state_run_cons.
  apply IH; [by apply invariant_dispatch|by apply deckReady_dispatch].
Qed.

(** X9: the review button is shown only when a deck has been assembled
    and no story generation is under way: the deck is not empty, the
    narrative request and the image requests a generation waits for have
    settled, and the loading flag is clear.  (An image request left in
    flight by an earlier generation that threw may still be
    outstanding: see [leftover_request].)  The page starts with the
    review button, the quiz view and the summary view hidden. *)
Theorem review_button_deck (main : MainView) (quiz : QuizView)
  (summary : SummaryView) (storage : gmap string string)
  (random : nat → nat) (es : list Event) :
  quizContainer_hidden quiz = true →
  quizSummary_hidden summary = true →
  startReviewButton_hidden main = true →
  let st := state (run es)
              (state startup (pageLoad main quiz summary storage random)) in
  startReviewButton_hidden st = false →
  currentDeck st ≠ []
  ∧ pendingNarrative st = false
  ∧ pendingImages st = []
  ∧ isLoading st = false.
Proof.
  intros Hq Hs Hr st Hshown.
  destruct (deckReady_run es
              (state startup (pageLoad main quiz summary storage random)))
    as [Hi [_ Hd]].
  { by apply invariant_startup. }
  { unfold deckReady, startup, loadGameData. handler_eval.
    rewrite Hr. split; [done|]. by intros [|]. }
  fold st in Hi, Hd. split; [apply Hd; by right|].
  destruct Hi as (_ & J2 & _). unfold generating in J2.
  assert (loadingShown st) as (_ & _ & _ & Hg).
  { apply loadingShown_run, loadingShown_startup. }
  unfold generating in Hg.
  destruct (pendingNarrative st) eqn:Hn.
  { destruct J2 as [? _]; [by left|congruence]. }
  destruct (pendingImages st) eqn:Hp.
  2:{ destruct J2 as [? _]; [by right|congruence]. }
  split_and!; [done..|].
  destruct (isLoading st); [|done]. by destruct Hg as [|].
Qed.

Lemma review_button_deck_witness :
  currentDeck oneCard ≠ []
  ∧ pendingNarrative oneCard = false
  ∧ pendingImages oneCard = []
  ∧ isLoading oneCard = false.
Proof.
  apply (review_button_deck authoringView hiddenQuiz hiddenSummary ∅ id
           (storyEvents "A" (narrativeOf ["A"])
              [(requestOf firstVisit 0, ImageOk "QQ==")]));
    reflexivity.
Defined.

(** ** The highlight of the coin display *)

Lemma fanOut_highlight (chars : list loc) (index : nat) (st : State) :
  coinDisplay_awarded (state (fanOut chars index) st)
  = coinDisplay_awarded st.
Proof.
  revert index st. induction chars as [|c chars IH]; intros index st; [done|].
  cbn [fanOut]. rewrite !state_bind. by rewrite IH.
Qed.

Lemma highlightPending_dispatch (e : Event) (st : State) :
  highlightPending st → highlightPending (state (dispatch e) st).
Proof.
  intros Hinv. rewrite state_dispatch. destruct e.
  - destruct (_ || _); [exact Hinv|].
    unfold generateStoryAndImages. rewrite state_bind, state_get, result_get.
    destruct (isLoading st); [exact Hinv|].
    destruct (Js.truthy _); exact Hinv.
  - destruct (_ || _); [exact Hinv|].
    unfold startQuiz. rewrite state_bind, state_get, result_get.
    case_decide; [exact Hinv|]. autorewrite with handler.
    match goal with |- context [state displayQuestion ?s] =>
      destruct (displayQuestion_beside s) as [Hq _] end.
    apply besideQuestion_inv in Hq as (_ & Hm & _ & _ & Ht & _).
    unfold highlightPending. rewrite Hm, Ht. exact Hinv.
  - destruct (quizContainer_hidden st); [exact Hinv|].
    destruct (quizAnswers st !! k) as [b|]; [|exact Hinv].
    destruct (disabled b); [exact Hinv|].
    unfold highlightPending, handleAnswer. handler_eval.
    case_decide; simpl; intros Ha; rewrite !elem_of_app.
    + left. right. by apply list_elem_of_singleton.
    + left. by apply Hinv.
  - destruct (quizSummary_hidden st); exact Hinv.
  - destruct (mainContainer_hidden st); exact Hinv.
  - destruct (pendingNarrative st); [|exact Hinv].
    rewrite state_bind, state_modify.
    destruct (parsedData r) as [cause|data] eqn:Hr.
    { unfold highlightPending.
      failed_path r cause (set_pendingNarrative false st) Hr. exact Hinv. }
    unfold generateStoryAndImages_resume. rewrite Hr.
    autorewrite with handler.
    destruct (seq _ _) as [|c cs].
    + unfold highlightPending. handler_eval. intros _.
      apply elem_of_app. right. by apply list_elem_of_singleton.
    + autorewrite with handler. unfold highlightPending.
      match goal with |- context [state (fanOut ?cs ?i) ?s] =>
        destruct (fanOut_spec cs i s) as (_ & _ & _ & _ & _ & Hb);
        rewrite (fanOut_highlight cs i s) end.
      apply besideImages_inv in Hb as (_ & _ & _ & _ & -> & _).
      exact Hinv.
  - case_decide as Hin.
    2:{ unfold highlightPending. orphan_path req r st. exact Hinv. }
    unfold highlightPending. autorewrite with handler.
    set (st0 := set_pendingImages (removeOne req (pendingImages st)) st).
    destruct (generateImage_resume_frame req r st0)
      as (_ & Hm & _ & _ & Ht & _).
    set (st1 := state (generateImage_resume req r) st0) in *.
    destruct (pendingImages st1); autorewrite with handler.
    + handler_eval. intros _.
      apply elem_of_app. right. by apply list_elem_of_singleton.
    + rewrite Hm, Ht. exact Hinv.
  - case_decide; [|exact Hinv]. rewrite state_bind, state_modify.
    destruct t; cbn [timerCallback]; [done|].
    assert (highlightPending
              (set_timers (removeOne AdvanceQuestion (timers st)) st))
      as Hinv'.
    { unfold highlightPending. simpl. intros Ha.
      apply removeOne_other; [done|]. by apply Hinv. }
    unfold advanceQuestion. autorewrite with handler. case_decide.
    + match goal with |- context [state displayQuestion ?s] =>
        destruct (displayQuestion_beside s) as [Hq _] end.
      apply besideQuestion_inv in Hq as (_ & Hm & _ & _ & Ht & _).
      unfold highlightPending. rewrite Hm, Ht. exact Hinv'.
    + exact Hinv'.
Qed.

Lemma highlightPending_run (es : list Event) (st : State) :
  highlightPending st → highlightPending (state (run es) st).
Proof.
  revert st. induction es as [|e es IH]; intros st Hg; [done|].
  rewrite state_run_cons. by apply IH, highlightPending_dispatch.
Qed.

(** X10: the highlight of the coin display never stays: when no timer
    that removes it is pending, the display is not highlighted.  The page
    starts with the display not highlighted. *)
Theorem highlight_removed (main : MainView) (quiz : QuizView)
  (summary : SummaryView) (storage : gmap string string)
  (random : nat → nat) (es : list Event) :
  coinDisplay_awarded main = false →
  let st := state (run es)
              (state startup (pageLoad main quiz summary storage random)) in
  RemoveAwarded ∉ timers st →
  coinDisplay_awarded st = false.
Proof.
  intros Ha st Ht.
  assert (highlightPending st) as Hh.
  { apply highlightPending_run. unfold highlightPending, startup,
      loadGameData. handler_eval. by rewrite Ha. }
  destruct (coinDisplay_awarded st) eqn:Hc; [|done].
  exfalso. apply Ht, Hh. done.
Qed.

Lemma highlight_removed_witness :
  let st := state (run (reviewEvents
                          ++ [TimerFired RemoveAwarded;
                              TimerFired RemoveAwarded;
                              TimerFired RemoveAwarded])) firstVisit in
  coinDisplay_awarded st = false.
Proof.
  apply (highlight_removed authoringView hiddenQuiz hiddenSummary ∅ id
           (reviewEvents ++ [TimerFired RemoveAwarded;
                             TimerFired RemoveAwarded;
                             TimerFired RemoveAwarded])); [reflexivity|].
  vm_compute. by intros ?%elem_of_nil.
Defined.

(** ** The question on display *)

Lemma correctAnswer_option (st : State) (correctAnswer : string) :
  correctAnswer ∈ result (generateMultipleChoice correctAnswer) st.
Proof.
  destruct (generateMultipleChoice_options st correctAnswer)
    as (ds & _ & ->). by left.
Qed.

Lemma displayQuestion_shows (st : State) (l : loc) :
  currentDeck st !! currentQuestionIndex st = Some l →
  showsQuestion (state displayQuestion st) (currentQuestionIndex st)
    (length (currentDeck st)) (deref st l)
  ∧ obs displayQuestion st = [].
Proof.
  intros Hl. unfold showsQuestion, displayQuestion.
  autorewrite with handler. rewrite Hl. autorewrite with handler.
  match goal with |- context [state (generateMultipleChoice ?c) ?s] =>
    destruct (generateMultipleChoice_exec c s) as (n & -> & ->);
    pose proof (correctAnswer_option s c) as Hin
  end.
  simpl. split_and!; try done.
  - by intros b (option & -> & _)%list_elem_of_fmap.
  - eexists. split; [by apply list_elem_of_fmap_2|done].
Qed.

Lemma showsQuestion_asks (quiz : QuizView) (index size : nat)
  (c : Character) :
  showsQuestion quiz index size c → asksQuestion quiz index size c.
Proof. intros (? & _ & ? & ? & ? & ?). by split_and!. Qed.

Lemma asksQuestion_ext (quiz : QuizView) (index size : nat)
  (c c' : Character) :
  fact c' = fact c → characterName c' = characterName c →
  asksQuestion quiz index size c → asksQuestion quiz index size c'.
Proof.
  intros Hf Hn. unfold asksQuestion, altText, questionText.
  by rewrite Hf, Hn.
Qed.

Lemma main_shown (st : State) :
  invariant st → mainContainer_hidden st = false →
  quizContainer_hidden st = true
  ∧ quizSummary_hidden st = true
  ∧ AdvanceQuestion ∉ timers st.
Proof.
  intros (_ & _ & _ & J4 & J5 & J6) Hm. split_and!.
  - destruct (quizContainer_hidden st); [done|].
    specialize (J5 eq_refl). congruence.
  - destruct (quizSummary_hidden st); [done|].
    destruct (J4 eq_refl) as [? _]. congruence.
  - intros Hin. destruct (J6 Hin) as [? _]. congruence.
Qed.

Lemma quizSession_idle (st : State) :
  quizContainer_hidden st = true →
  quizSummary_hidden st = true →
  AdvanceQuestion ∉ timers st →
  quizSession st.
Proof. intros Hq Hs Ht. unfold quizSession. rewrite Hq, Hs. done. Qed.

Lemma answered_ext (st st' : State) :
  (AdvanceQuestion ∈ timers st' ↔ AdvanceQuestion ∈ timers st) →
  answered st' = answered st.
Proof. intros Hiff. unfold answered. by repeat case_decide; tauto. Qed.

Lemma quizSession_displayQuestion (st : State) (l : loc) :
  currentDeck st !! currentQuestionIndex st = Some l →
  (2 ≤ length (currentDeck st))%nat →
  (score st ≤ currentQuestionIndex st + answered st)%nat →
  quizContainer_hidden st = false →
  quizSummary_hidden st = true →
  quizSession (state displayQuestion st).
Proof.
  intros Hl Hlen Hscore Hq Hs.
  destruct (displayQuestion_shows st l Hl) as [Hshows _].
  destruct (displayQuestion_beside st) as [Hb _].
  assert (objects (state displayQuestion st) = objects st) as Hobj.
  { by injection Hb. }
  apply besideQuestion_inv in Hb as (Hv & _ & Hsv & Hqh & Ht & _).
  unfold quizSession. rewrite Hv, Hsv, Hqh, Hs, Ht.
  rewrite (answered_ext st (state displayQuestion st)) by by rewrite Ht.
  split_and!; [|done..]. intros _. split_and!; [done..|].
  exists l. split; [done|]. apply showsQuestion_asks.
  unfold deref. by rewrite Hobj.
Qed.

Lemma quizSession_dispatch (e : Event) (st : State) :
  invariant st → quizSession st → quizSession (state (dispatch e) st).
Proof.
  intros Hi Hinv.
  rewrite state_dispatch. destruct e.
  - destruct (_ || _) eqn:Hg; [exact Hinv|].
    apply orb_false_elim in Hg as [Hm _].
    destruct (main_shown st Hi Hm) as (Hq & Hs & Ht).
    unfold generateStoryAndImages. rewrite state_bind, state_get, result_get.
    destruct (isLoading st); [exact Hinv|].
    destruct (Js.truthy _); [|exact Hinv]. by apply quizSession_idle.
  - destruct (_ || _) eqn:Hg; [exact Hinv|].
    apply orb_false_elim in Hg as [Hm _].
    destruct (main_shown st Hi Hm) as (Hq & Hs & Ht).
    unfold startQuiz. rewrite state_bind, state_get, result_get.
    case_decide as Hlen; [exact Hinv|]. autorewrite with handler.
    destruct (currentDeck st) as [|l deck] eqn:Hdeck; [simpl in Hlen; lia|].
    apply (quizSession_displayQuestion _ l); simpl; try done.
    + by rewrite Hdeck.
    + rewrite Hdeck. simpl in *. lia.
    + lia.
  - destruct (quizContainer_hidden st) eqn:Hq; [exact Hinv|].
    destruct (quizAnswers st !! k) as [b|] eqn:Hb; [|exact Hinv].
    destruct (disabled b) eqn:Hd; [exact Hinv|].
    destruct Hi as (_ & _ & _ & J4 & _ & J6).
    assert (AdvanceQuestion ∉ timers st) as Ht.
    { intros Hin. destruct (J6 Hin) as (_ & _ & Hall).
      apply list_elem_of_lookup_2 in Hb. specialize (Hall b Hb). congruence. }
    assert (quizSummary_hidden st = true) as Hs.
    { destruct (quizSummary_hidden st) eqn:Hs; [done|].
      destruct (J4 eq_refl) as (_ & Hq' & _). congruence. }
    destruct (proj1 Hinv Hq) as (Hlen & Hscore & l & Hl & Hshow).
    unfold answered in Hscore. rewrite decide_False in Hscore by done.
    destruct Hshow as (H1 & H3 & H4 & H5 & b0 & Hb0 & Hb0t).
    assert (asksQuestion
              (set_quizAnswers
                 (markButton (onclick b).1 (onclick b).2 <$> quizAnswers st)
                 st)
              (currentQuestionIndex st) (length (currentDeck st))
              (deref st l)) as Hshow'.
    { unfold asksQuestion. simpl. split_and!; try done.
      - intros b' (b1 & -> & Hb1)%list_elem_of_fmap. simpl. by apply H5.
      - exists (markButton (onclick b).1 (onclick b).2 b0).
        split; [by apply list_elem_of_fmap_2|done]. }
    unfold quizSession, handleAnswer. handler_eval.
    case_decide; simpl; rewrite Hq, Hs;
      (split_and!; [|done..]); intros _;
      (split_and!; [done| |by exists l]);
      unfold answered; simpl;
      rewrite decide_True
        by (rewrite !elem_of_app, !list_elem_of_singleton; by right);
      lia.
  - destruct (quizSummary_hidden st) eqn:Hs; [exact Hinv|].
    destruct Hi as (_ & _ & _ & J4 & _).
    destruct (J4 Hs) as (_ & Hq & Ht & _).
    apply quizSession_idle; unfold resetApp; by handler_eval.
  - destruct (mainContainer_hidden st); exact Hinv.
  - destruct (pendingNarrative st) eqn:Hn; [|exact Hinv].
    assert (mainContainer_hidden st = false) as Hm.
    { destruct Hi as (J1 & _).
      destruct (mainContainer_hidden st) eqn:Hm; [|done].
      destruct (J1 eq_refl) as [_ []]. by left. }
    destruct (main_shown st Hi Hm) as (Hq & Hs & Ht).
    rewrite state_bind, state_modify.
    destruct (parsedData r) as [cause|data] eqn:Hr.
    + apply quizSession_idle;
        by failed_path r cause (set_pendingNarrative false st) Hr.
    + destruct (resume_parsed_control (set_pendingNarrative false st) r
                  data Hr) as (_ & _ & Hqv & Hsv & _ & _ & Hrest).
      apply quizSession_idle; rewrite ?Hqv, ?Hsv; try done.
      destruct (default [] (characters data)).
      * destruct Hrest as (_ & _ & ->). simpl.
        rewrite elem_of_app, list_elem_of_singleton. by intros [|].
      * by destruct Hrest as (_ & _ & -> & _).
  - case_decide as Hin.
    2:{ destruct (settleOrphan_frame req r st)
          as (Hv & _ & Hqv & Hsv & Htm & _ & _ & _ & _ & _ & Htext).
        unfold quizSession.
        rewrite (answered_ext st) by by rewrite Htm.
        rewrite Hv, Hqv, Hsv, Htm.
        split_and!; [|apply Hinv..]. intros Hq.
        destruct (proj1 Hinv Hq) as (Hlen & Hscore & l & Hl & Hask).
        split_and!; [done..|]. exists l. split; [done|].
        destruct (Htext l) as [Hf Hn].
        by apply (asksQuestion_ext _ _ _ (deref st l)). }
    assert (mainContainer_hidden st = false) as Hm.
    { destruct Hi as (J1 & _).
      destruct (mainContainer_hidden st) eqn:Hm; [|done].
      destruct (J1 eq_refl) as [_ []]. right. intros Hnil.
      rewrite Hnil in Hin. by apply elem_of_nil in Hin. }
    destruct (main_shown st Hi Hm) as (Hq & Hs & Ht).
    autorewrite with handler.
    set (st0 := set_pendingImages (removeOne req (pendingImages st)) st).
    destruct (generateImage_resume_frame req r st0)
      as (_ & _ & Hqv & Hsv & Htm & _).
    set (st1 := state (generateImage_resume req r) st0) in *.
    destruct (pendingImages st1); autorewrite with handler.
    + apply quizSession_idle; handler_eval; rewrite ?Hqv, ?Hsv, ?Htm;
        try done.
      rewrite elem_of_app, list_elem_of_singleton. by intros [|].
    + apply quizSession_idle; rewrite ?Hqv, ?Hsv, ?Htm; done.
  - case_decide as Hin; [|exact Hinv]. rewrite state_bind, state_modify.
    destruct t; cbn [timerCallback].
    + unfold quizSession, removeAwarded. handler_eval.
      rewrite (answered_ext st) by (simpl; by apply removeOne_other).
      rewrite removeOne_other by done. exact Hinv.
    + destruct Hi as (_ & _ & _ & J4 & _ & J6).
      destruct (J6 Hin) as (Hm & Hone & _).
      pose proof (proj2 (proj2 Hinv) Hin) as Hq.
      assert (quizSummary_hidden st = true) as Hs.
      { destruct (quizSummary_hidden st) eqn:Hs; [done|].
        destruct (J4 eq_refl) as (_ & _ & Ht & _). done. }
      destruct (proj1 Hinv Hq) as (Hlen & Hscore & l & Hl & _).
      unfold answered in Hscore. rewrite decide_True in Hscore by done.
      apply lookup_lt_Some in Hl.
      unfold advanceQuestion. autorewrite with handler. simpl.
      case_decide as Hnext.
      * destruct (lookup_lt_is_Some_2 (currentDeck st)
                    (S (currentQuestionIndex st)) Hnext) as [l' Hl'].
        apply (quizSession_displayQuestion _ l'); simpl; try done. lia.
      * unfold quizSession, showSummary. handler_eval.
        split_and!; [done| |done]. intros _. split_and!; [done|lia|done].
Qed.

Lemma quizSession_run (es : list Event) (st : State) :
  invariant st → quizSession st → quizSession (state (run es) st).
Proof.
  revert st. induction es as [|e es IH]; intros st Hi Hq; [done|].
  rewrite state_run_cons.
  apply IH; [by apply invariant_dispatch|by apply quizSession_dispatch].
Qed.

Lemma quizSession_startup (main : MainView) (quiz : QuizView)
  (summary : SummaryView) (storage : gmap string string)
  (random : nat → nat) :
  quizContainer_hidden quiz = true →
  quizSummary_hidden summary = true →
  quizSession (state startup (pageLoad main quiz summary storage random)).
Proof.
  intros Hq Hs. apply quizSession_idle; unfold startup, loadGameData;
    handler_eval; try done. by intros ?%elem_of_nil.
Qed.

(** X11: while the quiz view is shown, the deck has at least two entries,
    the current question index lies in the deck, the progress line names
    that question and the deck size, and the score is at most the number
    of questions answered so far.  While the summary is shown, the score
    is at most the deck size and the summary reports the score out of the
    deck size.  An advance to the next question is pending only while the
    quiz view is shown.  The page starts with the quiz and summary views
    hidden. *)
Theorem quiz_progress (main : MainView) (quiz : QuizView)
  (summary : SummaryView) (storage : gmap string string)
  (random : nat → nat) (es : list Event) :
  quizContainer_hidden quiz = true →
  quizSummary_hidden summary = true →
  let st := state (run es)
              (state startup (pageLoad main quiz summary storage random)) in
  (quizContainer_hidden st = false →
   (2 ≤ length (currentDeck st))%nat
   ∧ (currentQuestionIndex st < length (currentDeck st))%nat
   ∧ (score st ≤ currentQuestionIndex st + answered st)%nat
   ∧ quizProgress st
     = progressText (currentQuestionIndex st) (length (currentDeck st)))
  ∧ (quizSummary_hidden st = false →
     (score st ≤ length (currentDeck st))%nat
     ∧ summaryScore st = scoreText (score st) (length (currentDeck st)))
  ∧ (AdvanceQuestion ∈ timers st → quizContainer_hidden st = false).
Proof.
  intros Hq Hs st.
  assert (quizSession st) as (H1 & H2 & H3).
  { apply quizSession_run;
      [by apply invariant_startup|by apply quizSession_startup]. }
  split_and!; [|by intros (_ & ? & ?)%H2|done].
  intros (Hlen & Hscore & l & Hl & Hp & _)%H1.
  apply lookup_lt_Some in Hl. done.
Qed.

Lemma quiz_progress_witness :
  (quizContainer_hidden reviewing = false →
   (2 ≤ length (currentDeck reviewing))%nat
   ∧ (currentQuestionIndex reviewing < length (currentDeck reviewing))%nat
   ∧ (score reviewing ≤ currentQuestionIndex reviewing
                        + answered reviewing)%nat
   ∧ quizProgress reviewing
     = progressText (currentQuestionIndex reviewing)
         (length (currentDeck reviewing)))
  ∧ (quizSummary_hidden reviewing = false →
     (score reviewing ≤ length (currentDeck reviewing))%nat
     ∧ summaryScore reviewing
       = scoreText (score reviewing) (length (currentDeck reviewing)))
  ∧ (AdvanceQuestion ∈ timers reviewing
     → quizContainer_hidden reviewing = false).
Proof.
  apply (quiz_progress authoringView hiddenQuiz hiddenSummary ∅ id
           (storyEvents "A, B, C" (narrativeOf ["A"; "B"; "C"])
              reverseOrder ++ [ClickStartReview])); reflexivity.
Defined.

(** X12: while the quiz view is shown, it asks the question for the
    deck entry at the current index: the progress line, the name of that
    character in the question and in the alternative text of the image,
    and answer buttons each of whose click handlers compares the
    button's own text with the fact of that character, one of them
    carrying that fact.  (The image on display is the one the entry had
    when the question was displayed, see [advance_question]; an image
    request left in flight by a story generation that threw can change
    the entry's image afterwards.)  The page starts with the quiz and
    summary views hidden. *)
Theorem question_on_display (main : MainView) (quiz : QuizView)
  (summary : SummaryView) (storage : gmap string string)
  (random : nat → nat) (es : list Event) :
  quizContainer_hidden quiz = true →
  quizSummary_hidden summary = true →
  let st := state (run es)
              (state startup (pageLoad main quiz summary storage random)) in
  quizContainer_hidden st = false →
  ∃ l, currentDeck st !! currentQuestionIndex st = Some l
       ∧ asksQuestion st (currentQuestionIndex st)
           (length (currentDeck st)) (deref st l).
Proof.
  intros Hq Hs st Hshown.
  assert (quizSession st) as (H1 & _).
  { apply quizSession_run;
      [by apply invariant_startup|by apply quizSession_startup]. }
  by destruct (H1 Hshown) as (_ & _ & ?).
Qed.

Lemma question_on_display_witness :
  ∃ l, currentDeck reviewing !! currentQuestionIndex reviewing = Some l
       ∧ asksQuestion reviewing (currentQuestionIndex reviewing)
           (length (currentDeck reviewing)) (deref reviewing l).
Proof.
  apply (question_on_display authoringView hiddenQuiz hiddenSummary ∅ id
           (storyEvents "A, B, C" (narrativeOf ["A"; "B"; "C"])
              reverseOrder ++ [ClickStartReview])); reflexivity.
Defined.

(** ** What the handlers never do *)

Lemma fanOut_obs (chars : list loc) (index : nat) (st : State) :
  UncaughtTypeError ∉ obs (fanOut chars index) st.
Proof.
  revert index st. induction chars as [|c chars IH]; intros index st.
  - by intros ?%elem_of_nil.
  - cbn [fanOut]. rewrite !obs_bind, !elem_of_app.
    intros [Hin|[Hin|[Hin|Hin]]]; [..|by apply IH in Hin].
    + by apply elem_of_nil in Hin.
    + revert Hin. handler_eval. by intros ?%elem_of_nil.
    + revert Hin. handler_eval. by intros [=]%list_elem_of_singleton.
Qed.

Lemma displayQuestion_in_range (st : State) :
  (currentQuestionIndex st < length (currentDeck st))%nat →
  obs displayQuestion st = [].
Proof.
  intros [l Hl]%lookup_lt_is_Some.
  by destruct (displayQuestion_shows st l Hl) as [_ ->].
Qed.

Lemma dispatch_no_TypeError (e : Event) (st : State) :
  UncaughtTypeError ∉ obs (dispatch e) st.
Proof.
  rewrite obs_dispatch. destruct e.
  - destruct (_ || _); [by intros ?%elem_of_nil|].
    unfold generateStoryAndImages. rewrite obs_bind, obs_get, result_get.
    destruct (isLoading st); [by intros ?%elem_of_nil|].
    destruct (Js.truthy _); handler_eval;
      by intros [=]%list_elem_of_singleton.
  - destruct (_ || _); [by intros ?%elem_of_nil|].
    unfold startQuiz. rewrite obs_bind, obs_get, result_get.
    case_decide as Hlen.
    + handler_eval. by intros [=]%list_elem_of_singleton.
    + autorewrite with handler. rewrite displayQuestion_in_range.
      * by intros ?%elem_of_nil.
      * simpl. lia.
  - destruct (quizContainer_hidden st); [by intros ?%elem_of_nil|].
    destruct (quizAnswers st !! k) as [b|]; [|by intros ?%elem_of_nil].
    destruct (disabled b); [by intros ?%elem_of_nil|].
    unfold handleAnswer. handler_eval. case_decide; simpl;
      rewrite ?elem_of_cons, elem_of_nil; intuition congruence.
  - destruct (quizSummary_hidden st); by intros ?%elem_of_nil.
  - destruct (mainContainer_hidden st); by intros ?%elem_of_nil.
  - destruct (pendingNarrative st); [|by intros ?%elem_of_nil].
    rewrite obs_bind, obs_modify, state_modify. cbn [app].
    destruct (parsedData r) as [cause|data] eqn:Hr.
    { destruct (resume_failed_frame r cause (set_pendingNarrative false st)
                  Hr) as (_ & _ & _ & _ & _ & _ & _ & _ & Hreqs & ->).
      rewrite elem_of_app, list_elem_of_singleton.
      intros [Hin|[=]]. rewrite Forall_forall in Hreqs.
      by destruct (Hreqs _ Hin). }
    unfold generateStoryAndImages_resume. rewrite Hr.
    autorewrite with handler. destruct (seq _ _) as [|c cs].
    + handler_eval. rewrite ?elem_of_cons, elem_of_nil.
      intuition congruence.
    + autorewrite with handler. cbn [app]. apply fanOut_obs.
  - case_decide as Hin.
    2:{ by destruct (settleOrphan_frame req r st)
          as (_ & _ & _ & _ & _ & _ & _ & _ & _ & ? & _). }
    autorewrite with handler. simpl.
    set (st0 := set_pendingImages (removeOne req (pendingImages st)) st).
    set (st1 := state (generateImage_resume req r) st0).
    rewrite elem_of_app. intros [Hin'|Hin'].
    + revert Hin'. destruct r; handler_eval;
        destruct (currentDeck st !! index req); simpl;
        rewrite ?elem_of_cons, elem_of_nil; intuition congruence.
    + revert Hin'. destruct (pendingImages st1); handler_eval;
        rewrite ?elem_of_cons, elem_of_nil; intuition congruence.
  - case_decide; [|by intros ?%elem_of_nil].
    autorewrite with handler. simpl.
    destruct t; cbn [timerCallback]; [by intros ?%elem_of_nil|].
    unfold advanceQuestion. autorewrite with handler. simpl.
    case_decide as Hnext.
    + rewrite displayQuestion_in_range by done. by intros ?%elem_of_nil.
    + by intros ?%elem_of_nil.
Qed.

(** X13: no handler ever reads a character past the end of the deck:
    whatever the state and the events, [displayQuestion] is only reached
    with the current index inside the deck, so the [TypeError] of reading
    a field of [undefined] is never raised. *)
Theorem no_uncaught_TypeError (es : list Event) (st : State) :
  UncaughtTypeError ∉ obs (run es) st.
Proof.
  revert st. induction es as [|e es IH]; intros st.
  - by intros ?%elem_of_nil.
  - rewrite obs_run_cons, elem_of_app.
    intros [Hin|Hin]; [by apply dispatch_no_TypeError in Hin|].
    by apply IH in Hin.
Qed.

(** ** Answering a question *)

(** X14: a question takes one answer.  Once a click on an enabled answer
    button has been handled, the advance to the next question is
    scheduled, every answer button is disabled, and a further click on
    any answer button changes nothing and makes no observation. *)
Theorem answer_accepted_once (st : State) (k : nat) (b : AnswerButton) :
  quizContainer_hidden st = false →
  quizAnswers st !! k = Some b →
  disabled b = false →
  let st' := state (dispatch (ClickAnswer k)) st in
  AdvanceQuestion ∈ timers st'
  ∧ (∀ b', b' ∈ quizAnswers st' → disabled b' = true)
  ∧ ∀ k', exec (dispatch (ClickAnswer k')) st' = (st', []).
Proof.
  intros Hq Hb Hd st'.
  assert (quizContainer_hidden st' = false
          ∧ quizAnswers st'
            = markButton (onclick b).1 (onclick b).2 <$> quizAnswers st
          ∧ AdvanceQuestion ∈ timers st') as (Hq' & Ha & Ht).
  { subst st'. rewrite state_dispatch, Hq, Hb, Hd.
    unfold handleAnswer. handler_eval.
    case_decide; simpl; split_and!; try done;
      rewrite !elem_of_app, !list_elem_of_singleton; by right. }
  split_and!; [done| |].
  - rewrite Ha. apply markButton_disabled.
  - intros k'. unfold exec.
    rewrite state_dispatch, obs_dispatch, Hq', Ha, list_lookup_fmap.
    by destruct (quizAnswers st !! k').
Qed.

Lemma answer_accepted_once_witness :
  let st' := state (dispatch (ClickAnswer 1)) reviewing in
  AdvanceQuestion ∈ timers st'
  ∧ (∀ b', b' ∈ quizAnswers st' → disabled b' = true)
  ∧ ∀ k', exec (dispatch (ClickAnswer k')) st' = (st', []).
Proof.
  apply (answer_accepted_once reviewing 1
           (answerButton "A" "A")); reflexivity.
Defined.

(** X15: the feedback after an answer.  On a question just displayed, a
    click on the button [b] leaves the texts of the buttons as they are;
    every button carrying the correct fact is marked [correct], every
    other button carrying the text of [b] is marked [incorrect], and no
    other button is marked; the score goes up by one and 5 coins are
    awarded exactly when the text of [b] is the fact of the character on
    display. *)
Theorem answer_feedback (st : State) (l : loc) (k : nat)
  (b : AnswerButton) :
  quizContainer_hidden st = false →
  currentDeck st !! currentQuestionIndex st = Some l →
  let shown := state displayQuestion st in
  quizAnswers shown !! k = Some b →
  let st' := state (dispatch (ClickAnswer k)) shown in
  let correctAnswer := fact (deref st l) in
  textContent <$> quizAnswers st' = textContent <$> quizAnswers shown
  ∧ (∀ b', b' ∈ quizAnswers st' →
       classList b'
       = "answer-button"
           :: (if decide (textContent b' = correctAnswer) then ["correct"]
               else if decide (textContent b' = textContent b)
                    then ["incorrect"] else []))
  ∧ score st'
    = (if decide (textContent b = correctAnswer)
       then S (score st) else score st)
  ∧ awards (obs (dispatch (ClickAnswer k)) shown)
    = (if decide (textContent b = correctAnswer)
       then [COINS_PER_CORRECT_ANSWER] else []).
Proof.
  intros Hq Hl shown Hb st' correctAnswer.
  destruct (displayQuestion_beside st) as (Hbeside & _ & Hanswers).
  specialize (Hanswers l Hl). fold shown in Hbeside, Hanswers.
  apply besideQuestion_inv in Hbeside as (Hv & _ & _ & Hqh & _).
  destruct (displayQuestion_onclick st l b Hl) as [Hclick Hd].
  { by apply list_elem_of_lookup_2 in Hb. }
  rewrite Hq in Hqh.
  assert (quizAnswers st'
          = markButton (textContent b) correctAnswer <$> quizAnswers shown
          ∧ score st'
            = (if decide (textContent b = correctAnswer)
               then S (score shown) else score shown)
          ∧ awards (obs (dispatch (ClickAnswer k)) shown)
            = (if decide (textContent b = correctAnswer)
               then [COINS_PER_CORRECT_ANSWER] else []))
    as (Ha & Hs & Haw).
  { subst st' correctAnswer.
    rewrite state_dispatch, obs_dispatch, Hqh, Hb, Hd, Hclick.
    unfold handleAnswer. handler_eval. case_decide; by handler_eval. }
  rewrite Hs, Haw, Hv. split_and!; [|  |done..].
  - rewrite Ha, <- list_fmap_compose. done.
  - intros b'. rewrite Ha, Hanswers, <- list_fmap_compose.
    intros (option & -> & _)%list_elem_of_fmap. simpl.
    unfold classAdd. fold correctAnswer.
    repeat case_decide; try done.
    all: exfalso; set_unfold; intuition congruence.
Qed.

Lemma answer_feedback_witness :
  let shown := state displayQuestion reviewing in
  let st' := state (dispatch (ClickAnswer 1)) shown in
  let correctAnswer := fact (deref reviewing 0%nat) in
  textContent <$> quizAnswers st' = textContent <$> quizAnswers shown
  ∧ (∀ b', b' ∈ quizAnswers st' →
       classList b'
       = "answer-button"
           :: (if decide (textContent b' = correctAnswer) then ["correct"]
               else if decide (textContent b' = "C")
                    then ["incorrect"] else []))
  ∧ score st'
    = (if decide ("C" = correctAnswer)
       then S (score reviewing) else score reviewing)
  ∧ awards (obs (dispatch (ClickAnswer 1)) shown)
    = (if decide ("C" = correctAnswer)
       then [COINS_PER_CORRECT_ANSWER] else []).
Proof.
  apply (answer_feedback reviewing 0%nat 1%nat (answerButton "A" "C"));
    reflexivity.
Defined.

(** ** The options of a question, for any deck *)

Lemma filter_eq_absent (x : string) (l : list string) :
  x ∉ l → filter (fun y => y = x) l = [].
Proof.
  induction l as [|y l IH]; [done|].
  intros [Hne Hl]%not_elem_of_cons.
  rewrite filter_cons_False by done. by apply IH.
Qed.

(** X16: for any deck, also a short one or one with repeated facts,
    [generateMultipleChoice] returns the correct answer and at most two
    distractors: 1 plus the smaller of 2 and the number of deck facts
    that differ from the correct answer.  The correct answer occurs
    exactly once among the options, and every other option is a fact of
    the deck that differs from it. *)
Theorem generateMultipleChoice_any_deck (st : State)
  (correctAnswer : string) :
  let options := result (generateMultipleChoice correctAnswer) st in
  length options
  = (1 + length (distractorsOf st correctAnswer) `min` 2)%nat
  ∧ length (filter (fun option => option = correctAnswer) options) = 1%nat
  ∧ ∀ option, option ∈ options →
      option = correctAnswer
      ∨ (option ≠ correctAnswer ∧ option ∈ deckFacts st).
Proof.
  intros options.
  destruct (generateMultipleChoice_options st correctAnswer)
    as (ds & Hds & Hopts).
  fold options in Hopts.
  assert (∀ d, d ∈ take 2 ds → d ≠ correctAnswer ∧ d ∈ deckFacts st)
    as Htake.
  { intros d Hd%subseteq_take. rewrite Hds in Hd.
    by apply list_elem_of_filter in Hd. }
  split_and!.
  - rewrite Hopts. simpl. rewrite length_take, Hds. lia.
  - rewrite Hopts. rewrite filter_cons_True by done. simpl.
    rewrite filter_eq_absent; [done|].
    intros Hin. by destruct (Htake _ Hin).
  - intros option. rewrite Hopts. intros [->|Hin]%elem_of_cons; [by left|].
    right. by apply Htake.
Qed.

(** ** Starting a review *)

(** X17: on a deck of at least two entries [startQuiz] hides the
    authoring view, shows the quiz view with the question for the first
    deck entry, and sets the question index, the score and the session
    reward to 0; it makes no observation and leaves the deck, the objects,
    the balance and the durable store as they are. *)
Theorem startQuiz_begins (st : State) :
  (2 ≤ length (currentDeck st))%nat →
  let st' := state startQuiz st in
  obs startQuiz st = []
  ∧ mainContainer_hidden st' = true
  ∧ quizContainer_hidden st' = false
  ∧ currentQuestionIndex st' = 0%nat
  ∧ score st' = 0%nat
  ∧ coinsEarnedThisSession st' = 0
  ∧ currentDeck st' = currentDeck st
  ∧ objects st' = objects st
  ∧ coins st' = coins st
  ∧ localStorage st' = localStorage st
  ∧ ∃ l, currentDeck st !! 0%nat = Some l
         ∧ showsQuestion st' 0 (length (currentDeck st)) (deref st l).
Proof.
  intros Hlen st'. subst st'. unfold startQuiz.
  autorewrite with handler. rewrite decide_False by lia.
  autorewrite with handler.
  destruct (currentDeck st) as [|l deck] eqn:Hdeck; [simpl in Hlen; lia|].
  set (s := set_coinsEarnedThisSession 0 _).
  assert (currentDeck s !! currentQuestionIndex s = Some l) as Hl.
  { subst s. simpl. by rewrite Hdeck. }
  destruct (displayQuestion_shows s l Hl) as [Hshows ->].
  destruct (displayQuestion_beside s) as [Hb _].
  assert (objects (state displayQuestion s) = objects s
          ∧ localStorage (state displayQuestion s) = localStorage s)
    as [Hobj Hls].
  { by injection Hb. }
  apply besideQuestion_inv in Hb as (Hv & Hm & _ & Hq & _).
  rewrite Hv, Hm, Hq, Hobj, Hls. subst s. simpl. rewrite Hdeck.
  split_and!; try done.
  exists l. split; [done|]. simpl in Hshows. by rewrite Hdeck in Hshows.
Qed.

Lemma startQuiz_begins_witness :
  let st' := state startQuiz threeCards in
  obs startQuiz threeCards = []
  ∧ mainContainer_hidden st' = true
  ∧ quizContainer_hidden st' = false
  ∧ currentQuestionIndex st' = 0%nat
  ∧ score st' = 0%nat
  ∧ coinsEarnedThisSession st' = 0
  ∧ currentDeck st' = currentDeck threeCards
  ∧ objects st' = objects threeCards
  ∧ coins st' = coins threeCards
  ∧ localStorage st' = localStorage threeCards
  ∧ ∃ l, currentDeck threeCards !! 0%nat = Some l
         ∧ showsQuestion st' 0 (length (currentDeck threeCards))
             (deref threeCards l).
Proof. apply (startQuiz_begins threeCards). vm_compute. lia. Defined.

(** ** Stories without characters, and failed stories *)

(** X18: a narrative without characters (the [characters] field missing
    or empty, or a response that is not an object) is a complete story:
    the story text is shown, no image request is made, the story award is
    made once, the gallery and the deck stay empty, the gallery title and
    the review button stay hidden, the facts typed stay in the input and
    the loading state is cleared. *)
Theorem story_without_characters (st : State) (text : string)
  (r : NarrativeOutcome) (data : Narrative) :
  idle st →
  Js.trim text ≠ "" →
  parsedData r = inr data →
  default [] (characters data) = [] →
  let es := [InputFacts text; ClickGenerate; NarrativeSettled r] in
  let st' := state (run es) st in
  obs (run es) st
  = [GenerateContent (Js.trim text); Awarded COINS_PER_STORY;
     SetTimeout RemoveAwarded 600]
  ∧ storyOutput st' = StoryText (story data)
  ∧ characterGallery st' = []
  ∧ galleryTitle_hidden st' = true
  ∧ startReviewButton_hidden st' = true
  ∧ currentDeck st' = []
  ∧ factsInput_value st' = text
  ∧ coins st' = Js.add (coins st) (Js.Int COINS_PER_STORY)
  ∧ isLoading st' = false
  ∧ generateButton_disabled st' = false
  ∧ buttonText st' = "Weave a Story".
Proof.
  intros (Hm & Hb & Hl & Hn & Hp) Htext Hr Hds es st'. subst es st'.
  rewrite !state_run_cons, !obs_run_cons.
  pose proof (dispatch_InputFacts st text Hm) as [H1s H1o].
  rewrite H1s, H1o. clear H1s H1o.
  set (st1 := set_factsInput_value text st).
  pose proof (dispatch_ClickGenerate st1 Hm Hb Hl Htext) as [H2s H2o].
  rewrite H2s, H2o. clear H2s H2o.
  match goal with |- context [state (dispatch (NarrativeSettled _)) ?s] =>
    set (st2 := s) end.
  destruct (exec_ext _ _ _ (dispatch_NarrativeSettled st2 r eq_refl))
    as [-> ->].
  unfold generateStoryAndImages_resume. rewrite Hr.
  autorewrite with handler. rewrite Hds. cbn [length seq].
  by handler_eval.
Qed.

Lemma story_without_characters_witness :
  let es := [InputFacts "Fact A"; ClickGenerate;
             NarrativeSettled NarrativeNotObject] in
  let st' := state (run es) firstVisit in
  obs (run es) firstVisit
  = [GenerateContent (Js.trim "Fact A"); Awarded COINS_PER_STORY;
     SetTimeout RemoveAwarded 600]
  ∧ storyOutput st' = StoryText ""
  ∧ characterGallery st' = []
  ∧ galleryTitle_hidden st' = true
  ∧ startReviewButton_hidden st' = true
  ∧ currentDeck st' = []
  ∧ factsInput_value st' = "Fact A"
  ∧ coins st' = Js.add (coins firstVisit) (Js.Int COINS_PER_STORY)
  ∧ isLoading st' = false
  ∧ generateButton_disabled st' = false
  ∧ buttonText st' = "Weave a Story".
Proof.
  apply (story_without_characters firstVisit "Fact A" NarrativeNotObject
           {| story := ""; characters := None |});
    by vm_compute.
Defined.

(** X19: a failed narrative request erases the facts typed: afterwards
    the input is empty, the submit button is back at its resting label
    with the spinner hidden, and a further click on it only shows the
    validation message for empty input. *)
Theorem failed_story_clears_input (st : State) (text : string)
  (cause : NarrativeFailure) :
  idle st →
  Js.trim text ≠ "" →
  let es := [InputFacts text; ClickGenerate;
             NarrativeSettled (NarrativeFailed cause)] in
  let st' := state (run es) st in
  factsInput_value st' = ""
  ∧ buttonText st' = "Weave a Story"
  ∧ spinner_hidden st' = true
  ∧ mainContainer_hidden st' = false
  ∧ exec (dispatch ClickGenerate) st' = (st', [Alert emptyFactsMessage]).
Proof.
  intros (Hm & Hb & Hl & Hn & Hp) Htext es st'. subst es st'.
  rewrite !state_run_cons.
  pose proof (dispatch_InputFacts st text Hm) as [H1s _].
  rewrite H1s. clear H1s.
  set (st1 := set_factsInput_value text st).
  pose proof (dispatch_ClickGenerate st1 Hm Hb Hl Htext) as [H2s _].
  rewrite H2s. clear H2s.
  match goal with |- context [state (dispatch (NarrativeSettled _)) ?s] =>
    set (st2 := s) end.
  destruct (exec_ext _ _ _
              (dispatch_NarrativeSettled st2 (NarrativeFailed cause)
                 eq_refl)) as [-> _].
  rewrite state_bind, state_modify.
  destruct (resume_failed_frame (NarrativeFailed cause) cause
              (set_pendingNarrative false st2) eq_refl) as (Hv & Hmv & _).
  cbn [run]. autorewrite with handler.
  set (st3 := state (generateStoryAndImages_resume _) _) in *.
  assert (factsInput_value st3 = "" ∧ buttonText st3 = "Weave a Story"
          ∧ spinner_hidden st3 = true ∧ mainContainer_hidden st3 = false
          ∧ generateButton_disabled st3 = false ∧ isLoading st3 = false)
    as (H1 & H2 & H3 & H4 & H5 & H6).
  { rewrite Hv, Hmv. simpl. by rewrite Hm. }
  split_and!; try done.
  unfold exec. rewrite state_dispatch, obs_dispatch, H4, H5. simpl.
  apply generateStoryAndImages_empty; [done|by rewrite H1].
Qed.

Lemma failed_story_clears_input_witness :
  let es := [InputFacts "Fact A"; ClickGenerate;
             NarrativeSettled (NarrativeFailed TransportError)] in
  let st' := state (run es) firstVisit in
  factsInput_value st' = ""
  ∧ buttonText st' = "Weave a Story"
  ∧ spinner_hidden st' = true
  ∧ mainContainer_hidden st' = false
  ∧ exec (dispatch ClickGenerate) st' = (st', [Alert emptyFactsMessage]).
Proof.
  apply (failed_story_clears_input firstVisit "Fact A" TransportError);
    by vm_compute.
Defined.

(** ** The image requests and the gallery *)

Lemma fanOut_view (chars : list loc) (index : nat) (st : State) :
  let st' := state (fanOut chars index) st in
  obs (fanOut chars index) st
  = (fun c => GenerateImages (imagePrompt (deref st c) +:+ imageStyle))
      <$> chars
  ∧ cards st'
    = cards st ++ ((fun c => loadingMarkup (fact (deref st c))) <$> chars)
  ∧ characterGallery st'
    = characterGallery st ++ seq (length (cards st)) (length chars)
  ∧ buttonText st'
    = match last chars with
      | Some c => "Creating " +:+ characterName (deref st c) +:+ "..."
      | None => buttonText st
      end
  ∧ storyOutput st' = storyOutput st
  ∧ galleryTitle_hidden st' = galleryTitle_hidden st
  ∧ factsInput_value st' = factsInput_value st.
Proof.
  revert index st. induction chars as [|c chars IH]; intros index st.
  - simpl. unfold_handler. simpl. by rewrite !app_nil_r.
  - cbn [fanOut]. rewrite !state_bind, !obs_bind.
    rewrite state_get, result_get, obs_get.
    set (label := "Creating " +:+ characterName (deref st c) +:+ "...").
    set (st0 := state (setLoading true label) st).
    set (st1 := state (generateImage c index) st0).
    assert (objects st1 = objects st
            ∧ cards st1 = cards st ++ [loadingMarkup (fact (deref st c))]
            ∧ characterGallery st1
              = characterGallery st ++ [length (cards st)]
            ∧ buttonText st1 = label
            ∧ storyOutput st1 = storyOutput st
            ∧ galleryTitle_hidden st1 = galleryTitle_hidden st
            ∧ factsInput_value st1 = factsInput_value st
            ∧ obs (setLoading true label) st = []
            ∧ obs (generateImage c index) st0
              = [GenerateImages (imagePrompt (deref st c) +:+ imageStyle)])
      as (Hobj & Hc1 & Hg1 & Hb1 & Hs1 & Ht1 & Hf1 & -> & ->).
    { subst st1 st0. clear IH. by handler_eval. }
    destruct (IH (S index) st1) as (Ho & Hc & Hg & Hbt & Hso & Hgt & Hf).
    rewrite Ho, Hc, Hg, Hbt, Hso, Hgt, Hf.
    unfold deref. rewrite Hobj, Hc1, Hg1, Hb1, Hs1, Ht1, Hf1.
    rewrite length_app, <- !app_assoc. simpl.
    replace (length (cards st) + 1)%nat with (S (length (cards st))) by lia.
    split_and!; try done. subst label. unfold deref.
    destruct chars as [|c' chars]; [done|]. rewrite last_cons_cons.
    destruct (last (c' :: chars)) eqn:Hlast; [done|].
    by apply last_None in Hlast.
Qed.

(** The objects created for a list of descriptors, read through their
    locations. *)
Lemma fmap_new_objects {A} (f : Character → A) (objs : list Character)
  (ds : list Descriptor) (st : State) :
  objects st = objs ++ (characterOf <$> ds) →
  (fun c => f (deref st c)) <$> seq (length objs) (length ds)
  = (fun d => f (characterOf d)) <$> ds.
Proof.
  intros Hobj. apply list_eq. intros i.
  rewrite !list_lookup_fmap.
  destruct (ds !! i) as [d|] eqn:Hd.
  - rewrite lookup_seq_lt by by eapply lookup_lt_Some. simpl. f_equal.
    f_equal. unfold deref. apply list_lookup_total_correct.
    rewrite Hobj, lookup_app_r by lia.
    replace (length objs + i - length objs)%nat with i by lia.
    by rewrite list_lookup_fmap, Hd.
  - rewrite lookup_seq_ge; [done|]. by apply lookup_ge_None.
Qed.

(** The narrative has settled with at least one character: what the
    handler does up to the point where it waits for the images. *)
Lemma resume_view (st : State) (data : Narrative) (ds : list Descriptor)
  (d : Descriptor) :
  characters data = Some ds →
  last ds = Some d →
  let m := generateStoryAndImages_resume (NarrativeOk data) in
  let st' := state m st in
  obs m st
  = (fun d => GenerateImages (d_imagePrompt d +:+ imageStyle)) <$> ds
  ∧ pendingImages st' = pendingImages st ++ requestsOf st (length ds)
  ∧ cards st' = cards st ++ ((fun d => loadingMarkup (d_fact d)) <$> ds)
  ∧ characterGallery st'
    = characterGallery st ++ seq (length (cards st)) (length ds)
  ∧ storyOutput st' = StoryText (story data)
  ∧ galleryTitle_hidden st' = false
  ∧ buttonText st' = creatingLabel d
  ∧ isLoading st' = true
  ∧ startReviewButton_hidden st' = startReviewButton_hidden st.
Proof.
  intros Hds Hlast m st'. subst m st'.
  unfold generateStoryAndImages_resume. cbn [parsedData]. rewrite Hds.
  change (default [] (Some ds)) with ds. autorewrite with handler.
  assert (ds !! (length ds - 1)%nat = Some d) as Hd.
  { rewrite <- Hlast, last_lookup. f_equal. lia. }
  pose proof (lookup_lt_Some _ _ _ Hd) as Hlen.
  remember (seq (length (objects st)) (length ds)) as chars eqn:Hchars.
  destruct chars as [|c cs].
  { destruct ds; [simpl in Hlen; lia|done]. }
  rewrite Hchars. autorewrite with handler.
  match goal with |- context [state (fanOut ?cs ?i) ?s] =>
    destruct (fanOut_view cs i s) as (Ho & Hc & Hg & Hbt & Hso & Hgt & _);
    destruct (fanOut_spec cs i s) as (_ & _ & Hp & _ & _ & Hb);
    pose proof (fanOut_loading cs i s) as Hload;
    set (s0 := s) in *
  end.
  apply besideImages_inv in Hb as (_ & Hrev & _).
  rewrite Ho, Hc, Hg, Hbt, Hso, Hgt, Hrev, Hload, Hp.
  assert (objects s0 = objects st ++ (characterOf <$> ds)) as Hobj by done.
  rewrite (fmap_new_objects
             (fun c => GenerateImages (imagePrompt c +:+ imageStyle))
             (objects st) ds s0 Hobj).
  rewrite (fmap_new_objects (fun c => loadingMarkup (fact c))
             (objects st) ds s0 Hobj).
  rewrite length_seq, <- Hchars. cbn [app]. split_and!; try done.
  - rewrite Hchars. simpl. f_equal.
    exact (imap_fanOutRequest st (length ds)).
  - rewrite Hchars.
    assert (last (A := loc) (seq (length (objects st)) (length ds))
            = Some (length (objects st) + (length ds - 1))%nat) as ->.
    { replace (length ds) with (S (length ds - 1)) at 1 by lia.
      by rewrite seq_S, last_snoc. }
    assert (deref s0 (length (objects st) + (length ds - 1))%nat
            = characterOf d) as ->; [|done].
    unfold deref. apply list_lookup_total_correct.
    rewrite Hobj, lookup_app_r by lia.
    replace (length (objects st) + (length ds - 1)
             - length (objects st))%nat
      with (length ds - 1)%nat by lia.
    by rewrite list_lookup_fmap, Hd.
Qed.

(** X20: when the narrative request settles with at least one character,
    one image request per character is issued at once, in the order of
    the characters, each with the character's image prompt followed by
    the fixed style; for each a card is appended to the gallery, in the
    same order, and the markup assigned to the card is the placeholder
    template with the character's fact put in as it is (the browser
    parses the markup, so that the card shows the fact as written only
    when the fact holds no markup).  The story text and the gallery
    title are shown, the submit button names the last character, the
    loading flag stays set and the review button is not touched. *)
Theorem image_requests_issued (st : State) (data : Narrative)
  (ds : list Descriptor) (d : Descriptor) :
  pendingNarrative st = true →
  characters data = Some ds →
  last ds = Some d →
  let e := NarrativeSettled (NarrativeOk data) in
  let st' := state (dispatch e) st in
  obs (dispatch e) st
  = (fun d => GenerateImages (d_imagePrompt d +:+ imageStyle)) <$> ds
  ∧ pendingImages st' = pendingImages st ++ requestsOf st (length ds)
  ∧ cards st' = cards st ++ ((fun d => loadingMarkup (d_fact d)) <$> ds)
  ∧ characterGallery st'
    = characterGallery st ++ seq (length (cards st)) (length ds)
  ∧ storyOutput st' = StoryText (story data)
  ∧ galleryTitle_hidden st' = false
  ∧ buttonText st' = creatingLabel d
  ∧ isLoading st' = true
  ∧ startReviewButton_hidden st' = startReviewButton_hidden st.
Proof.
  intros Hn Hds Hlast e st'. subst e st'.
  destruct (exec_ext _ _ _
              (dispatch_NarrativeSettled st (NarrativeOk data) Hn))
    as [-> ->].
  autorewrite with handler. cbn [app].
  exact (resume_view (set_pendingNarrative false st) data ds d Hds Hlast).
Qed.

Lemma image_requests_issued_witness :
  let data := {| story := "Once"; characters := Some threeDescriptors |} in
  let e := NarrativeSettled (NarrativeOk data) in
  let st' := state (dispatch e) weaving in
  obs (dispatch e) weaving
  = (fun d => GenerateImages (d_imagePrompt d +:+ imageStyle))
      <$> threeDescriptors
  ∧ pendingImages st'
    = pendingImages weaving
        ++ requestsOf weaving (length threeDescriptors)
  ∧ cards st'
    = cards weaving
        ++ ((fun d => loadingMarkup (d_fact d)) <$> threeDescriptors)
  ∧ characterGallery st'
    = characterGallery weaving
        ++ seq (length (cards weaving)) (length threeDescriptors)
  ∧ storyOutput st' = StoryText "Once"
  ∧ galleryTitle_hidden st' = false
  ∧ buttonText st' = creatingLabel (descriptorOf "C")
  ∧ isLoading st' = true
  ∧ startReviewButton_hidden st' = startReviewButton_hidden weaving.
Proof.
  apply (image_requests_issued weaving
           {| story := "Once"; characters := Some threeDescriptors |}
           threeDescriptors (descriptorOf "C")); reflexivity.
Defined.

Lemma fact_alter_setImageUrl (url : string) (l l' : loc)
  (objs : list Character) :
  fact (alter (setImageUrl url) l objs !!! l') = fact (objs !!! l').
Proof.
  rewrite list_lookup_total_alter. case_decide as H; [|done].
  by destruct H as [-> _].
Qed.

(** One image request settles, with its deck entry in place. *)
Lemma image_settled_card (st : State) (req : ImageRequest)
  (r : ImageOutcome) :
  req ∈ pendingImages st →
  is_Some (currentDeck st !! index req) →
  let st' := state (dispatch (ImageSettled req r)) st in
  cards st'
  = <[card req := settledCard (fact (deref st (characterData req))) r]>
      (cards st)
  ∧ (∀ l, fact (deref st' l) = fact (deref st l))
  ∧ currentDeck st' = currentDeck st
  ∧ characterGallery st' = characterGallery st
  ∧ pendingImages st' = removeOne req (pendingImages st).
Proof.
  intros Hin [l Hl] st'. subst st'.
  destruct (image_settled_spec st req r Hin) as [-> _].
  set (st0 := set_pendingImages (removeOne req (pendingImages st)) st).
  assert (let st1 := state (generateImage_resume req r) st0 in
          cards st1
          = <[card req
              := settledCard (fact (deref st (characterData req))) r]>
              (cards st)
          ∧ (∀ l, fact (deref st1 l) = fact (deref st l))
          ∧ currentDeck st1 = currentDeck st
          ∧ characterGallery st1 = characterGallery st
          ∧ pendingImages st1 = removeOne req (pendingImages st))
    as (Hc & Hf & Hd & Hg & Hp).
  { subst st0. unfold generateImage_resume. autorewrite with handler.
    simpl. rewrite Hl. destruct r; handler_eval; split_and!; try done.
    intros l'. unfold deref. simpl. apply fact_alter_setImageUrl. }
  set (st1 := state (generateImage_resume req r) st0) in *.
  clearbody st1.
  destruct (pendingImages st1) eqn:Hps; [|by rewrite Hps].
  rewrite <- Hc, <- Hd, <- Hg, <- Hp.
  by split_and!.
Qed.

Lemma run_settles_cards (settles : list (ImageRequest * ImageOutcome))
  (st : State) :
  settles.*1 ≡ₚ pendingImages st →
  NoDup (card <$> settles.*1) →
  (∀ s, s ∈ settles →
        is_Some (currentDeck st !! index s.1)
        ∧ (card s.1 < length (cards st))%nat) →
  let st' := state (run (imageEvents settles)) st in
  (∀ req r, (req, r) ∈ settles →
     cards st' !! card req
     = Some (settledCard (fact (deref st (characterData req))) r))
  ∧ (∀ c, c ∉ card <$> settles.*1 → cards st' !! c = cards st !! c)
  ∧ characterGallery st' = characterGallery st.
Proof.
  revert st. induction settles as [|[req r] settles IH]; intros st.
  { intros _ _ _. simpl. split_and!; try done.
    by intros ? ? ?%elem_of_nil. }
  intros Hperm Hnd Hall st'. subst st'. simpl in Hperm.
  rewrite !fmap_cons in Hnd. apply NoDup_cons in Hnd as [Hfresh Hnd].
  assert (req ∈ pendingImages st) as Hreq.
  { rewrite <- Hperm. by left. }
  destruct (Hall (req, r)) as [Hdeck Hcard]; [by left|].
  simpl in Hdeck, Hcard, Hfresh.
  cbn [imageEvents fmap list_fmap fst snd].
  fold (imageEvents settles). rewrite state_run_cons.
  destruct (image_settled_card st req r Hreq Hdeck)
    as (Hc & Hf & Hd & Hg & Hp).
  set (st1 := state (dispatch (ImageSettled req r)) st) in *.
  destruct (IH st1) as (H1 & H2 & H3).
  { rewrite Hp. apply (Permutation_cons_inv (a := req)).
    by rewrite <- removeOne_Permutation. }
  { done. }
  { intros s Hs. destruct (Hall s) as [? ?]; [by right|].
    by rewrite Hd, Hc, length_insert. }
  split_and!.
  - intros req' r' [[= -> ->]|Hin]%elem_of_cons.
    + rewrite H2 by done. rewrite Hc. by apply list_lookup_insert_eq.
    + rewrite (H1 req' r' Hin). by rewrite Hf.
  - intros c [Hne Hc']%not_elem_of_cons.
    rewrite H2 by done. rewrite Hc. by apply list_lookup_insert_ne.
  - by rewrite H3.
Qed.

Lemma requestsOf_card (st : State) (n : nat) :
  card <$> requestsOf st n = seq (length (cards st)) n.
Proof.
  unfold requestsOf. rewrite <- list_fmap_compose.
  apply list_eq. intros i. rewrite list_lookup_fmap.
  destruct (decide (i < n)%nat).
  - by rewrite !lookup_seq_lt.
  - by rewrite !lookup_seq_ge by lia.
Qed.

Lemma elem_of_requestsOf (st : State) (n : nat) (req : ImageRequest) :
  req ∈ requestsOf st n ↔ ∃ i, (i < n)%nat ∧ req = requestOf st i.
Proof.
  unfold requestsOf. rewrite list_elem_of_fmap.
  split; intros (i & H1 & H2); exists i.
  - apply elem_of_seq in H2. split; [lia|done].
  - split; [done|]. apply elem_of_seq. lia.
Qed.

(** X21: once all image requests of a story have settled, in whatever
    order, the gallery holds one card per character in the order of the
    narrative response, and the markup last assigned to the card of the
    character at index [i] is the image template with the address of the
    generated image and the character's fact put in as they are, or the
    failure template with that fact when its request failed (the browser
    parses the markup, so that the card shows the fact as written only
    when the fact holds no markup). *)
Theorem gallery_cards (st : State) (text story : string)
  (ds : list Descriptor) (settles : list (ImageRequest * ImageOutcome))
  (i : nat) (d : Descriptor) (r : ImageOutcome) :
  idle st →
  Js.trim text ≠ "" →
  settles.*1 ≡ₚ requestsOf st (length ds) →
  ds !! i = Some d →
  (requestOf st i, r) ∈ settles →
  let data := {| story := story; characters := Some ds |} in
  let st' := state (run (storyEvents text (NarrativeOk data) settles)) st in
  characterGallery st' = seq (length (cards st)) (length ds)
  ∧ characterGallery st' !! i = Some (length (cards st) + i)%nat
  ∧ cards st' !! (length (cards st) + i)%nat
    = Some (settledCard (d_fact d) r).
Proof.
  intros (Hm & Hb & Hl & Hn & Hp) Htext Hperm Hd Hin data st'.
  subst st'. unfold storyEvents. rewrite !state_run_cons.
  pose proof (dispatch_InputFacts st text Hm) as [H1s _].
  rewrite H1s. clear H1s.
  set (st1 := set_factsInput_value text st).
  pose proof (dispatch_ClickGenerate st1 Hm Hb Hl Htext) as [H2s _].
  rewrite H2s. clear H2s.
  match goal with |- context [state (dispatch (NarrativeSettled _)) ?s] =>
    set (st2 := s) end.
  pose proof (lookup_lt_Some _ _ _ Hd) as Hi.
  destruct (last ds) as [dl|] eqn:Hlast.
  2:{ apply last_None in Hlast. subst ds. simpl in Hi. lia. }
  destruct (dispatch_parsed st2 (NarrativeOk data) data)
    as (H3o & H3d & H3p & _); [done..|].
  destruct (exec_ext _ _ _
              (dispatch_NarrativeSettled st2 (NarrativeOk data) eq_refl))
    as [H3s _].
  destruct (resume_view (set_pendingNarrative false st2) data ds dl
              eq_refl Hlast)
    as (_ & _ & H3c & H3g & _).
  cbn zeta in H3o, H3d, H3p, H3c, H3g.
  rewrite state_bind, state_modify in H3s. rewrite <- H3s in H3c, H3g.
  set (st3 := state (dispatch (NarrativeSettled (NarrativeOk data))) st2)
    in *.
  change (default [] (characters data)) with ds in *.
  change (objects st2) with (objects st) in *.
  change (pendingImages st2) with (pendingImages st) in *.
  change (requestsOf st2 (length ds)) with (requestsOf st (length ds)) in *.
  change (cards (set_pendingNarrative false st2)) with (cards st) in *.
  change (characterGallery (set_pendingNarrative false st2))
    with (@nil cardRef) in *.
  rewrite Hp in H3p. simpl in H3p, H3g.
  destruct (run_settles_cards settles st3) as (Hcards & _ & Hgallery).
  { by rewrite H3p. }
  { rewrite Hperm, requestsOf_card. apply NoDup_seq. }
  { intros s Hs.
    assert (s.1 ∈ requestsOf st (length ds)) as Hreq.
    { rewrite <- Hperm. by apply list_elem_of_fmap_2. }
    apply elem_of_requestsOf in Hreq as (j & Hj & ->).
    rewrite H3d, H3c, length_app, length_fmap. simpl. split; [|lia].
    apply lookup_lt_is_Some. by rewrite length_seq. }
  rewrite Hgallery, H3g. split_and!; [done|by apply lookup_seq_lt|].
  pose proof (Hcards _ _ Hin) as Hcard. simpl in Hcard.
  etrans; [exact Hcard|]. do 2 f_equal.
  assert (deref st3 (length (objects st) + i)%nat = characterOf d)
    as ->; [|done].
  unfold deref. apply list_lookup_total_correct.
  rewrite H3o, lookup_app_r by lia.
  replace (length (objects st) + i - length (objects st))%nat with i by lia.
  by rewrite list_lookup_fmap, Hd.
Qed.

Lemma gallery_cards_witness :
  let data := {| story := "Once upon a time";
                 characters := Some threeDescriptors |} in
  let st' :=
    state (run (storyEvents "A, B, C" (NarrativeOk data) reverseOrder))
      firstVisit in
  characterGallery st'
  = seq (length (cards firstVisit)) (length threeDescriptors)
  ∧ characterGallery st' !! 0%nat = Some (length (cards firstVisit) + 0)%nat
  ∧ cards st' !! (length (cards firstVisit) + 0)%nat
    = Some (settledCard (d_fact (descriptorOf "A")) ImageFailed).
Proof.
  apply (gallery_cards firstVisit "A, B, C" "Once upon a time"
           threeDescriptors reverseOrder 0 (descriptorOf "A") ImageFailed).
  - by vm_compute.
  - by vm_compute.
  - apply (bool_decide_unpack _). vm_compute. reflexivity.
  - reflexivity.
  - apply (bool_decide_unpack _). vm_compute. reflexivity.
Defined.

(** ** A story with a single character *)

Lemma imageEvents_main (settles : list (ImageRequest * ImageOutcome))
  (st : State) :
  mainContainer_hidden (state (run (imageEvents settles)) st)
  = mainContainer_hidden st.
Proof.
  revert st. induction settles as [|[req r] settles IH]; intros st; [done|].
  cbn [imageEvents fmap list_fmap fst snd]. fold (imageEvents settles).
  rewrite state_run_cons, IH, state_dispatch.
  case_decide; [|by orphan_path req r st]. autorewrite with handler.
  set (st0 := set_pendingImages (removeOne req (pendingImages st)) st).
  destruct (generateImage_resume_frame req r st0) as (_ & Hm & _).
  set (st1 := state (generateImage_resume req r) st0) in *.
  destruct (pendingImages st1); autorewrite with handler.
  - handler_eval. by rewrite Hm.
  - by rewrite Hm.
Qed.

(** X22: after a story with a single character the review button is
    shown, but the deck has one entry and a click on the button only shows
    the message that at least 2 characters are needed; the state stays as
    it is. *)
Theorem single_character_review_refused (st : State) (text story : string)
  (d : Descriptor) (r : ImageOutcome) :
  idle st →
  Js.trim text ≠ "" →
  let data := {| story := story; characters := Some [d] |} in
  let st' := state (run (storyEvents text (NarrativeOk data)
                           [(requestOf st 0, r)])) st in
  startReviewButton_hidden st' = false
  ∧ length (currentDeck st') = 1%nat
  ∧ exec (dispatch ClickStartReview) st' = (st', [Alert smallDeckMessage]).
Proof.
  intros Hidle Htext data st'.
  destruct (story_run st text (NarrativeOk data) data
              [(requestOf st 0, r)] Hidle Htext eq_refl)
    as (Hdeck & _ & _ & _ & _ & _ & Hrev); [done|].
  fold st' in Hdeck, Hrev. specialize (Hrev ltac:(done)).
  assert (mainContainer_hidden st' = false) as Hm.
  { destruct Hidle as (Hm & Hb & Hl & Hn & Hp).
    subst st'. unfold storyEvents. rewrite !state_run_cons, imageEvents_main.
    pose proof (dispatch_InputFacts st text Hm) as [-> _].
    set (st1 := set_factsInput_value text st).
    pose proof (dispatch_ClickGenerate st1 Hm Hb Hl Htext) as [-> _].
    match goal with
    | |- context [state (dispatch (NarrativeSettled ?r)) ?s] =>
        destruct (exec_ext _ _ _ (dispatch_NarrativeSettled s r eq_refl))
          as [-> _]
    end.
    autorewrite with handler.
    match goal with
    | |- context [state (generateStoryAndImages_resume _) ?s] =>
        destruct (resume_parsed_control s (NarrativeOk data) data eq_refl)
          as (Hmain & _)
    end.
    etrans; [exact Hmain|done]. }
  rewrite Hdeck. split_and!; [done..|].
  unfold exec. rewrite state_dispatch, obs_dispatch, Hm, Hrev. simpl.
  unfold startQuiz. unfold_handler. simpl.
  rewrite Hdeck. simpl. done.
Qed.

Lemma single_character_review_refused_witness :
  let data := {| story := "Once"; characters := Some [descriptorOf "A"] |} in
  let st' := state (run (storyEvents "A" (NarrativeOk data)
                           [(requestOf firstVisit 0, ImageFailed)]))
               firstVisit in
  startReviewButton_hidden st' = false
  ∧ length (currentDeck st') = 1%nat
  ∧ exec (dispatch ClickStartReview) st' = (st', [Alert smallDeckMessage]).
Proof.
  apply (single_character_review_refused firstVisit "A" "Once"
           (descriptorOf "A") ImageFailed); by vm_compute.
Defined.

(** ** Leaving the summary *)

(** X25: the reset button of the summary starts over: the summary is
    hidden and the authoring view shown with the placeholder text, an
    empty gallery and an empty input; the script's variables (with the
    deck and the balance), the quiz view and the browser state are as
    before; and since the review button is hidden, the deck just reviewed
    cannot be reviewed again by clicking it. *)
Theorem reset_starts_over (st : State) :
  quizSummary_hidden st = false →
  let st' := state (dispatch ClickReset) st in
  obs (dispatch ClickReset) st = []
  ∧ quizSummary_hidden st' = true
  ∧ mainContainer_hidden st' = false
  ∧ storyOutput st' = StoryPlaceholder
  ∧ characterGallery st' = []
  ∧ galleryTitle_hidden st' = true
  ∧ startReviewButton_hidden st' = true
  ∧ factsInput_value st' = ""
  ∧ vars st' = vars st
  ∧ quizView st' = quizView st
  ∧ browser st' = browser st
  ∧ exec (dispatch ClickStartReview) st' = (st', []).
Proof.
  intros Hs st'. subst st'.
  rewrite state_dispatch, obs_dispatch, Hs. unfold resetApp.
  handler_eval. split_and!; try done.
Qed.

Lemma reset_starts_over_witness :
  let st := state (run reviewEvents) firstVisit in
  let st' := state (dispatch ClickReset) st in
  obs (dispatch ClickReset) st = []
  ∧ quizSummary_hidden st' = true
  ∧ mainContainer_hidden st' = false
  ∧ storyOutput st' = StoryPlaceholder
  ∧ characterGallery st' = []
  ∧ galleryTitle_hidden st' = true
  ∧ startReviewButton_hidden st' = true
  ∧ factsInput_value st' = ""
  ∧ vars st' = vars st
  ∧ quizView st' = quizView st
  ∧ browser st' = browser st
  ∧ exec (dispatch ClickStartReview) st' = (st', []).
Proof.
  apply (reset_starts_over (state (run reviewEvents) firstVisit)).
  reflexivity.
Defined.

(** ** Every order of the options can occur *)

Lemma randomIndex_exec (k : nat) (st : State) :
  result (randomIndex k) st
  = Js.randomBelow k (randomSource st (randomPos st))
  ∧ state (randomIndex k) st = set_randomPos (S (randomPos st)) st.
Proof. done. Qed.

Section ShuffleOrders.

Context {A : Type}.
Implicit Types a rest : list A.

Lemma snoc_length a (n : nat) :
  length a = S n → ∃ front x, a = front ++ [x] ∧ length front = n.
Proof.
  destruct a as [|y a _] using rev_ind; [done|].
  rewrite length_app. simpl. intros ?. exists a, y. split; [done|lia].
Qed.

(** The loop from [i] down leaves the elements behind index [i] alone,
    and with suitable draws it puts the [i + 1] elements in front into any
    order wanted. *)
Lemma shuffleFrom_any_order (i : nat) a a' rest :
  length a = S i →
  a ≡ₚ a' →
  ∃ draws : list nat,
    ∀ st : State, (∀ t, (t < i)%nat →
                randomSource st (randomPos st + t) = draws !!! t) →
          result (shuffleFrom i (a ++ rest)) st = a' ++ rest.
Proof.
  revert a a' rest. induction i as [|i IH]; intros a a' rest Hlen Hperm.
  { exists []. intros st _. simpl.
    destruct a as [|x [|? ?]]; try done.
    by apply Permutation_singleton_l in Hperm as ->. }
  assert (length a' = S (S i)) as Hlen' by by rewrite <- Hperm.
  destruct (snoc_length a (S i) Hlen) as (front & y & -> & Hfront).
  destruct (snoc_length a' (S i) Hlen') as (front' & x & -> & Hfront').
  assert (x ∈ front ++ [y]) as Hx.
  { rewrite Hperm. apply elem_of_app. right. by left. }
  apply list_elem_of_lookup in Hx as [j Hj].
  pose proof (lookup_lt_Some _ _ _ Hj) as Hjlt.
  rewrite length_app in Hjlt. simpl in Hjlt.
  set (b := Js.swap ((front ++ [y]) ++ rest) (S i) j).
  assert (∃ mixed, b = (mixed ++ [x]) ++ rest ∧ length mixed = S i)
    as (mixed & Hb & Hmixed).
  { subst b. unfold Js.swap.
    rewrite <- !app_assoc.
    rewrite (lookup_app_r front) by lia.
    replace (S i - length front)%nat with 0%nat by lia. simpl.
    assert ((front ++ y :: rest) !! j = Some x) as ->.
    { destruct (decide (j < length front)%nat).
      - rewrite lookup_app_l by done. by rewrite lookup_app_l in Hj.
      - rewrite lookup_app_r by lia. rewrite lookup_app_r in Hj by lia.
        replace (j - length front)%nat with 0%nat in * by lia.
        simpl in *. done. }
    replace (S i) with (length front + 0)%nat by lia.
    rewrite insert_app_r. simpl.
    destruct (decide (j < length front)%nat).
    - exists (<[j := y]> front). rewrite length_insert.
      split; [|done]. rewrite insert_app_l by done.
      by rewrite <- app_assoc.
    - exists front. split; [|done].
      rewrite lookup_app_r in Hj by lia.
      replace (j - length front)%nat with 0%nat in Hj by lia.
      injection Hj as ->. rewrite <- app_assoc.
      apply list_insert_id. rewrite lookup_app_r by lia.
      by replace (j - length front)%nat with 0%nat by lia. }
  assert (mixed ≡ₚ front') as Hmix.
  { apply (Permutation_app_inv_r ([x] ++ rest)).
    rewrite !app_assoc, <- Hb, <- Hperm. subst b.
    apply swap_Permutation. }
  destruct (IH mixed front' ([x] ++ rest) Hmixed Hmix) as [draws Hdraws].
  exists (j :: draws). intros st Hst.
  cbn [shuffleFrom]. rewrite result_bind.
  assert (result (randomIndex (S i + 1)) st = j) as ->.
  { rewrite (proj1 (randomIndex_exec _ st)). unfold Js.randomBelow.
    specialize (Hst 0%nat ltac:(lia)). rewrite Nat.add_0_r in Hst.
    rewrite Hst. change ((j :: draws) !!! 0%nat) with j.
    apply Nat.mod_small. lia. }
  fold b. rewrite Hb, <- !app_assoc.
  rewrite Hdraws; [done|].
  intros t Ht. rewrite (proj2 (randomIndex_exec _ st)). simpl.
  specialize (Hst (S t) ltac:(lia)).
  by replace (S (randomPos st + t)) with (randomPos st + S t)%nat by lia.
Qed.

End ShuffleOrders.

(** X23: the shuffle loop can produce every order: for every arrangement
    of the elements of an array there is a random source with which
    [shuffle] returns that arrangement. *)
Theorem shuffle_any_order {A} (a a' : list A) (st : State) :
  a ≡ₚ a' →
  ∃ random, result (shuffle a) (set_randomSource random st) = a'.
Proof.
  intros Hperm. unfold shuffle.
  destruct a as [|x a].
  { apply Permutation_nil_l in Hperm. subst a'. exists id. reflexivity. }
  destruct (shuffleFrom_any_order (length (x :: a) - 1) (x :: a) a' [])
    as [draws Hdraws]; [simpl; lia|done|].
  exists (fun t => draws !!! (t - randomPos st)%nat).
  rewrite !app_nil_r in Hdraws. apply Hdraws.
  intros t _. simpl. f_equal. lia.
Qed.

(** The loop reads the random source only at the positions it draws
    from. *)
Lemma shuffleFrom_ext {A} (i : nat) (a : list A) (st st' : State) :
  (∀ t, (t < i)%nat →
        randomSource st (randomPos st + t)
        = randomSource st' (randomPos st' + t)) →
  result (shuffleFrom i a) st = result (shuffleFrom i a) st'.
Proof.
  revert a st st'. induction i as [|i IH]; intros a st st' Hsame; [done|].
  cbn [shuffleFrom]. rewrite !result_bind.
  rewrite !(proj1 (randomIndex_exec _ _)), !(proj2 (randomIndex_exec _ _)).
  pose proof (Hsame 0%nat ltac:(lia)) as H0. rewrite !Nat.add_0_r in H0.
  rewrite H0. apply IH. intros t Ht. simpl.
  specialize (Hsame (S t) ltac:(lia)).
  by replace (S (randomPos st + t)) with (randomPos st + S t)%nat by lia;
    replace (S (randomPos st' + t)) with (randomPos st' + S t)%nat by lia.
Qed.

(** X24: the correct answer is not tied to a position: for every position
    among the options there is a random source with which
    [generateMultipleChoice] returns the correct answer at that
    position. *)
Theorem correct_answer_any_position (st : State) (correctAnswer : string)
  (position : nat) :
  (position ≤ length (distractorsOf st correctAnswer) `min` 2)%nat →
  ∃ random,
    result (generateMultipleChoice correctAnswer)
      (set_randomSource random st) !! position
    = Some correctAnswer.
Proof.
  intros Hpos.
  set (D := distractorsOf st correctAnswer) in *.
  set (n1 := (length D - 1)%nat).
  set (st0 := set_randomSource (fun _ => 0%nat) st).
  set (ds0 := result (shuffle D) st0).
  assert (length ds0 = length D) as Hlen0.
  { subst ds0. by rewrite shuffle_Permutation. }
  set (chosen := take 2 ds0).
  assert (position ≤ length chosen)%nat as Hp.
  { subst chosen. rewrite length_take. lia. }
  set (a' := take position chosen ++ [correctAnswer]
               ++ drop position chosen).
  assert (correctAnswer :: chosen ≡ₚ a') as Hperm.
  { subst a'. cbn [app]. rewrite <- Permutation_middle.
    by rewrite take_drop. }
  destruct (shuffleFrom_any_order (length (correctAnswer :: chosen) - 1)
              (correctAnswer :: chosen) a' [])
    as [draws Hdraws]; [simpl; lia|done|].
  rewrite !app_nil_r in Hdraws.
  set (random := fun t =>
         if decide (t < randomPos st + n1)%nat then 0%nat
         else draws !!! (t - (randomPos st + n1))%nat).
  exists random.
  set (st1 := set_randomSource random st).
  assert (result (generateMultipleChoice correctAnswer) st1 = a') as ->.
  { unfold generateMultipleChoice. rewrite !result_bind.
    rewrite result_get, state_get.
    change (filter _ _) with D.
    assert (result (shuffle D) st1 = ds0) as ->.
    { subst ds0. unfold shuffle. apply shuffleFrom_ext.
      intros t Ht. subst st1 st0 random. simpl.
      rewrite decide_True; [done|]. fold n1 in Ht. lia. }
    fold chosen. unfold shuffle at 2.
    apply Hdraws. intros t Ht.
    unfold shuffle.
    destruct (shuffleFrom_exec (length D - 1) D st1) as [-> _].
    subst st1 random. simpl. fold n1.
    rewrite decide_False by lia. f_equal. lia. }
  subst a'. rewrite lookup_app_r by (rewrite length_take; lia).
  rewrite length_take.
  by replace (position - position `min` length chosen)%nat with 0%nat
    by lia.
Qed.

Lemma correct_answer_any_position_witness :
  ∃ random,
    result (generateMultipleChoice "A")
      (set_randomSource random threeCards) !! 2%nat
    = Some "A".
Proof.
  apply (correct_answer_any_position threeCards "A" 2).
  vm_compute. lia.
Defined.

Lemma shuffle_any_order_witness :
  ∃ random,
    result (shuffle ["A"; "B"; "C"]) (set_randomSource random firstVisit)
    = ["C"; "A"; "B"].
Proof.
  apply (shuffle_any_order ["A"; "B"; "C"] ["C"; "A"; "B"] firstVisit).
  apply (bool_decide_unpack _). vm_compute. reflexivity.
Defined.

(** ** Reading a stored text that is not a plain number *)

Section StoredText.

Local Open Scope N_scope.

Lemma pretty_go_app (x : N) (s rest : string) :
  pretty_N_go x (s +:+ rest) = pretty_N_go x s +:+ rest.
Proof.
  revert s. induction (N.lt_wf_0 x) as [x _ IH]. intros s.
  destruct (decide (x = 0)) as [->|Hx]; [done|].
  rewrite !(pretty_N_go_step x) by lia.
  by rewrite <- IH by (apply N.div_lt; lia).
Qed.

Lemma parseDigits_stop (acc : N) (s : string) :
  Js.startsWithDigit s = false → Js.parseDigits acc s = acc.
Proof.
  destruct s as [|c s]; [done|]. simpl.
  destruct (Ascii.is_nat c); [|done].
  intros Hd. by apply bool_decide_eq_false in Hd as [].
Qed.

Lemma parseInt_prefix (n : N) (rest : string) :
  Js.startsWithDigit rest = false →
  Js.parseInt (pretty n +:+ rest) = Js.toNumber (Z.of_N n).
Proof.
  intros Hrest.
  destruct (pretty_head n) as (d & s' & Hd & Hs).
  rewrite Hs.
  change (String (pretty_N_char d) s' +:+ rest)
    with (String (pretty_N_char d) (s' +:+ rest)).
  rewrite parseInt_digit_first by done.
  change (String (pretty_N_char d) (s' +:+ rest))
    with (String (pretty_N_char d) s' +:+ rest).
  rewrite <- Hs. f_equal. f_equal.
  unfold pretty, pretty_N. case_decide as Hn.
  - subst n. simpl. by rewrite parseDigits_stop.
  - rewrite <- (pretty_go_app n "" rest), parseDigits_pretty_go.
    by apply parseDigits_stop.
Qed.

End StoredText.

(** X26: a stored text that starts with the decimal digits of a number
    (at most 20 digits) and goes on with something that is not a digit is
    read as the double nearest to that number: the rest of the text is
    ignored, the balance and the coin display start from that double,
    which is the number itself when it is at most 2^53, and the durable
    store is left as it is until the next award. *)
Theorem stored_text_prefix (main : MainView) (quiz : QuizView)
  (summary : SummaryView) (storage : gmap string string)
  (random : nat → nat) (n : N) (rest : string) :
  storage !! storageKey = Some (pretty n +:+ rest) →
  Js.startsWithDigit rest = false →
  (n < 10 ^ 20)%N →
  let st := state startup (pageLoad main quiz summary storage random) in
  coins st = Js.toNumber (Z.of_N n)
  ∧ ((n ≤ 2 ^ 53)%N → coins st = Js.Int (Z.of_N n))
  ∧ coinCount st = Js.toString (coins st)
  ∧ localStorage st = storage.
Proof.
  intros Hs Hrest _ st.
  assert (coins st = Js.toNumber (Z.of_N n)
          ∧ coinCount st = Js.toString (coins st)
          ∧ localStorage st = storage) as (Hc & Hn & Hl).
  { subst st. unfold startup, loadGameData. handler_eval. rewrite Hs.
    assert (Js.truthy (pretty n +:+ rest) = true) as ->.
    { by destruct (pretty_head n) as (d & s' & _ & ->). }
    by rewrite parseInt_prefix. }
  split_and!; try done.
  intros Hsmall. rewrite Hc. apply toNumber_small. lia.
Qed.

Lemma stored_text_prefix_witness :
  let storage : gmap string string := {[ storageKey := "15.75 coins" ]} in
  let st := state startup
              (pageLoad authoringView hiddenQuiz hiddenSummary storage id) in
  coins st = Js.toNumber (Z.of_N 15)
  ∧ ((15 ≤ 2 ^ 53)%N → coins st = Js.Int (Z.of_N 15))
  ∧ coinCount st = Js.toString (coins st)
  ∧ localStorage st = storage.
Proof.
  apply (stored_text_prefix authoringView hiddenQuiz hiddenSummary
           {[ storageKey := "15.75 coins" ]} id 15%N ".75 coins");
    reflexivity.
Defined.

(** A stored number above 2^53 that is no double is read as the nearest
    double, and shown as such. *)
Example stored_text_rounded :
  let storage : gmap string string :=
    {[ storageKey := "9007199254740993" ]} in
  let st := state startup
              (pageLoad authoringView hiddenQuiz hiddenSummary storage id) in
  coins st = Js.Int (2 ^ 53)
  ∧ coinCount st = "9007199254740992".
Proof. vm_compute. by split. Qed.

(** ** Moving on after an answer *)

(** X27: when the delay after an answer is over, the question index
    moves on by one; the score, the balance and the deck stay as they are
    and nothing is awarded.  If the new index lies in the deck, the quiz
    view shows the question for the deck entry at the new index;
    otherwise the quiz view is hidden and the summary is shown with the
    score out of the deck size and the reward of the session. *)
Theorem advance_question (st : State) :
  AdvanceQuestion ∈ timers st →
  let st' := state (dispatch (TimerFired AdvanceQuestion)) st in
  let next := S (currentQuestionIndex st) in
  let size := length (currentDeck st) in
  currentQuestionIndex st' = next
  ∧ score st' = score st
  ∧ coins st' = coins st
  ∧ currentDeck st' = currentDeck st
  ∧ awards (obs (dispatch (TimerFired AdvanceQuestion)) st) = []
  ∧ if decide (next < size)%nat
    then quizContainer_hidden st' = quizContainer_hidden st
         ∧ quizSummary_hidden st' = quizSummary_hidden st
         ∧ ∃ l, currentDeck st !! next = Some l
                ∧ showsQuestion st' next size (deref st l)
    else quizContainer_hidden st' = true
         ∧ quizSummary_hidden st' = false
         ∧ summaryScore st' = scoreText (score st) size
         ∧ summaryCoins st' = summaryText (coinsEarnedThisSession st).
Proof.
  intros Hin st' next size. subst st'.
  rewrite state_dispatch, obs_dispatch. rewrite decide_True by done.
  cbn [timerCallback]. unfold advanceQuestion. autorewrite with handler.
  simpl. fold next size. case_decide as Hnext.
  - destruct (lookup_lt_is_Some_2 (currentDeck st) next Hnext) as [l Hl].
    set (s := set_currentQuestionIndex next _).
    destruct (displayQuestion_shows s l Hl) as [Hshows ->].
    destruct (displayQuestion_beside s) as [Hb _].
    assert (objects (state displayQuestion s) = objects s) as Hobj.
    { by injection Hb. }
    apply besideQuestion_inv in Hb as (Hv & _ & Hsv & Hq & _).
    rewrite Hv, Hsv, Hq. subst s. simpl. split_and!; try done.
    exists l. split; done.
  - unfold showSummary. by handler_eval.
Qed.

Lemma advance_question_witness :
  let st := state (dispatch (ClickAnswer 1)) reviewing in
  let st' := state (dispatch (TimerFired AdvanceQuestion)) st in
  let next := S (currentQuestionIndex st) in
  let size := length (currentDeck st) in
  currentQuestionIndex st' = next
  ∧ score st' = score st
  ∧ coins st' = coins st
  ∧ currentDeck st' = currentDeck st
  ∧ awards (obs (dispatch (TimerFired AdvanceQuestion)) st) = []
  ∧ if decide (next < size)%nat
    then quizContainer_hidden st' = quizContainer_hidden st
         ∧ quizSummary_hidden st' = quizSummary_hidden st
         ∧ ∃ l, currentDeck st !! next = Some l
                ∧ showsQuestion st' next size (deref st l)
    else quizContainer_hidden st' = true
         ∧ quizSummary_hidden st' = false
         ∧ summaryScore st' = scoreText (score st) size
         ∧ summaryCoins st' = summaryText (coinsEarnedThisSession st).
Proof.
  apply (advance_question (state (dispatch (ClickAnswer 1)) reviewing)).
  apply (bool_decide_unpack _). vm_compute. reflexivity.
Defined.

(** ** The end of a story waits for all images *)

(** X28: the end of a story waits for all images.  When an image request
    settles that a story generation waits for, it leaves the outstanding
    ones; as long as another such request is outstanding nothing is
    awarded, and the review button, the loading flag, the submit button
    and the balance stay as they are; when it was the last one, the
    story award is made, the review button is shown and the loading
    state is cleared.  The deck list itself is not changed by a settling
    request.  When a request settles that no generation waits for (one
    left in flight by a generation that threw), nothing is awarded and
    the variables, the authoring view, the timers and the durable store
    stay as they are. *)
Theorem award_waits_for_all_images (st : State) (req : ImageRequest)
  (r : ImageOutcome) :
  let e := ImageSettled req r in
  let st' := state (dispatch e) st in
  let outstanding := removeOne req (pendingImages st) in
  (req ∈ pendingImages st →
   pendingImages st' = outstanding
   ∧ currentDeck st' = currentDeck st
   ∧ match outstanding with
     | [] =>
         awards (obs (dispatch e) st) = [COINS_PER_STORY]
         ∧ startReviewButton_hidden st' = false
         ∧ isLoading st' = false
         ∧ generateButton_disabled st' = false
         ∧ buttonText st' = "Weave a Story"
     | _ :: _ =>
         awards (obs (dispatch e) st) = []
         ∧ startReviewButton_hidden st' = startReviewButton_hidden st
         ∧ isLoading st' = isLoading st
         ∧ generateButton_disabled st' = generateButton_disabled st
         ∧ buttonText st' = buttonText st
         ∧ coins st' = coins st
     end)
  ∧ (req ∉ pendingImages st →
     awards (obs (dispatch e) st) = []
     ∧ pendingImages st' = pendingImages st
     ∧ orphanImages st' = removeOne req (orphanImages st)
     ∧ vars st' = vars st
     ∧ mainView st' = mainView st
     ∧ timers st' = timers st
     ∧ localStorage st' = localStorage st).
Proof.
  intros e st' outstanding. subst e st'. split.
  - intros Hin.
    destruct (image_settled_spec st req r Hin) as [-> ->].
    set (st0 := set_pendingImages (removeOne req (pendingImages st)) st).
    destruct (generateImage_resume_frame req r st0)
      as (Hv & Hm & _ & _ & _ & _ & _ & Hp).
    destruct (generateImage_resume_spec req r st0)
      as (_ & _ & _ & Ha & _).
    set (st1 := state (generateImage_resume req r) st0) in *.
    rewrite awards_app, Ha.
    change (pendingImages st0) with outstanding in Hp.
    clearbody st1. destruct outstanding as [|p ps]; rewrite Hp.
    + handler_eval. by rewrite Hv.
    + rewrite Hv, Hm. done.
  - intros Hin.
    destruct (orphan_settled_frame st req r Hin)
      as (Hv & Hm & _ & _ & Ht & Hl & _ & Hp & Ha).
    split_and!; try done.
    destruct (orphan_settled st req r Hin) as [-> _].
    unfold settleOrphan. rewrite state_bind, state_get, result_get.
    case_decide as Ho.
    + rewrite state_bind, state_modify.
      destruct r; handler_eval;
        by destruct (currentDeck st !! index req).
    + rewrite state_ret. clear -Ho.
      induction (orphanImages st) as [|x l IH]; [done|].
      apply not_elem_of_cons in Ho as [Hne Ho]. simpl.
      rewrite decide_False by done. by rewrite <- IH.
Qed.

Lemma award_waits_for_all_images_witness :
  (let st := state (dispatch
                      (NarrativeSettled
                         (NarrativeOk
                            {| story := "Once";
                               characters := Some threeDescriptors |})))
               weaving in
   let e := ImageSettled (requestOf weaving 1) ImageFailed in
   let st' := state (dispatch e) st in
   pendingImages st' = [requestOf weaving 0; requestOf weaving 2]
   ∧ currentDeck st' = currentDeck st
   ∧ awards (obs (dispatch e) st) = []
   ∧ startReviewButton_hidden st' = startReviewButton_hidden st
   ∧ isLoading st' = isLoading st
   ∧ generateButton_disabled st' = generateButton_disabled st
   ∧ buttonText st' = buttonText st
   ∧ coins st' = coins st)
  ∧ (let e := ImageSettled (requestOf firstVisit 0) (ImageOk "QQ==") in
     let st' := state (dispatch e) leftover in
     awards (obs (dispatch e) leftover) = []
     ∧ pendingImages st' = pendingImages leftover
     ∧ orphanImages st'
       = removeOne (requestOf firstVisit 0) (orphanImages leftover)
     ∧ vars st' = vars leftover
     ∧ mainView st' = mainView leftover
     ∧ timers st' = timers leftover
     ∧ localStorage st' = localStorage leftover).
Proof.
  split.
  - apply (award_waits_for_all_images
             (state (dispatch
                       (NarrativeSettled
                          (NarrativeOk
                             {| story := "Once";
                                characters := Some threeDescriptors |})))
                weaving)
             (requestOf weaving 1) ImageFailed).
    apply (bool_decide_unpack _). vm_compute. reflexivity.
  - apply (award_waits_for_all_images leftover (requestOf firstVisit 0)
             (ImageOk "QQ==")).
    vm_compute. by intros ?%elem_of_nil.
Defined.

(** ** A request left in flight by a story generation that threw *)

(** After [characters] turned out to hold [null] behind a first
    character, the image request for that character is in flight, no
    generation waits for it, the loading flag is clear and the submit
    button is enabled; the deck holds that character. *)
Example leftover_request :
  orphanImages leftover = [requestOf firstVisit 0]
  ∧ pendingImages leftover = []
  ∧ isLoading leftover = false
  ∧ generateButton_disabled leftover = false
  ∧ currentDeck leftover = [0%nat]
  ∧ characterGallery leftover = []
  ∧ coins leftover = Js.Int 0.
Proof. vm_compute. by repeat split. Qed.

(** A later story generation runs to its end and a review starts while
    that request is outstanding; when it settles then, nothing is
    awarded for it, and it sets the image of the entry that the new deck
    has at its index: the entry on display gets another image than the
    one displayed. *)
Example leftover_request_settles_late :
  let st := state (run leftoverEvents) leftover in
  awards (obs (run leftoverEvents) leftover) = [COINS_PER_STORY]
  ∧ quizContainer_hidden st = false
  ∧ currentDeck st = [1%nat; 2%nat]
  ∧ currentQuestionIndex st = 0%nat
  ∧ quizCharacterImage_src st = "data:image/jpeg;base64,Qg=="
  ∧ imageUrl (deref st 1%nat) = Some "data:image/jpeg;base64,QQ=="
  ∧ orphanImages st = [].
Proof. vm_compute. by repeat split. Qed.
